(** * Recommendation engine: tag normalisation, scoring, candidate selection,
      ranking with its fallback, and the precomputation tracker

    A shallow embedding of the TypeScript services
    ([tag-service.ts], [precompute-service.ts], [recommendation-service.ts],
    the [/api/recommendations] handler of [index.ts], [config.ts], [db.ts])
    together with the properties of them that the specification states.

    Conventions of the embedding.
    - JavaScript strings are [string]; the text-processing functions are
      given on 7-bit ASCII (letters A-Z are the ones [toLowerCase] changes,
      the white space of [\s] and [trim] is tab, line feed, vertical tab,
      form feed, carriage return and space).
    - JavaScript numbers and SQL FLOAT / NUMERIC values are exact rationals
      [Q]; [NaN] is [None] in an [option Q].
    - A thrown exception is [Throw e]; a function that can throw returns a
      [result].
    - A table is the list of its rows (a map where the primary key is the
      access path); every storage call site has a fault that the environment
      may raise there. *)

From Stdlib Require Import ZArith QArith Lqa Ascii String List Bool Lia.
From Stdlib Require Import Sorting.Sorted.
From stdpp Require Import gmap strings pretty list sorting.

Local Open Scope string_scope.
Local Open Scope list_scope.
Local Open Scope Z_scope.

(** ** Part I: the embedding *)

(** *** JavaScript strings *)

Module Js.

Definition isWhiteSpace (c : ascii) : bool :=
  let n := nat_of_ascii c in
  ((9 <=? n)%nat && (n <=? 13)%nat) || (n =? 32)%nat.

Definition lowerChar (c : ascii) : ascii :=
  let n := nat_of_ascii c in
  if ((65 <=? n)%nat && (n <=? 90)%nat) then ascii_of_nat (n + 32) else c.

(** [s.toLowerCase()] *)
Fixpoint toLowerCase (s : string) : string :=
  match s with
  | EmptyString => EmptyString
  | String c s' => String (lowerChar c) (toLowerCase s')
  end.

Fixpoint trimStart (s : string) : string :=
  match s with
  | EmptyString => EmptyString
  | String c s' => if isWhiteSpace c then trimStart s' else s
  end.

Fixpoint trimEnd (s : string) : string :=
  match s with
  | EmptyString => EmptyString
  | String c s' =>
      match trimEnd s' with
      | EmptyString => if isWhiteSpace c then EmptyString else String c EmptyString
      | r => String c r
      end
  end.

(** [s.trim()] *)
Definition trim (s : string) : string := trimEnd (trimStart s).

(** [s.split(/[...]+/)] for a character class [sep]: the pieces between
    maximal runs of separator characters.  A leading or trailing run leaves
    an empty piece at that end, and the empty string splits into one empty
    piece.  [cur] is the piece being read, [inrun] tells that the previous
    character was a separator. *)
Fixpoint splitRuns (sep : ascii → bool) (s cur : string) (inrun : bool)
  : list string :=
  match s with
  | EmptyString => [cur]
  | String c s' =>
      if sep c then
        if inrun then splitRuns sep s' cur true
        else cur :: splitRuns sep s' EmptyString true
      else splitRuns sep s' (cur +:+ String c EmptyString) false
  end.

Definition split (sep : ascii → bool) (s : string) : list string :=
  splitRuns sep s EmptyString false.

(** [s.replace(/[...]+/g, by)]: every maximal run of separator characters
    becomes one copy of [by]. *)
Fixpoint replaceRuns (sep : ascii → bool) (by' : string) (s : string)
  (inrun : bool) : string :=
  match s with
  | EmptyString => EmptyString
  | String c s' =>
      if sep c then
        if inrun then replaceRuns sep by' s' true
        else by' +:+ replaceRuns sep by' s' true
      else String c (replaceRuns sep by' s' false)
  end.

Definition replaceAll (sep : ascii → bool) (by' s : string) : string :=
  replaceRuns sep by' s false.

(** [arr.includes(x)] on an array of strings *)
Definition includes (arr : list string) (x : string) : bool :=
  existsb (String.eqb x) arr.

(** A string is truthy when it is not empty; a missing one is not. *)
Definition truthy (o : option string) : bool :=
  match o with
  | Some s => negb (String.eqb s EmptyString)
  | None => false
  end.

(** [set.add(x)] on a [Set<string>], kept as the array [Array.from] gives:
    the members in the order of their first insertion. *)
Definition set_add (x : string) (s : list string) : list string :=
  if decide (x ∈ s) then s else s ++ [x].

End Js.

(** *** Data model ([types/index.ts], [db.ts]) *)

Module ProductVariant.
Record t := mk {
  id : Z;
  title : string;
  price : Q;
  inventory_quantity : Z
}.
End ProductVariant.

(** A product of the catalogue.  [category] and [vendor] can be absent
    (the code tests them before use); [tags] and the score fields are
    optional in the interface. *)
Module CatalogProduct.
Record t := mk {
  id : Z;
  title : string;
  status : string;
  category : option string;
  price : Q;
  vendor : option string;
  variants : list ProductVariant.t;
  tags : option (list string);
  weight : option Q;
  stock : Z;
  merchant_score : option Q;
  purchase_score : option Q
}.
End CatalogProduct.

(** *** Tag normaliser ([tag-service.ts]) *)

Definition stopWords : list string :=
  ["the"; "and"; "for"; "with"; "from"; "this"; "that"; "pack"].

Definition isStopWord (word : string) : bool := Js.includes stopWords word.

Definition getPriceRangeTag (price : Q) : string :=
  if Qlt_le_dec price 30 then "price:budget"
  else if Qlt_le_dec price 75 then "price:mid"
  else if Qlt_le_dec price 150 then "price:premium"
  else "price:luxury".

(** The class [[\s-]] of the title split. *)
Definition isSpaceOrDash (c : ascii) : bool :=
  Js.isWhiteSpace c || Ascii.eqb c "-"%char.

Definition titleWords (title : string) : list string :=
  Js.split isSpaceOrDash (Js.toLowerCase title).

Definition vendorTag (vendor : string) : string :=
  "vendor:" +:+ Js.replaceAll Js.isWhiteSpace "-" (Js.toLowerCase vendor).

Definition normalizeTags (product : CatalogProduct.t) : list string :=
  let tags : list string := [] in
  (* Add category as primary tag *)
  let tags :=
    match CatalogProduct.category product with
    | Some c =>
        if Js.truthy (Some c) then Js.set_add (Js.trim (Js.toLowerCase c)) tags
        else tags
    | None => tags
    end in
  (* Extract tags from title *)
  let tags :=
    fold_left
      (fun tags word =>
         if (3 <? String.length word)%nat && negb (isStopWord word)
         then Js.set_add word tags else tags)
      (titleWords (CatalogProduct.title product)) tags in
  (* Add vendor as a tag *)
  let tags :=
    match CatalogProduct.vendor product with
    | Some v => if Js.truthy (Some v) then Js.set_add (vendorTag v) tags else tags
    | None => tags
    end in
  (* Add price range tag *)
  let tags := Js.set_add (getPriceRangeTag (CatalogProduct.price product)) tags in
  (* Add existing tags if any *)
  match CatalogProduct.tags product with
  | Some existing =>
      fold_left (fun tags tag => Js.set_add (Js.trim (Js.toLowerCase tag)) tags)
        existing tags
  | None => tags
  end.



(** *** Exceptions *)

Record Error := mkError { message : string }.

Inductive result (A : Type) : Type :=
| Ok (a : A)
| Throw (e : Error).
Arguments Ok {A} a.
Arguments Throw {A} e.

(** Sequencing of calls that can throw: [x ← m; k] runs [k] on the value of
    [m] and passes an exception of [m] on. *)
#[global] Instance result_ret : MRet result := fun A a => Ok a.
#[global] Instance result_bind : MBind result := fun A B k m =>
  match m with
  | Ok a => k a
  | Throw e => Throw e
  end.

(** *** Stored rows ([db.ts]) *)

(** A row of [products] as a query hands it to the service.  The pool of
    [db.ts] is built from the connection settings alone, so the rows come
    in the driver's default representation: INT and FLOAT columns as
    numbers, the JSONB column [variants] as parsed objects, and the BIGINT
    column [id] and the NUMERIC column [price] as decimal text (the ranking
    code says so for [id], where it compares ids through [Number]).  [id]
    is kept as the integer it denotes; [price] is kept as the text, because
    the fallback adds prices with [+]. *)
Module DBProduct.
Record t := mk {
  id : Z;
  shop_id : string;
  title : string;
  category : option string;
  tags : string;
  vendor : option string;
  price : string;
  variants : list ProductVariant.t;
  status : string;
  stock : Z;
  merchant_score : Q;
  purchase_score : Q
}.

Definition with_merchant_score (m : Q) (r : t) : t :=
  mk (id r) (shop_id r) (title r) (category r) (tags r) (vendor r) (price r)
     (variants r) (status r) (stock r) m (purchase_score r).

Definition with_purchase_score (p : Q) (r : t) : t :=
  mk (id r) (shop_id r) (title r) (category r) (tags r) (vendor r) (price r)
     (variants r) (status r) (stock r) (merchant_score r) p.
End DBProduct.

(** *** Scoring engine ([computeProductScores], [precompute-service.ts]) *)

(** The CASE expression of the first UPDATE. *)
Definition merchantScoreCase (stock : Z) : Q :=
  if 50 <? stock then 1.0%Q
  else if 20 <? stock then 0.7%Q
  else if 0 <? stock then 0.4%Q
  else 0.1%Q.

Definition updateMerchantScores (shopId : string) (rows : list DBProduct.t)
  : list DBProduct.t :=
  (fun r =>
     if String.eqb (DBProduct.shop_id r) shopId
     then DBProduct.with_merchant_score (merchantScoreCase (DBProduct.stock r)) r
     else r) <$> rows.

(** [RANDOM()] is drawn once per updated row; [random i] is the draw for the
    row at position [i], a value of [0, 1). *)
Definition updatePurchaseScores (random : nat → Q) (shopId : string)
  (rows : list DBProduct.t) : list DBProduct.t :=
  imap (fun i r =>
          if String.eqb (DBProduct.shop_id r) shopId
          then DBProduct.with_purchase_score (random i * 0.5 + 0.5)%Q r
          else r) rows.

Definition computeProductScores (random : nat → Q) (shopId : string)
  (rows : list DBProduct.t) : list DBProduct.t :=
  updatePurchaseScores random shopId (updateMerchantScores shopId rows).

(** *** Storage and its faults *)

(** The places where the request path talks to storage. *)
Inductive QuerySite : Type :=
| SiteConnect                       (* pool.connect() in getRecommendations *)
| SiteProductsByIds                 (* getProductsByIds *)
| SiteTagConnect                    (* pool.connect() in getRelatedTags *)
| SiteTagLookup (tag : string)      (* SELECT children ... WHERE tag_name = tag *)
| SiteCandidates.                   (* getCandidateProductsByTags *)

Record Store := mkStore {
  products : list DBProduct.t;
  tag_graph : gmap string (list string);
  fault : QuerySite → option Error
}.

(** A storage call at [site] whose answer, when storage does not fail, is
    [answer]. *)
Definition query {A : Type} (st : Store) (site : QuerySite) (answer : A)
  : result A :=
  match fault st site with
  | Some e => Throw e
  | None => Ok answer
  end.

(** *** Candidate selector ([recommendation-service.ts]) *)

(** [WHERE id = ANY($1::bigint[])]: no other condition. *)
Definition getProductsByIds (st : Store) (productIds : list Z)
  : result (list DBProduct.t) :=
  query st SiteProductsByIds
    (List.filter (fun r => existsb (Z.eqb (DBProduct.id r)) productIds)
       (products st)).

(** The ORDER BY key. *)
Definition compositeScore (r : DBProduct.t) : Q :=
  (DBProduct.merchant_score r * 0.6 + DBProduct.purchase_score r * 0.4)%Q.

(** The WHERE clause of the candidate query. *)
Definition candidateWhere (shopId : string) (excludeIds : list Z)
  (tags : list string) (r : DBProduct.t) : bool :=
  String.eqb (DBProduct.shop_id r) shopId
  && negb (existsb (Z.eqb (DBProduct.id r)) excludeIds)
  && String.eqb (DBProduct.status r) "active"
  && (0 <? DBProduct.stock r)
  && existsb (String.eqb (DBProduct.tags r)) tags.

(** ORDER BY ... DESC, as an insertion sort that keeps rows of equal key in
    table order (SQL leaves the order of such rows open). *)
Fixpoint insertDesc (r : DBProduct.t) (l : list DBProduct.t)
  : list DBProduct.t :=
  match l with
  | [] => [r]
  | x :: l' =>
      if Qle_bool (compositeScore x) (compositeScore r) then r :: x :: l'
      else x :: insertDesc r l'
  end.

Definition orderByCompositeDesc (l : list DBProduct.t) : list DBProduct.t :=
  fold_right insertDesc [] l.


Definition getCandidateProductsByTags (st : Store) (shopId : string)
  (tags : list string) (excludeIds : list Z) (limit : nat)
  : result (list DBProduct.t) :=
  query st SiteCandidates
    (take limit
       (orderByCompositeDesc
          (List.filter (candidateWhere shopId excludeIds tags) (products st)))).

(** *** Tag graph lookup ([getRelatedTags], [tag-service.ts]) *)

Inductive RecommendationType : Type := Upsell | Crosssell.

(** The loop over the source tags inside the [try]: one query per tag, the
    children of the row found are added to the set. *)
Fixpoint relatedTagsLoop (st : Store) (tags : list string)
  (relatedTagsSet : list string) : result (list string) :=
  match tags with
  | [] => Ok relatedTagsSet
  | tag :: rest =>
      row ← query st (SiteTagLookup tag) (tag_graph st !! tag);
      relatedTagsLoop st rest
        (match row with
         | Some children =>
             fold_left (fun s child => Js.set_add child s) children relatedTagsSet
         | None => relatedTagsSet
         end)
  end.

(** The [recommendationType] argument is not read. *)
Definition getRelatedTags (st : Store) (tags : list string)
  (recommendationType : RecommendationType) (maxTags : nat)
  : result (list string) :=
  _ ← query st SiteTagConnect ();
  match relatedTagsLoop st tags [] with
  | Ok relatedTagsSet => Ok (take maxTags relatedTagsSet)
  | Throw _ => Ok []                (* catch (error) { return []; } *)
  end.

(** *** JavaScript values and their coercions *)

(** The values the ranking code meets in what the oracle returns: JSON
    values, and [undefined]. *)
#[warnings="-register-all"]
Inductive jsval : Type :=
| JUndefined
| JNull
| JBool (b : bool)
| JNum (q : Q)
| JStr (s : string)
| JArr (items : list jsval)
| JObj (fields : list (string * jsval)).

Definition TypeError (msg : string) : Error := mkError msg.
Definition SyntaxError (msg : string) : Error := mkError msg.

(** [v ? .. : ..], [v || d]: the falsy values are [undefined], [null],
    [false], [0] and the empty string. *)
Definition truthyValue (v : jsval) : bool :=
  match v with
  | JUndefined | JNull => false
  | JBool b => b
  | JNum q => negb (Qeq_bool q 0)
  | JStr s => negb (String.eqb s "")
  | JArr _ | JObj _ => true
  end.

Fixpoint assoc (name : string) (fields : list (string * jsval)) : jsval :=
  match fields with
  | [] => JUndefined
  | (k, v) :: rest => if String.eqb k name then v else assoc name rest
  end.

(** [v.name] on a value that is neither [null] nor [undefined], for the
    property names the code reads ([choices], [message], [content],
    [upsell], [crosssell]): an object gives its field, anything else has no
    such property. *)
Definition member (v : jsval) (name : string) : jsval :=
  match v with
  | JObj fields => assoc name fields
  | _ => JUndefined
  end.

(** [v.name]: reading a property of [null] or [undefined] throws. *)
Definition strictMember (v : jsval) (name : string) : result jsval :=
  match v with
  | JUndefined | JNull =>
      Throw (TypeError ("Cannot read properties of undefined (reading '" +:+ name +:+ "')"))
  | _ => Ok (member v name)
  end.

(** [v?.name] *)
Definition optMember (v : jsval) (name : string) : jsval :=
  match v with
  | JUndefined | JNull => JUndefined
  | _ => member v name
  end.

(** [v?.[0]] *)
Definition optIndex0 (v : jsval) : jsval :=
  match v with
  | JArr (x :: _) => x
  | JStr (String c _) => JStr (String c "")
  | JObj fields => assoc "0" fields
  | _ => JUndefined
  end.

Fixpoint chars (s : string) : list jsval :=
  match s with
  | EmptyString => []
  | String c s' => JStr (String c "") :: chars s'
  end.

(** [for (const x of v)]: arrays and strings can be iterated, nothing else
    among these values can. *)
Definition iterate (v : jsval) : result (list jsval) :=
  match v with
  | JArr items => Ok items
  | JStr s => Ok (chars s)
  | _ => Throw (TypeError "value is not iterable")
  end.

(** **** Reading a number from text *)

Definition digitOf (base : Z) (c : ascii) : option Z :=
  let n := Z.of_nat (nat_of_ascii c) in
  let d :=
    if (48 <=? n) && (n <=? 57) then Some (n - 48)
    else if (97 <=? n) && (n <=? 102) then Some (n - 87)
    else if (65 <=? n) && (n <=? 70) then Some (n - 55)
    else None in
  match d with
  | Some k => if k <? base then Some k else None
  | None => None
  end.

(** The value of a run of digits in [base], [None] when some character is
    no digit; [acc] is the value read so far. *)
Fixpoint digitsValue (base : Z) (s : string) (acc : Z) : option Z :=
  match s with
  | EmptyString => Some acc
  | String c s' =>
      match digitOf base c with
      | Some d => digitsValue base s' (acc * base + d)
      | None => None
      end
  end.

(** The text before the first occurrence of [c], and the text after it when
    there is one. *)
Fixpoint splitAt (c : ascii) (s : string) : string * option string :=
  match s with
  | EmptyString => (EmptyString, None)
  | String x s' =>
      if Ascii.eqb x c then (EmptyString, Some s')
      else let (a, b) := splitAt c s' in (String x a, b)
  end.

Definition splitAtEither (c1 c2 : ascii) (s : string) : string * option string :=
  match splitAt c1 s with
  | (a, Some b) =>
      match splitAt c2 a with
      | (a', Some b') => (a', Some (b' +:+ String c1 b))
      | _ => (a, Some b)
      end
  | (a, None) => splitAt c2 a
  end.

Definition stripSign (s : string) : bool * string :=
  match s with
  | String "-" s' => (true, s')
  | String "+" s' => (false, s')
  | _ => (false, s)
  end.

Definition pow10 (e : Z) : Q :=
  if 0 <=? e then inject_Z (10 ^ e) else (1 / inject_Z (10 ^ (- e)))%Q.

(** Digits, with an optional fraction: [12], [12.], [12.5], [.5]. *)
Definition mantissa (s : string) : option Q :=
  match splitAt "." s with
  | (ip, None) =>
      if String.eqb ip "" then None
      else i ← digitsValue 10 ip 0; Some (inject_Z i)
  | (ip, Some fp) =>
      if String.eqb ip "" && String.eqb fp "" then None
      else
        i ← digitsValue 10 ip 0;
        f ← digitsValue 10 fp 0;
        Some (inject_Z i + inject_Z f * pow10 (- Z.of_nat (String.length fp)))%Q
  end.

Definition exponent (s : string) : option Z :=
  let (neg, ds) := stripSign s in
  if String.eqb ds "" then None
  else e ← digitsValue 10 ds 0; Some (if neg then - e else e).

Definition decimalLiteral (s : string) : option Q :=
  let (neg, body) := stripSign s in
  let (m, e) := splitAtEither "e" "E" body in
  q ← mantissa m;
  k ← match e with
      | Some es => exponent es
      | None => Some 0
      end;
  Some ((if neg then - q else q) * pow10 k)%Q.

Definition prefixedLiteral (s : string) : option (option Q) :=
  let lit (base : Z) (ds : string) :=
    Some (if String.eqb ds "" then None
          else inject_Z <$> digitsValue base ds 0) in
  match s with
  | String "0" (String "x" ds) | String "0" (String "X" ds) => lit 16 ds
  | String "0" (String "o" ds) | String "0" (String "O" ds) => lit 8 ds
  | String "0" (String "b" ds) | String "0" (String "B" ds) => lit 2 ds
  | _ => None
  end.

(** [Number(s)] for a string: surrounding white space is dropped, the empty
    text is 0, then a decimal literal with optional sign, fraction and
    exponent, or an unsigned literal in base 16, 8 or 2.  Text that is no
    such literal is [NaN].  ([Infinity] is not a rational; it is read as
    [NaN] here, which no use below can tell apart: an id never equals
    either, and a price total starts with the digit 0.) *)
Definition stringToNumber (s : string) : option Q :=
  let t := Js.trim s in
  if String.eqb t "" then Some 0%Q
  else match prefixedLiteral t with
       | Some r => r
       | None => decimalLiteral t
       end.

(** [Number(v)].  An array is read through its text: the empty array is 0,
    a one-element array reads as its element does ([null] and [undefined]
    print as the empty text), longer arrays print with a comma. *)
Fixpoint toNumber (v : jsval) : option Q :=
  match v with
  | JUndefined => None
  | JNull => Some 0%Q
  | JBool b => Some (if b then 1 else 0)%Q
  | JNum q => Some q
  | JStr s => stringToNumber s
  | JArr [] => Some 0%Q
  | JArr [x] =>
      match x with
      | JUndefined | JNull => Some 0%Q
      | JBool _ | JObj _ => None
      | _ => toNumber x
      end
  | JArr _ => None
  | JObj _ => None
  end.

(** [a === b] on numbers: [NaN] equals nothing. *)
Definition numberEq (a b : option Q) : bool :=
  match a, b with
  | Some x, Some y => Qeq_bool x y
  | _, _ => false
  end.

(** [q || d] on a number. *)
Definition orDefault (q d : Q) : Q := if Qeq_bool q 0 then d else q.

(** **** Price texts *)

Definition isDecimalChar (c : ascii) : bool :=
  match digitOf 10 c with
  | Some _ => true
  | None => Ascii.eqb c "."
  end.

Fixpoint allDigits (s : string) : bool :=
  match s with
  | EmptyString => true
  | String c s' =>
      match digitOf 10 c with
      | Some _ => allDigits s'
      | None => false
      end
  end.

Fixpoint allDecimalChars (s : string) : bool :=
  match s with
  | EmptyString => true
  | String c s' => isDecimalChar c && allDecimalChars s'
  end.

(** The text storage prints for a NUMERIC value that is not negative:
    digits, or digits, a point and digits. *)
Definition plainDecimal (s : string) : bool :=
  match splitAt "." s with
  | (ip, None) => negb (String.eqb ip "") && allDigits ip
  | (ip, Some fp) =>
      negb (String.eqb ip "") && allDigits ip
      && negb (String.eqb fp "") && allDigits fp
  end.

(** Digits, a point and digits: a price with its cents. *)
Definition pointDecimal (s : string) : bool :=
  match splitAt "." s with
  | (ip, Some fp) =>
      negb (String.eqb ip "") && allDigits ip
      && negb (String.eqb fp "") && allDigits fp
  | (_, None) => false
  end.

(** *** Configuration ([config.ts]) *)

Record Limits := mkLimits {
  candidate_pool_size : nat;
  similarity_top_k : nat;
  final_recommendations : nat
}.

Record Config := mkConfig { limits : Limits }.

Definition config : Config := mkConfig (mkLimits 70 20 10).

(** *** Ranking oracle: configuration and invocation *)

(** The variables of [process.env] that select the oracle backend. *)
Record Env := mkEnv {
  USE_NEUROLINK : option string;
  RECOMMENDATIONS_API_KEY : option string;
  GRID_AI_API_KEY : option string
}.

Definition GRID_AI_URL : string := "https://grid.ai.juspay.net/v1/chat/completions".
Definition GEMINI_URL : string :=
  "https://generativelanguage.googleapis.com/v1beta/chat/completions".

Definition shouldUseNeurolink (env : Env) : bool :=
  match USE_NEUROLINK env with
  | Some v => String.eqb (Js.toLowerCase v) "true"
  | None => false
  end.

Record APIConfig := mkAPIConfig {
  url : string;
  apiKey : string;
  useNeurolink : bool
}.

Definition getRecommendationsAPIConfig (env : Env) : result APIConfig :=
  (* Check if Neurolink is enabled *)
  if shouldUseNeurolink env then Ok (mkAPIConfig "" "" true)
  else
    (* Try recommendations-specific Gemini key *)
    let recommendationsKey := RECOMMENDATIONS_API_KEY env in
    if Js.truthy recommendationsKey && Js.truthy (Js.trim <$> recommendationsKey)
    then Ok (mkAPIConfig GEMINI_URL (default "" recommendationsKey) false)
    else
      (* Fall back to general Grid AI key *)
      let gridKey := default "" (GRID_AI_API_KEY env) in
      if negb (Js.truthy (Some gridKey))
      then Throw (mkError "No API key found: set USE_NEUROLINK=true, RECOMMENDATIONS_API_KEY, or GRID_AI_API_KEY")
      else Ok (mkAPIConfig GRID_AI_URL gridKey false).

(** What the chat-completion endpoint does with the request: the call
    rejects (network failure, timeout), or a response arrives with its
    [ok] flag, status and body text. *)
Inductive FetchOutcome : Type :=
| FetchRejects (e : Error)
| FetchResponds (ok : bool) (status : Z) (bodyText : string).

(** What the SDK call does: it rejects, or resolves to a result object. *)
Inductive GenerateOutcome : Type :=
| GenerateRejects (e : Error)
| GenerateResolves (result : jsval).

(** The surroundings of one ranking call: the environment variables, the
    two oracle backends as what they answer to this request, and the
    runtime's [JSON.parse] ([None]: it throws) and [JSON.stringify]
    ([None]: it returns [undefined]). *)
Record Oracle := mkOracle {
  env : Env;
  fetch : string → string → FetchOutcome;
  neurolink_generate : GenerateOutcome;
  JSON_parse : string → option jsval;
  JSON_stringify : jsval → option string
}.

Definition parseJSON (o : Oracle) (text : string) : result jsval :=
  match JSON_parse o text with
  | Some v => Ok v
  | None => Throw (SyntaxError "Unexpected token in JSON")
  end.

(** The text the oracle answers with ([llmResponse]). *)
Definition invokeOracle (o : Oracle) : result jsval :=
  apiConfig ← getRecommendationsAPIConfig (env o);
  if useNeurolink apiConfig then
    match neurolink_generate o with
    | GenerateRejects e => Throw e
    | GenerateResolves result => strictMember result "content"
    end
  else
    match fetch o (url apiConfig) (apiKey apiConfig) with
    | FetchRejects e => Throw e
    | FetchResponds ok status bodyText =>
        if negb ok
        then Throw (mkError ("API error: " +:+ pretty status +:+ " - " +:+ bodyText))
        else
          data ← parseJSON o bodyText;
          choices ← strictMember data "choices";
          let content := optMember (optMember (optIndex0 choices) "message") "content" in
          Ok (if truthyValue content then content else JStr "{}")
    end.

(** *** Reading the oracle's answer *)

Definition startsWith (p s : string) : bool := String.prefix p s.

Definition dropStart (n : nat) (s : string) : string :=
  String.substring n (String.length s - n) s.

Definition dropEnd (n : nat) (s : string) : string :=
  String.substring 0 (String.length s - n) s.

Definition endsWith (p s : string) : bool :=
  (String.length p <=? String.length s)%nat
  && String.eqb (dropStart (String.length s - String.length p) s) p.

Definition fence : string := "```".
Definition newline : string := String (ascii_of_nat 10) "".

(** [.replace(/^```(?:json)?\s*\n?/, '')] *)
Definition stripFenceStart (s : string) : string :=
  if startsWith fence s then
    let r := dropStart 3 s in
    let r := if startsWith "json" r then dropStart 4 r else r in
    Js.trimStart r
  else s.

(** [.replace(/\n?```\s*$/, '')]: the fence must be the last thing before
    trailing white space; one line feed before it goes with it. *)
Definition stripFenceEnd (s : string) : string :=
  let t := Js.trimEnd s in
  if endsWith fence t then
    let t := dropEnd 3 t in
    if endsWith newline t then dropEnd 1 t else t
  else s.

(** The text up to and including the last occurrence of [c]. *)
Fixpoint throughLast (c : ascii) (s : string) : option string :=
  match s with
  | EmptyString => None
  | String x s' =>
      match throughLast c s' with
      | Some r => Some (String x r)
      | None => if Ascii.eqb x c then Some (String x "") else None
      end
  end.

(** [.match(/\{[\s\S]*\}/)]: from the first opening brace to the last
    closing brace after it. *)
Definition matchBraces (s : string) : option string :=
  match splitAt "{" s with
  | (_, Some rest) => throughLast "}" (String "{" rest)
  | (_, None) => None
  end.

(** [typeof llmResponse === 'string' ? llmResponse : JSON.stringify(llmResponse)],
    as the receiver of [.replace]. *)
Definition responseText (o : Oracle) (llmResponse : jsval) : result string :=
  match llmResponse with
  | JStr s => Ok s
  | v =>
      match JSON_stringify o v with
      | Some s => Ok s
      | None => Throw (TypeError "Cannot read properties of undefined (reading 'replace')")
      end
  end.

(** Strip markdown if present. *)
Definition cleanText (jsonText : string) : string :=
  Js.trim (stripFenceEnd (stripFenceStart jsonText)).

(** [llmResponse] to the parsed [recommendations] object. *)
Definition parseLLMResponse (o : Oracle) (llmResponse : jsval) : result jsval :=
  jsonText ← responseText o llmResponse;
  match matchBraces (cleanText jsonText) with
  | None => Throw (mkError "Failed to parse LLM response - no JSON found")
  | Some jsonMatch => parseJSON o jsonMatch
  end.

(** The ids to loop over: [recommendations.upsell || []] and the like. *)
Definition idsOf (recommendations : jsval) (key : string) : result (list jsval) :=
  field ← strictMember recommendations key;
  iterate (if truthyValue field then field else JArr []).

(** *** Ranking engine ([findNearestProductsWithLLM]) *)

Record ScoredProduct := mkScoredProduct {
  sp_id : Z;
  sp_title : string;
  variant_id : Z;
  variant_title : string;
  sp_category : option string;
  sp_price : Q;
  sp_vendor : option string;
  score : Q;
  embedding_similarity : Q;
  sp_merchant_score : Q;
  sp_purchase_score : Q;
  price_similarity : Q
}.

Record Recommendations := mkRecommendations {
  upsell : list ScoredProduct;
  crosssell : list ScoredProduct
}.

(** One entry per variant of a candidate, in variant order. *)
Definition expandVariants (candidate : DBProduct.t)
  (score embedding_similarity merchant_score purchase_score price_similarity : Q)
  : list ScoredProduct :=
  (fun variant =>
     mkScoredProduct (DBProduct.id candidate) (DBProduct.title candidate)
       (ProductVariant.id variant) (ProductVariant.title variant)
       (DBProduct.category candidate) (ProductVariant.price variant)
       (DBProduct.vendor candidate)
       score embedding_similarity merchant_score purchase_score price_similarity)
  <$> DBProduct.variants candidate.

(** [candidateList.find(c => Number(c.id) === Number(productId))]: the id
    text of a row reads as the integer it denotes. *)
Definition findCandidate (candidates : list DBProduct.t) (productId : jsval)
  : option DBProduct.t :=
  List.find
    (fun c => numberEq (Some (inject_Z (DBProduct.id c))) (toNumber productId))
    candidates.

(** The entries for the ids the oracle named under one key.  The scores of
    [candidateList] are the candidate's, with [|| 0]. *)
Definition entriesFor (candidates : list DBProduct.t) (ids : list jsval)
  (score embedding_similarity price_similarity : Q) : list ScoredProduct :=
  flat_map
    (fun productId =>
       match findCandidate candidates productId with
       | Some candidate =>
           expandVariants candidate score embedding_similarity
             (orDefault (DBProduct.merchant_score candidate) 0)
             (orDefault (DBProduct.purchase_score candidate) 0)
             price_similarity
       | None => []
       end) ids.

(** The [try] block. *)
Definition rankWithOracle (o : Oracle) (sourceProducts candidates : list DBProduct.t)
  : result Recommendations :=
  llmResponse ← invokeOracle o;
  recommendations ← parseLLMResponse o llmResponse;
  upsellIds ← idsOf recommendations "upsell";
  let upsell := entriesFor candidates upsellIds 0.9 0.85 0.8 in
  crosssellIds ← idsOf recommendations "crosssell";
  let crosssell := entriesFor candidates crosssellIds 0.85 0.8 0.75 in
  Ok (mkRecommendations
        (take (final_recommendations (limits config)) upsell)
        (take (final_recommendations (limits config)) crosssell)).

(** [sourceProducts.reduce((sum, p) => sum + p.price, 0) / sourceProducts.length].
    The prices are text, so from the first product on [+] joins text: the
    total is the text ["0"] followed by the price texts, and the division
    reads that text as a number.  On no products it is 0 / 0. *)
Definition priceTotal (sourceProducts : list DBProduct.t) : string :=
  fold_left (fun sum p => sum +:+ DBProduct.price p) sourceProducts "0".

(** The price texts of the source products, one after the other. *)
Definition joinPrices (sourceProducts : list DBProduct.t) : string :=
  foldr (fun p acc => DBProduct.price p +:+ acc) "" sourceProducts.

Definition avgPrice (sourceProducts : list DBProduct.t) : option Q :=
  match sourceProducts with
  | [] => None
  | _ =>
      total ← stringToNumber (priceTotal sourceProducts);
      Some (total / inject_Z (Z.of_nat (length sourceProducts)))%Q
  end.

(** [sourceProducts.some(p => p.category === candidate.category)] *)
Definition isSameCategory (sourceProducts : list DBProduct.t)
  (candidate : DBProduct.t) : bool :=
  existsb
    (fun p => bool_decide (DBProduct.category p = DBProduct.category candidate))
    sourceProducts.

(** [variant.price >= avgPrice]: false when [avgPrice] is [NaN]. *)
Definition isHigherPrice (sourceProducts : list DBProduct.t)
  (variant : ProductVariant.t) : bool :=
  match avgPrice sourceProducts with
  | Some avg => Qle_bool avg (ProductVariant.price variant)
  | None => false
  end.

Definition fallbackEntry (candidate : DBProduct.t) (variant : ProductVariant.t)
  : ScoredProduct :=
  mkScoredProduct (DBProduct.id candidate) (DBProduct.title candidate)
    (ProductVariant.id variant) (ProductVariant.title variant)
    (DBProduct.category candidate) (ProductVariant.price variant)
    (DBProduct.vendor candidate)
    (orDefault (DBProduct.merchant_score candidate) 0.5) 0.7
    (orDefault (DBProduct.merchant_score candidate) 0.5)
    (orDefault (DBProduct.purchase_score candidate) 0.5) 0.6.

(** The two loops of the [catch] block: every variant of each of the first
    20 candidates is pushed on [upsell] or on [crosssell]. *)
Definition fallbackLoop (sourceProducts candidates : list DBProduct.t)
  : list ScoredProduct * list ScoredProduct :=
  fold_left
    (fun lists candidate =>
       fold_left
         (fun '(upsell, crosssell) variant =>
            let scored := fallbackEntry candidate variant in
            if isSameCategory sourceProducts candidate
               && isHigherPrice sourceProducts variant
            then (upsell ++ [scored], crosssell)
            else (upsell, crosssell ++ [scored]))
         (DBProduct.variants candidate) lists)
    (take 20 candidates) ([], []).

(** The [catch] block. *)
Definition fallbackRanking (sourceProducts candidates : list DBProduct.t)
  : Recommendations :=
  let '(upsell, crosssell) := fallbackLoop sourceProducts candidates in
  mkRecommendations
    (take (final_recommendations (limits config)) upsell)
    (take (final_recommendations (limits config)) crosssell).

(** The [recommendationType] argument is not read. *)
Definition findNearestProductsWithLLM (o : Oracle)
  (sourceProducts candidates : list DBProduct.t)
  (recommendationType : list RecommendationType) : result Recommendations :=
  match rankWithOracle o sourceProducts candidates with
  | Ok ranked => Ok ranked
  | Throw _ => Ok (fallbackRanking sourceProducts candidates)
  end.

(** *** The fallback, entry by entry *)

(** The (candidate, variant) pairs the fallback walks through: every
    variant of each of the first 20 candidates, in pool and variant order. *)
Definition expandedPairs (candidates : list DBProduct.t)
  : list (DBProduct.t * ProductVariant.t) :=
  flat_map (fun c => (fun v => (c, v)) <$> DBProduct.variants c) (take 20 candidates).

(** The test the code applies to a pair. *)
Definition upsellTest (sourceProducts : list DBProduct.t)
  (cv : DBProduct.t * ProductVariant.t) : bool :=
  isSameCategory sourceProducts (fst cv) && isHigherPrice sourceProducts (snd cv).

Definition entryOf (cv : DBProduct.t * ProductVariant.t) : ScoredProduct :=
  fallbackEntry (fst cv) (snd cv).


Definition pairKey (cv : DBProduct.t * ProductVariant.t) : Z * Z :=
  (DBProduct.id (fst cv), ProductVariant.id (snd cv)).

(** The arithmetic mean of the source products' prices, each price text
    read as a number; [None] when there is no product or a text is no
    number. *)
Definition meanPrice (sourceProducts : list DBProduct.t) : option Q :=
  match sourceProducts with
  | [] => None
  | _ =>
      total ← foldr (fun p acc => a ← acc; q ← stringToNumber (DBProduct.price p);
                                   Some (q + a)%Q)
                    (Some 0%Q) sourceProducts;
      Some (total / inject_Z (Z.of_nat (length sourceProducts)))%Q
  end.

(** The test as the specification words it: the candidate shares its
    category with a source product, and the variant's price is at least the
    mean source price. *)
Definition spec_upsellTest (sourceProducts : list DBProduct.t)
  (cv : DBProduct.t * ProductVariant.t) : bool :=
  isSameCategory sourceProducts (fst cv)
  && match meanPrice sourceProducts with
     | Some mean => Qle_bool mean (ProductVariant.price (snd cv))
     | None => false
     end.

(** *** The oracle path, id list by id list *)

(** The two id lists of an oracle call that succeeds. *)
Definition oracleIds (o : Oracle) : result (list jsval * list jsval) :=
  llmResponse ← invokeOracle o;
  recommendations ← parseLLMResponse o llmResponse;
  upsellIds ← idsOf recommendations "upsell";
  crosssellIds ← idsOf recommendations "crosssell";
  Ok (upsellIds, crosssellIds).

(** *** Ways for the oracle call to fail *)


(** *** Recommendation request ([getRecommendations]) *)

(** The distinct tags of the source products, a product's tag being one
    string. *)
Definition sourceTagsOf (sourceProducts : list DBProduct.t) : list string :=
  fold_left
    (fun allSourceTags p =>
       if Js.truthy (Some (DBProduct.tags p))
       then Js.set_add (DBProduct.tags p) allSourceTags
       else allSourceTags)
    sourceProducts [].

(** The [catch] of this function rethrows, and its [finally] only releases
    the connection: an exception of any step is the exception of the call. *)
Definition getRecommendations (st : Store) (o : Oracle) (shopId : string)
  (productIds : list Z) (recommendationType : list RecommendationType)
  : result Recommendations :=
  _ ← query st SiteConnect ();
  (* Step 1: Query DB for products and extract their tags *)
  sourceProducts ← getProductsByIds st productIds;
  if (length sourceProducts =? 0)%nat
  then Throw (mkError "No products found for given IDs")
  else
    let sourceTags := sourceTagsOf sourceProducts in
    (* Step 2: Query tag_graph for related tags *)
    relatedTags ← getRelatedTags st sourceTags Crosssell 50;
    (* Step 3: Query DB for products with related tags, get top 100 by score *)
    candidateProducts ←
      getCandidateProductsByTags st shopId relatedTags productIds 100;
    if (length candidateProducts =? 0)%nat
    then Ok (mkRecommendations [] [])
    else
      (* Step 4: Use LLM to find nearest embeddings *)
      findNearestProductsWithLLM o sourceProducts candidateProducts
        recommendationType.

(** *** The [/api/recommendations] handler ([index.ts]) *)

(** The fields of the request body: [shop_id] when it is a string,
    [product_ids] when it is an array of integers. *)
Record RecommendationsRequest := mkRequest {
  req_shop_id : option string;
  req_product_ids : option (list Z);
  req_recommendation_type : option (list RecommendationType)
}.

Inductive ResponseBody : Type :=
| ErrorBody (error : string)
| RecommendationsBody (shop_id : string) (product_ids : list Z)
    (recommendations : Recommendations).

Module Response.
Record t := mk {
  status : Z;
  body : ResponseBody
}.
End Response.

Definition postRecommendations (st : Store) (o : Oracle)
  (req : RecommendationsRequest) : Response.t :=
  match req_shop_id req, req_product_ids req with
  | Some shop_id, Some product_ids =>
      if negb (Js.truthy (Some shop_id)) || (length product_ids =? 0)%nat
      then Response.mk 400
             (ErrorBody "shop_id and product_ids (array of numbers) are required")
      else
        match getRecommendations st o shop_id product_ids
                (default [Upsell; Crosssell] (req_recommendation_type req)) with
        | Ok recommendations =>
            Response.mk 200 (RecommendationsBody shop_id product_ids recommendations)
        | Throw error => Response.mk 500 (ErrorBody (message error))
        end
  | _, _ =>
      Response.mk 400
        (ErrorBody "shop_id and product_ids (array of numbers) are required")
  end.

(** *** Precomputation orchestrator ([runPrecomputation]) *)

Inductive TrackerStatus : Type := running | completed | failed.

Module ProcessTracker.
Record t := mk {
  shop_id : string;
  status : TrackerStatus;
  product_count : Z;
  started_at : Z;
  completed_at : option Z;
  last_run : Z
}.

Definition with_product_count (n : Z) (r : t) : t :=
  mk (shop_id r) (status r) n (started_at r) (completed_at r) (last_run r).

Definition with_status (s : TrackerStatus) (r : t) : t :=
  mk (shop_id r) s (product_count r) (started_at r) (completed_at r) (last_run r).

Definition with_completed_at (c : Z) (r : t) : t :=
  mk (shop_id r) (status r) (product_count r) (started_at r) (Some c) (last_run r).
End ProcessTracker.

(** The statements of one run that can raise. *)
Inductive PrecomputeSite : Type :=
| PSiteConnect            (* pool.connect() *)
| PSiteInsertTracker      (* INSERT INTO process_tracker ... RETURNING id *)
| PSiteLoadCatalog        (* loadProductCatalog *)
| PSiteUpdateCount        (* UPDATE process_tracker SET product_count *)
| PSiteEmbeddings         (* batchGenerateEmbeddings *)
| PSiteSaveProducts       (* saveProductsWithData *)
| PSiteComputeScores      (* computeProductScores *)
| PSiteDistinctTags       (* SELECT DISTINCT tags *)
| PSiteSaveTagGraph       (* saveTagGraphToDatabase *)
| PSiteMarkCompleted      (* UPDATE ... SET status = 'completed' *)
| PSiteMarkFailed.        (* UPDATE ... SET status = 'failed' *)

(** The surroundings of one run: which statements raise, the catalogue
    file, and CURRENT_TIMESTAMP at each statement. *)
Record PrecomputeEnv := mkPrecomputeEnv {
  pfault : PrecomputeSite → option Error;
  catalog : list CatalogProduct.t;
  clock : PrecomputeSite → Z
}.

(** The [process_tracker] table with its SERIAL sequence.  [history] lists
    the status values written to rows, oldest first; the code does not read
    it, it is kept to state how a row's status moves. *)
Record TrackerStore := mkTrackerStore {
  tracker : gmap Z ProcessTracker.t;
  tracker_seq : Z;
  history : list (Z * TrackerStatus)
}.

(** A statement: it changes the store and returns or throws. *)
Definition Stmt (A : Type) : Type := TrackerStore → TrackerStore * result A.

#[global] Instance Stmt_ret : MRet Stmt := fun A a s => (s, Ok a).
#[global] Instance Stmt_bind : MBind Stmt := fun A B k m s =>
  match m s with
  | (s', Ok a) => k a s'
  | (s', Throw e) => (s', Throw e)
  end.

(** A statement at [site] that leaves the tracker table alone. *)
Definition step {A : Type} (env : PrecomputeEnv) (site : PrecomputeSite)
  (answer : A) : Stmt A :=
  fun s =>
    match pfault env site with
    | Some e => (s, Throw e)
    | None => (s, Ok answer)
    end.

Definition insertTracker (env : PrecomputeEnv) (shopId : string) : Stmt Z :=
  fun s =>
    match pfault env PSiteInsertTracker with
    | Some e => (s, Throw e)
    | None =>
        let id := tracker_seq s in
        let now := clock env PSiteInsertTracker in
        (mkTrackerStore
           (<[id := ProcessTracker.mk shopId running 0 now None now]> (tracker s))
           (id + 1)
           (history s ++ [(id, running)]),
         Ok id)
    end.

Definition updateProductCount (env : PrecomputeEnv) (trackerId : Z) (n : Z)
  : Stmt unit :=
  fun s =>
    match pfault env PSiteUpdateCount with
    | Some e => (s, Throw e)
    | None =>
        (mkTrackerStore
           (alter (ProcessTracker.with_product_count n) trackerId (tracker s))
           (tracker_seq s) (history s),
         Ok ())
    end.

(** An UPDATE of the status of row [trackerId]; a row that does not exist
    is not written. *)
Definition writeStatus (trackerId : Z) (status : TrackerStatus)
  (f : ProcessTracker.t → ProcessTracker.t) (s : TrackerStore) : TrackerStore :=
  mkTrackerStore
    (alter (fun r => ProcessTracker.with_status status (f r)) trackerId (tracker s))
    (tracker_seq s)
    (match tracker s !! trackerId with
     | Some _ => history s ++ [(trackerId, status)]
     | None => history s
     end).

Definition markCompleted (env : PrecomputeEnv) (trackerId : Z) : Stmt unit :=
  fun s =>
    match pfault env PSiteMarkCompleted with
    | Some e => (s, Throw e)
    | None =>
        (writeStatus trackerId completed
           (ProcessTracker.with_completed_at (clock env PSiteMarkCompleted)) s,
         Ok ())
    end.

Definition markFailed (env : PrecomputeEnv) (trackerId : Z) : Stmt unit :=
  fun s =>
    match pfault env PSiteMarkFailed with
    | Some e => (s, Throw e)
    | None => (writeStatus trackerId failed id s, Ok ())
    end.

(** The [try] block from the catalogue load on.  The steps between the
    tracker statements work on the catalogue and the other tables; each is
    here by whether it raises.  (Embedding generation catches the failures
    of its oracle calls; what is left to raise there is its local fallback
    on a catalogue entry of the wrong shape.)  After the last UPDATE the
    block only counts variants and logs. *)
Definition precomputeSteps (env : PrecomputeEnv) (shopId : string)
  (trackerId : Z) : Stmt unit :=
  (* Step 1: Load products from catalog *)
  products ← step env PSiteLoadCatalog (catalog env);
  _ ← updateProductCount env trackerId (Z.of_nat (length products));
  (* Step 2: Process products with LLM (embeddings + tags in batches of 50) *)
  _ ← step env PSiteEmbeddings ();
  (* Step 3: Save everything to database *)
  _ ← step env PSiteSaveProducts ();
  (* Step 4: Compute product scores *)
  _ ← step env PSiteComputeScores ();
  (* Step 5: Collect all unique tags from DATABASE *)
  _ ← step env PSiteDistinctTags ();
  (* Step 6: Build tag graph with LLM (it catches every failure and returns
     a graph, empty at worst), save tag graph to database *)
  _ ← step env PSiteSaveTagGraph ();
  (* Mark process as completed *)
  markCompleted env trackerId.

(** The [catch] block: the row is marked when [trackerId] has been set
    (and is not 0), then the error is thrown again; an error of the marking
    UPDATE takes its place. *)
Definition precomputeCatch (env : PrecomputeEnv) (trackerId : option Z)
  (error : Error) : Stmt unit :=
  fun s =>
    match trackerId with
    | Some id =>
        if Z.eqb id 0 then (s, Throw error)
        else
          match markFailed env id s with
          | (s', Ok _) => (s', Throw error)
          | (s', Throw e') => (s', Throw e')
          end
    | None => (s, Throw error)
    end.

Definition runPrecomputation (env : PrecomputeEnv) (shopId : string)
  (forceRebuild : bool) : Stmt unit :=
  fun s =>
    match pfault env PSiteConnect with
    | Some e => (s, Throw e)
    | None =>
        (* let trackerId = null; try { *)
        match insertTracker env shopId s with
        | (s1, Throw error) => precomputeCatch env None error s1
        | (s1, Ok trackerId) =>
            match precomputeSteps env shopId trackerId s1 with
            | (s2, Ok _) => (s2, Ok ())
            | (s2, Throw error) => precomputeCatch env (Some trackerId) error s2
            end
        end
    end.

(** *** Precomputation, step 1: the catalogue ([loadProductCatalog]) *)

(** [variants.reduce((sum, v) => sum + (v.inventory_quantity || 0), 0)] *)
Definition calculateStock (variants : list ProductVariant.t) : Z :=
  fold_left
    (fun sum v =>
       sum + (if ProductVariant.inventory_quantity v =? 0 then 0
              else ProductVariant.inventory_quantity v))
    variants 0.

(** The [map] over [catalog.products]: the entry as it is in the file, with
    [status], [stock] and [tags] set.  An entry of the file is read with the
    fields of [CatalogProduct]; a status that is absent is as the empty one
    here, both being falsy. *)
Definition loadedProduct (p : CatalogProduct.t) : CatalogProduct.t :=
  CatalogProduct.mk (CatalogProduct.id p) (CatalogProduct.title p)
    (if Js.truthy (Some (CatalogProduct.status p)) then CatalogProduct.status p
     else "active")
    (CatalogProduct.category p) (CatalogProduct.price p) (CatalogProduct.vendor p)
    (CatalogProduct.variants p)
    (Some (default [] (CatalogProduct.tags p)))
    (CatalogProduct.weight p)
    (calculateStock (CatalogProduct.variants p))
    (CatalogProduct.merchant_score p) (CatalogProduct.purchase_score p).

(** The products of the catalogue file, for whichever shop: [shopId] is not
    read. *)
Definition loadProductCatalog (file : list CatalogProduct.t) (shopId : string)
  : list CatalogProduct.t :=
  loadedProduct <$> file.

(** *** Precomputation, step 2: the tags of a product ([embedding-service.ts]) *)

(** The stop words of this file: those of the tag normaliser, and [new]. *)
Module Embedding.
Definition stopWords : list string :=
  ["the"; "and"; "for"; "with"; "from"; "this"; "that"; "pack"; "new"].

Definition isStopWord (word : string) : bool := Js.includes stopWords word.
End Embedding.

(** The first word of the title that is longer than 3 characters and no
    stop word; [product] when there is none. *)
Definition firstMeaningfulWord (product : CatalogProduct.t) : list string :=
  match List.find
          (fun word =>
             (3 <? String.length word)%nat && negb (Embedding.isStopWord word))
          (titleWords (CatalogProduct.title product)) with
  | Some word => [word]
  | None => ["product"]
  end.

(** Extract tags without LLM (fallback). *)
Definition extractFallbackTags (product : CatalogProduct.t) : list string :=
  match CatalogProduct.category product with
  | Some c =>
      if Js.truthy (Some c) then [Js.toLowerCase c]
      else firstMeaningfulWord product
  | None => firstMeaningfulWord product
  end.

(** [getGridAIKey] *)
Definition getGridAIKey (env : Env) : result string :=
  let key := default "" (GRID_AI_API_KEY env) in
  if negb (Js.truthy (Some key))
  then Throw (mkError "GRID_AI_API_KEY not found in environment variables")
  else Ok key.

(** The call to the chat-completion endpoint, up to [llmResponse]:
    [batchProcessProductsWithLLM] and [buildTagGraphWithLLM] make it with
    the same statements. *)
Definition gridAIContent (o : Oracle) : result jsval :=
  key ← getGridAIKey (env o);
  match fetch o GRID_AI_URL key with
  | FetchRejects e => Throw e
  | FetchResponds ok status bodyText =>
      if negb ok
      then Throw (mkError ("Grid AI error: " +:+ pretty status +:+ " - " +:+ bodyText))
      else
        data ← parseJSON o bodyText;
        choices ← strictMember data "choices";
        let content := optMember (optMember (optIndex0 choices) "message") "content" in
        Ok (if truthyValue content then content else JStr "[]")
  end.

(** [.match(/\[[\s\S]*\]/)]: from the first opening bracket to the last
    closing bracket after it. *)
Definition matchBrackets (s : string) : option string :=
  match splitAt "[" s with
  | (_, Some rest) => throughLast "]" (String "[" rest)
  | (_, None) => None
  end.

(** The inner [try]: the value parsed from the array text of the answer.
    [None] when no value is assigned: [llmResponse] has no [trim] (it is no
    string), no bracketed text is found, or [JSON.parse] throws; these are
    caught or skipped by the code. *)
Definition parseArrayAnswer (o : Oracle) (llmResponse : jsval) : option jsval :=
  match llmResponse with
  | JStr s =>
      (* Remove markdown code blocks if present *)
      let jsonText := Js.trim s in
      let jsonText :=
        if startsWith fence jsonText
        then stripFenceEnd (stripFenceStart jsonText)
        else jsonText in
      jsonMatch ← matchBrackets jsonText;
      JSON_parse o jsonMatch
  | _ => None
  end.

(** [d.id === product.id] *)
Definition isId (v : jsval) (id : Z) : bool :=
  match v with
  | JNum q => Qeq_bool q (inject_Z id)
  | _ => false
  end.

Fixpoint findById (items : list jsval) (id : Z) : result (option jsval) :=
  match items with
  | [] => Ok None
  | d :: rest =>
      v ← strictMember d "id";
      if isId v id then Ok (Some d) else findById rest id
  end.

(** [parsedData.find(d => d.id === product.id)]: only an array has [find]. *)
Definition findProductData (parsedData : jsval) (id : Z) : result (option jsval) :=
  match parsedData with
  | JArr items => findById items id
  | _ => Throw (TypeError "parsedData.find is not a function")
  end.

(** The tags of the fallback, as the array they are. *)
Definition fallbackTagsValue (product : CatalogProduct.t) : jsval :=
  JArr (JStr <$> extractFallbackTags product).

(** The loop that processes each product: [results] gets the product's id
    with [llmData?.tags || extractFallbackTags(product)].  (The embedding and
    the description pushed with them are numbers and text computed from the
    product; they are left out here.) *)
Fixpoint processEach (parsedData : jsval) (products : list CatalogProduct.t)
  (results : list (Z * jsval)) : list (Z * jsval) * result unit :=
  match products with
  | [] => (results, Ok ())
  | product :: rest =>
      match findProductData parsedData (CatalogProduct.id product) with
      | Throw e => (results, Throw e)
      | Ok llmData =>
          let tags :=
            match llmData with
            | Some d =>
                if truthyValue (member d "tags") then member d "tags"
                else fallbackTagsValue product
            | None => fallbackTagsValue product
            end in
          processEach parsedData rest (results ++ [(CatalogProduct.id product, tags)])
      end
  end.

(** Fallback: process without LLM. *)
Definition fallbackResults (products : list CatalogProduct.t) : list (Z * jsval) :=
  (fun product => (CatalogProduct.id product, fallbackTagsValue product)) <$> products.

(** The [try] block and its [catch]: whatever is thrown, the entries of the
    fallback are pushed after those already in [results]. *)
Definition batchProcessProductsWithLLM (o : Oracle) (products : list CatalogProduct.t)
  : list (Z * jsval) :=
  match gridAIContent o with
  | Throw _ => fallbackResults products
  | Ok llmResponse =>
      let parsedData := default (JArr []) (parseArrayAnswer o llmResponse) in
      match processEach parsedData products [] with
      | (results, Ok _) => results
      | (results, Throw _) => results ++ fallbackResults products
      end
  end.

(** The loop over the batches, [i] going up by [batchSize] = 50 while it is
    below the number of products; [oracles n] is what surrounds the call
    made for batch [n], counted from 0.  [batchProcessProductsWithLLM]
    catches what its calls throw, so the [catch] of this loop is left with
    nothing to catch.  [results] is the [Map] from product id to tags;
    [fuel] bounds the number of rounds. *)
Fixpoint batchLoop (fuel : nat) (oracles : nat → Oracle)
  (products : list CatalogProduct.t) (i : nat) (results : gmap Z jsval)
  : gmap Z jsval :=
  match fuel with
  | O => results
  | S fuel' =>
      if (i <? length products)%nat then
        let batch := take 50 (drop i products) in
        let batchResults := batchProcessProductsWithLLM (oracles (i / 50)%nat) batch in
        batchLoop fuel' oracles products (i + 50)
          (fold_left (fun m r => <[r.1 := r.2]> m) batchResults results)
      else results
  end.

Definition batchGenerateEmbeddings (oracles : nat → Oracle)
  (products : list CatalogProduct.t) : gmap Z jsval :=
  batchLoop (length products) oracles products 0 ∅.

(** *** Query parameters and column values *)

(** What the storage driver and storage print: the text of a NUMERIC column
    read back, the texts the driver sends for a number, an array and an
    object given as parameters, and the error of a NULL in a key column. *)
Record Driver := mkDriver {
  numericText : Q → string;
  numberText : Q → string;
  arrayText : list jsval → string;
  objectText : list (string * jsval) → string;
  notNullError : Error
}.

(** The text of a value given as a query parameter; [None] is NULL. *)
Definition prepareValue (d : Driver) (v : jsval) : option string :=
  match v with
  | JUndefined | JNull => None
  | JBool b => Some (if b then "true" else "false")
  | JNum q => Some (numberText d q)
  | JStr s => Some s
  | JArr items => Some (arrayText d items)
  | JObj fields => Some (objectText d fields)
  end.

(** *** Precomputation, step 3: the product rows ([saveProductsWithData]) *)

(** [v[0]] *)
Definition index0 (v : jsval) : result jsval :=
  match v with
  | JUndefined | JNull =>
      Throw (TypeError "Cannot read properties of undefined (reading '0')")
  | _ => Ok (optIndex0 v)
  end.

(** [x || 0] on an optional score. *)
Definition scoreOrZero (x : option Q) : Q :=
  match x with
  | Some q => orDefault q 0
  | None => 0
  end.

(** The row of the VALUES list.  A NULL in the tags column reads as the
    empty text, which the request path treats alike.  (The columns weight,
    embedding, embedding_version and the two time stamps are not part of
    the rows the request path reads; they are left out.) *)
Definition productRow (d : Driver) (shopId : string) (product : CatalogProduct.t)
  (primaryTag : jsval) : DBProduct.t :=
  DBProduct.mk (CatalogProduct.id product) shopId (CatalogProduct.title product)
    (CatalogProduct.category product)
    (default "" (prepareValue d primaryTag))
    (CatalogProduct.vendor product)
    (numericText d (CatalogProduct.price product))
    (CatalogProduct.variants product)
    (CatalogProduct.status product)
    (CatalogProduct.stock product)
    (scoreOrZero (CatalogProduct.merchant_score product))
    (scoreOrZero (CatalogProduct.purchase_score product)).

(** INSERT ... ON CONFLICT (id) DO UPDATE SET ...: a row with the id takes
    every column of the new row but the two scores; with no such row the
    new one is added. *)
Definition upsertProduct (row : DBProduct.t) (rows : list DBProduct.t)
  : list DBProduct.t :=
  if existsb (fun r => DBProduct.id r =? DBProduct.id row) rows
  then (fun r =>
          if DBProduct.id r =? DBProduct.id row
          then DBProduct.with_purchase_score (DBProduct.purchase_score r)
                 (DBProduct.with_merchant_score (DBProduct.merchant_score r) row)
          else r) <$> rows
  else rows ++ [row].

(** One INSERT per product that has data, each a statement of its own:
    [saveFault id] is the error the statement for product [id] raises, when
    it does.  The rows written before an error stay written. *)
Fixpoint saveProductsWithData (d : Driver) (saveFault : Z → option Error)
  (shopId : string) (products : list CatalogProduct.t)
  (productData : gmap Z jsval) (rows : list DBProduct.t)
  : list DBProduct.t * result unit :=
  match products with
  | [] => (rows, Ok ())
  | product :: rest =>
      match productData !! CatalogProduct.id product with
      | None => saveProductsWithData d saveFault shopId rest productData rows
      | Some tags =>
          (* Store only the first tag as a plain string *)
          match index0 tags with
          | Throw e => (rows, Throw e)
          | Ok first =>
              let primaryTag := if truthyValue first then first else JStr "product" in
              match saveFault (CatalogProduct.id product) with
              | Some e => (rows, Throw e)
              | None =>
                  saveProductsWithData d saveFault shopId rest productData
                    (upsertProduct (productRow d shopId product primaryTag) rows)
              end
          end
      end
  end.

(** *** Precomputation, step 6: the tag graph ([buildTagGraphWithLLM]) *)

(** The equality of [Map] keys.  An array or an object is the same as
    itself only, and the values [JSON.parse] builds are all new. *)
Definition sameValueZero (a b : jsval) : bool :=
  match a, b with
  | JUndefined, JUndefined | JNull, JNull => true
  | JBool x, JBool y => Bool.eqb x y
  | JNum x, JNum y => Qeq_bool x y
  | JStr x, JStr y => String.eqb x y
  | _, _ => false
  end.

(** [map.set(k, v)]: the value of a key that is there is replaced where it
    stands, a new key goes to the end. *)
Fixpoint mapSet (k v : jsval) (m : list (jsval * jsval)) : list (jsval * jsval) :=
  match m with
  | [] => [(k, v)]
  | (k', v') :: rest =>
      if sameValueZero k' k then (k', v) :: rest else (k', v') :: mapSet k v rest
  end.

(** [for (const item of parsedData) tagGraph.set(item.tag, item.related)],
    up to the first item that has no properties to read: the error is
    caught and the graph built so far is kept. *)
Fixpoint setEach (items : list jsval) (tagGraph : list (jsval * jsval))
  : list (jsval * jsval) :=
  match items with
  | [] => tagGraph
  | item :: rest =>
      match strictMember item "tag" with
      | Throw _ => tagGraph
      | Ok tag => setEach rest (mapSet tag (member item "related") tagGraph)
      end
  end.

(** [allTags] goes into the request only. *)
Definition buildTagGraphWithLLM (o : Oracle) (allTags : list string)
  : list (jsval * jsval) :=
  match gridAIContent o with
  | Throw _ => []                      (* Using empty graph *)
  | Ok llmResponse =>
      match parseArrayAnswer o llmResponse with
      | None => []
      | Some parsedData =>
          match iterate parsedData with
          | Throw _ => []
          | Ok items => setEach items []
          end
      end
  end.

(** *** Precomputation, step 6: the rows of the graph ([saveTagGraphToDatabase]) *)

(** [c && typeof c === 'string' && c.trim().length > 0] *)
Definition isValidChild (c : jsval) : option string :=
  match c with
  | JStr s =>
      if truthyValue c && (0 <? String.length (Js.trim s))%nat then Some s else None
  | _ => None
  end.

(** [children.filter(...)]: only an array has [filter]. *)
Definition validChildrenOf (children : jsval) : result (list string) :=
  match children with
  | JArr items => Ok (omap isValidChild items)
  | JUndefined | JNull =>
      Throw (TypeError "Cannot read properties of undefined (reading 'filter')")
  | _ => Throw (TypeError "children.filter is not a function")
  end.

(** One INSERT ... ON CONFLICT (tag_name) DO UPDATE per tag that has valid
    children; [graphFault name] is the error the statement for [name]
    raises, when it does; a key that is NULL is refused by the column. *)
Fixpoint saveTagGraphToDatabase (d : Driver) (graphFault : string → option Error)
  (tagGraph : list (jsval * jsval)) (graph : gmap string (list string))
  : gmap string (list string) * result unit :=
  match tagGraph with
  | [] => (graph, Ok ())
  | (tagName, children) :: rest =>
      match validChildrenOf children with
      | Throw e => (graph, Throw e)
      | Ok [] => saveTagGraphToDatabase d graphFault rest graph   (* Skipping tag *)
      | Ok validChildren =>
          match prepareValue d tagName with
          | None => (graph, Throw (notNullError d))
          | Some name =>
              match graphFault name with
              | Some e => (graph, Throw e)
              | None =>
                  saveTagGraphToDatabase d graphFault rest
                    (<[name := validChildren]> graph)
              end
          end
      end
  end.

(** *** Occurrences of a character *)

(** [c] occurs in [s]. *)
Definition occursIn (c : ascii) (s : string) : Prop :=
  ∃ a b, s = a +:+ String c b.

(** *** Reading the tag graph built *)

(** [map.get(k)] for a key that is no array and no object. *)
Definition mapGet (k : jsval) (m : list (jsval * jsval)) : option jsval :=
  snd <$> List.find (fun kv => sameValueZero kv.1 k) m.

(** [item.related] of the last of [items] whose [item.tag] is the text
    [t]. *)
Fixpoint lastRelated (t : string) (items : list jsval) : option jsval :=
  match items with
  | [] => None
  | item :: rest =>
      match lastRelated t rest with
      | Some related => Some related
      | None =>
          if sameValueZero (member item "tag") (JStr t)
          then Some (member item "related") else None
      end
  end.

(** *** Sample data *)

(** A product whose category ends in a space. *)
Definition spaced_category_product : CatalogProduct.t :=
  CatalogProduct.mk 7 "Tee" "active" (Some "Tops ") 10 None [] None None 0 None None.

(** A small catalogue: three products of shop ["s"], one of shop
    ["other"], and the tag graph of the tee. *)
Definition tee : DBProduct.t :=
  DBProduct.mk 1001 "s" "Classic Tee" (Some "t-shirts") "t-shirt"
    (Some "BasicWear Co.") "29.99"
    [ProductVariant.mk 10011 "Small" 29.99 40; ProductVariant.mk 10012 "Large" 31.99 20]
    "active" 60 1.0 0.5.

Definition jeans : DBProduct.t :=
  DBProduct.mk 2001 "s" "Slim Jeans" (Some "pants") "jeans"
    (Some "DenimDreams") "79.99"
    [ProductVariant.mk 20011 "32x32" 79.99 30]
    "active" 30 0.7 0.9.

Definition sneakers : DBProduct.t :=
  DBProduct.mk 3001 "s" "Street Sneakers" (Some "shoes") "sneakers"
    (Some "UrbanStyle") "59.99"
    [ProductVariant.mk 30011 "42" 59.99 55; ProductVariant.mk 30012 "43" 59.99 10]
    "active" 65 1.0 0.6.

Definition foreign_tee : DBProduct.t :=
  DBProduct.mk 4001 "other" "Plain Tee" (Some "t-shirts") "t-shirt"
    (Some "CoolThreads") "19.99"
    [ProductVariant.mk 40011 "Medium" 19.99 5]
    "active" 5 0.4 0.7.

Definition sample_store : Store :=
  mkStore [tee; jeans; sneakers; foreign_tee]
    {[ "t-shirt" := ["jeans"; "sneakers"] ]}
    (fun _ => None).

(** A second tee of shop ["s"], and a dearer one. *)
Definition polo : DBProduct.t :=
  DBProduct.mk 1002 "s" "Pocket Tee" (Some "t-shirts") "t-shirt"
    (Some "TrendyThreads") "31.99"
    [ProductVariant.mk 10021 "Medium" 31.99 25]
    "active" 25 0.7 0.8.

Definition premium_tee : DBProduct.t :=
  DBProduct.mk 1003 "s" "V-Neck Premium Tee" (Some "t-shirts") "premium-tee"
    (Some "PremiumFit") "39.99"
    [ProductVariant.mk 10031 "Small" 39.99 70]
    "active" 70 1.0 0.9.

Definition quote : string := String (ascii_of_nat 34) EmptyString.

(** No oracle configured at all. *)
Definition no_key_oracle : Oracle :=
  mkOracle (mkEnv None None None)
    (fun _ _ => FetchRejects (mkError "fetch failed"))
    (GenerateRejects (mkError "not configured"))
    (fun _ => None) (fun _ => None).

(** The gateway answers 503. *)
Definition unavailable_oracle : Oracle :=
  mkOracle (mkEnv (Some "false") None (Some "grid-key"))
    (fun _ _ => FetchResponds false 503 "Service Unavailable")
    (GenerateRejects (mkError "not configured"))
    (fun _ => None) (fun _ => None).

(** The answer [{"upsell":[2001],"crosssell":[2001]}] and a parser that reads
    this one text. *)
Definition both_lists_text : string :=
  "{" +:+ quote +:+ "upsell" +:+ quote +:+ ":[2001],"
      +:+ quote +:+ "crosssell" +:+ quote +:+ ":[2001]}".

Definition both_lists_value : jsval :=
  JObj [("upsell", JArr [JNum 2001]); ("crosssell", JArr [JNum 2001])].

(** The SDK backend answering with the jeans' id under both keys. *)
Definition both_lists_oracle : Oracle :=
  mkOracle (mkEnv (Some "true") None None)
    (fun _ _ => FetchRejects (mkError "fetch failed"))
    (GenerateResolves (JObj [("content", JStr both_lists_text)]))
    (fun text => if String.eqb text both_lists_text then Some both_lists_value else None)
    (fun _ => None).

(** The sample store with every tag-graph query failing. *)
Definition tag_fault_store : Store :=
  mkStore (products sample_store) (tag_graph sample_store)
    (fun site =>
       match site with
       | SiteTagLookup _ => Some (mkError "Connection terminated unexpectedly")
       | _ => None
       end).

Definition tee_request : RecommendationsRequest :=
  mkRequest (Some "s") (Some [1001]) None.

(** What the specification says of a run and the table: exactly one row is
    created. *)
Definition creates_one_record (s s' : TrackerStore) : Prop :=
  ∃ id rec, tracker s !! id = None ∧ tracker s' = <[id := rec]> (tracker s).

Definition empty_tracker : TrackerStore := mkTrackerStore ∅ 1 [].

(** A run whose first INSERT raises, one whose product save raises, and one
    where nothing raises. *)
Definition insert_fault_env : PrecomputeEnv :=
  mkPrecomputeEnv
    (fun site =>
       match site with
       | PSiteInsertTracker => Some (mkError "Connection terminated unexpectedly")
       | _ => None
       end)
    [] (fun _ => 1764410400).

Definition save_fault_env : PrecomputeEnv :=
  mkPrecomputeEnv
    (fun site =>
       match site with
       | PSiteSaveProducts => Some (mkError "value too long for type")
       | _ => None
       end)
    [spaced_category_product] (fun _ => 1764410400).

Definition healthy_env : PrecomputeEnv :=
  mkPrecomputeEnv (fun _ => None) [spaced_category_product] (fun _ => 1764410400).

(** A driver for the examples: a NUMERIC value prints with two decimals, a
    number parameter as its integer part. *)
Definition centsText (q : Q) : string :=
  let c := Qnum (q * 100) / Z.pos (Qden (q * 100)) in
  pretty (c / 100) +:+ "." +:+ (if c mod 100 <? 10 then "0" else "") +:+ pretty (c mod 100).

Definition sample_driver : Driver :=
  mkDriver centsText (fun q => pretty (Qnum q / Z.pos (Qden q))) (fun _ => "{}")
    (fun _ => "{}")
    (mkError "null value in column tag_name violates not-null constraint").

(** A tag graph as the oracle may give it: no children for the hoodie;
    for the tee, among the children a null, a blank and a repetition. *)
Definition tee_children : list jsval :=
  [JStr "jeans"; JNull; JStr " "; JStr "sneakers"; JStr "jeans"].

Definition sample_tag_graph : list (jsval * jsval) :=
  [(JStr "hoodie", JArr []); (JStr "t-shirt", JArr tee_children)].

(** An entry of the catalogue file: no status, no tags, stock not given. *)
Definition file_tee : CatalogProduct.t :=
  CatalogProduct.mk 1001 "Classic Tee" "" (Some "T-Shirts") 29.99
    (Some "BasicWear Co.")
    [ProductVariant.mk 10011 "Small" 29.99 40; ProductVariant.mk 10012 "Large" 31.99 20]
    None None 0 None None.

(** The gateway answering the tag-graph request with
    [[{"tag":"t-shirt","related":["hat"]},
      {"tag":"t-shirt","related":["jeans","sneakers",""]},null]]
    and a parser that reads the response body and this text. *)
Definition graph_answer_text : string :=
  "[{" +:+ quote +:+ "tag" +:+ quote +:+ ":" +:+ quote +:+ "t-shirt" +:+ quote +:+ ","
       +:+ quote +:+ "related" +:+ quote +:+ ":[" +:+ quote +:+ "hat" +:+ quote +:+ "]},{"
       +:+ quote +:+ "tag" +:+ quote +:+ ":" +:+ quote +:+ "t-shirt" +:+ quote +:+ ","
       +:+ quote +:+ "related" +:+ quote +:+ ":[" +:+ quote +:+ "jeans" +:+ quote +:+ ","
       +:+ quote +:+ "sneakers" +:+ quote +:+ "," +:+ quote +:+ quote +:+ "]},null]".

Definition graph_answer_items : list jsval :=
  [JObj [("tag", JStr "t-shirt"); ("related", JArr [JStr "hat"])];
   JObj [("tag", JStr "t-shirt"); ("related", JArr [JStr "jeans"; JStr "sneakers"; JStr ""])]].

Definition graph_oracle : Oracle :=
  mkOracle (mkEnv None None (Some "grid-key"))
    (fun _ _ => FetchResponds true 200 "response body")
    (GenerateRejects (mkError "not configured"))
    (fun text =>
       if String.eqb text "response body"
       then Some (JObj [("choices",
                         JArr [JObj [("message",
                                      JObj [("content", JStr graph_answer_text)])]])])
       else if String.eqb text graph_answer_text
       then Some (JArr (graph_answer_items ++ [JNull]))
       else None)
    (fun _ => None).

(** ** Part II: properties *)

Example normalizeTags_sample :
  normalizeTags
    (CatalogProduct.mk 1 "Classic Cotton T-Shirt - White" "active"
       (Some "T-Shirts ") 29.99 (Some "BasicWear  Co.") [] (Some [" Summer"])
       None 0 None None)
  = ["t-shirts"; "classic"; "cotton"; "shirt"; "white";
     "vendor:basicwear-co."; "price:budget"; "summer"].
Proof. vm_compute. reflexivity. Qed.

(** *** Sets kept as arrays *)

Lemma elem_of_set_add (x y : string) (s : list string) :
  x ∈ Js.set_add y s ↔ x = y ∨ x ∈ s.
Proof.
  unfold Js.set_add. destruct (decide (y ∈ s)) as [Hy | Hy].
  - split; [by right | intros [-> | H]; done].
  - rewrite elem_of_app, list_elem_of_singleton. tauto.
Qed.

Lemma NoDup_set_add (y : string) (s : list string) :
  NoDup s → NoDup (Js.set_add y s).
Proof.
  intros Hs. unfold Js.set_add. destruct (decide (y ∈ s)) as [Hy | Hy]; [done |].
  apply NoDup_app. split; [done |]. split.
  - intros x Hx Hx'. apply list_elem_of_singleton in Hx'. by subst.
  - apply NoDup_singleton.
Qed.

(** Adding, in a loop, [f w] for the items [w] that pass the test [P]. *)
Lemma elem_of_fold_set_add {A : Type} (P : A → bool) (f : A → string)
  (ws : list A) (init : list string) (t : string) :
  t ∈ fold_left (fun tags w => if P w then Js.set_add (f w) tags else tags) ws init
  ↔ t ∈ init ∨ ∃ w, w ∈ ws ∧ P w = true ∧ t = f w.
Proof.
  revert init. induction ws as [| w ws IH]; intros init; simpl.
  - split; [by left | intros [H | (w & Hw & _)]; [done | by apply elem_of_nil in Hw]].
  - rewrite IH. destruct (P w) eqn:HP.
    + rewrite elem_of_set_add. split.
      * intros [[-> | H] | (w' & Hw' & HP' & ->)].
        -- right. exists w. split; [left | done].
        -- by left.
        -- right. exists w'. split; [by right | done].
      * intros [H | (w' & Hw' & HP' & ->)]; [left; by right |].
        apply elem_of_cons in Hw' as [-> | Hw'].
        -- left. by left.
        -- right. by exists w'.
    + split.
      * intros [H | (w' & Hw' & HP' & ->)]; [by left |].
        right. exists w'. split; [by right | done].
      * intros [H | (w' & Hw' & HP' & ->)]; [by left |].
        apply elem_of_cons in Hw' as [-> | Hw']; [congruence |].
        right. by exists w'.
Qed.

Lemma NoDup_fold_set_add {A : Type} (P : A → bool) (f : A → string)
  (ws : list A) (init : list string) :
  NoDup init →
  NoDup (fold_left (fun tags w => if P w then Js.set_add (f w) tags else tags) ws init).
Proof.
  revert init. induction ws as [| w ws IH]; intros init Hinit; simpl; [done |].
  apply IH. destruct (P w); [by apply NoDup_set_add | done].
Qed.

Lemma includes_true (arr : list string) (x : string) :
  Js.includes arr x = true ↔ x ∈ arr.
Proof.
  unfold Js.includes. rewrite existsb_exists. split.
  - intros (y & Hy & Heq). apply String.eqb_eq in Heq. subst.
    by apply list_elem_of_In.
  - intros Hx. exists x. split; [by apply list_elem_of_In | apply String.eqb_refl].
Qed.


(** *** Tag normaliser *)





(** *** Scoring engine *)

Lemma merchantScoreCase_steps (stock : Z) :
  (50 < stock → merchantScoreCase stock = 1.0%Q)
  ∧ (20 < stock → stock ≤ 50 → merchantScoreCase stock = 0.7%Q)
  ∧ (0 < stock → stock ≤ 20 → merchantScoreCase stock = 0.4%Q)
  ∧ (stock ≤ 0 → merchantScoreCase stock = 0.1%Q).
Proof.
  unfold merchantScoreCase.
  destruct (Z.ltb_spec 50 stock), (Z.ltb_spec 20 stock), (Z.ltb_spec 0 stock);
    repeat split; intros; first [reflexivity | lia].
Qed.

(** The rows of the shop after [computeProductScores]: a row of the table
    with both scores replaced, the merchant score by the CASE on its own
    stock. *)
Lemma computeProductScores_row (random : nat → Q) (shopId : string)
  (rows : list DBProduct.t) (r : DBProduct.t) :
  r ∈ computeProductScores random shopId rows →
  DBProduct.shop_id r = shopId →
  ∃ r0 p, r0 ∈ rows
    ∧ r = DBProduct.with_purchase_score p
            (DBProduct.with_merchant_score (merchantScoreCase (DBProduct.stock r0)) r0).
Proof.
  unfold computeProductScores, updatePurchaseScores, updateMerchantScores.
  intros Hin Hshop.
  apply elem_of_lookup_imap in Hin as (i & r1 & -> & Hi).
  apply list_elem_of_lookup_2 in Hi.
  apply list_elem_of_fmap in Hi as (r0 & -> & Hr0).
  destruct (String.eqb_spec (DBProduct.shop_id r0) shopId) as [Heq | Hne].
  - simpl. rewrite Heq, String.eqb_refl. by eexists _, _.
  - rewrite (proj2 (String.eqb_neq _ _) Hne) in Hshop. done.
Qed.

(** C4.  After score computation every product of the shop has a merchant
    score that is the step function of its stock: 1.0 above 50, 0.7 above 20
    up to 50, 0.4 above 0 up to 20, 0.1 at 0 and below; so 50 gives 0.7,
    20 gives 0.4 and 0 gives 0.1. *)
Theorem merchant_score_is_stock_step (random : nat → Q) (shopId : string)
  (rows : list DBProduct.t) (r : DBProduct.t) :
  r ∈ computeProductScores random shopId rows →
  DBProduct.shop_id r = shopId →
  let stock := DBProduct.stock r in
  let score := DBProduct.merchant_score r in
  score ∈ [1.0%Q; 0.7%Q; 0.4%Q; 0.1%Q]
  ∧ (50 < stock → score = 1.0%Q)
  ∧ (20 < stock → stock ≤ 50 → score = 0.7%Q)
  ∧ (0 < stock → stock ≤ 20 → score = 0.4%Q)
  ∧ (stock ≤ 0 → score = 0.1%Q)
  ∧ (stock = 50 → score = 0.7%Q)
  ∧ (stock = 20 → score = 0.4%Q)
  ∧ (stock = 0 → score = 0.1%Q).
Proof.
  intros Hin Hshop.
  destruct (computeProductScores_row _ _ _ _ Hin Hshop) as (r0 & p & _ & ->).
  simpl.
  destruct (merchantScoreCase_steps (DBProduct.stock r0)) as (H1 & H2 & H3 & H4).
  split; [| repeat split; intros; first [by apply H1 | by apply H2; lia
                                        | by apply H3; lia | by apply H4; lia]].
  unfold merchantScoreCase.
  destruct (50 <? _); [set_solver |].
  destruct (20 <? _); [set_solver |].
  destruct (0 <? _); set_solver.
Qed.

Lemma merchant_score_is_stock_step_witness :
  let r := DBProduct.with_purchase_score (0.25 * 0.5 + 0.5)%Q
             (DBProduct.with_merchant_score 0.7%Q jeans) in
  DBProduct.merchant_score r ∈ [1.0%Q; 0.7%Q; 0.4%Q; 0.1%Q]
  ∧ (20 < DBProduct.stock r → DBProduct.stock r ≤ 50 →
     DBProduct.merchant_score r = 0.7%Q).
Proof.
  intros r.
  assert (Hin : r ∈ computeProductScores (fun _ => 0.25%Q) "s" (products sample_store)).
  { vm_compute. right. left. }
  assert (Hshop : DBProduct.shop_id r = "s") by reflexivity.
  pose proof (merchant_score_is_stock_step (fun _ => 0.25%Q) "s"
                (products sample_store) r Hin Hshop) as H.
  split; [apply H | apply H].
Defined.

(** *** Candidate selector *)

Lemma elem_of_insertDesc (r x : DBProduct.t) (l : list DBProduct.t) :
  x ∈ insertDesc r l ↔ x = r ∨ x ∈ l.
Proof.
  induction l as [| y l IH]; simpl.
  - rewrite list_elem_of_singleton. split; [by left | intros [H | H]; [done |]].
    by apply elem_of_nil in H.
  - destruct (Qle_bool (compositeScore y) (compositeScore r)).
    + by rewrite elem_of_cons.
    + rewrite !elem_of_cons, IH. tauto.
Qed.

Lemma elem_of_orderByCompositeDesc (x : DBProduct.t) (l : list DBProduct.t) :
  x ∈ orderByCompositeDesc l ↔ x ∈ l.
Proof.
  induction l as [| y l IH]; simpl; [done |].
  rewrite elem_of_insertDesc, elem_of_cons, IH. tauto.
Qed.



Lemma candidateWhere_true (shopId : string) (excludeIds : list Z)
  (tags : list string) (r : DBProduct.t) :
  candidateWhere shopId excludeIds tags r = true ↔
  (DBProduct.shop_id r = shopId ∧ (DBProduct.id r ∉ excludeIds)
   ∧ DBProduct.status r = "active" ∧ 0 < DBProduct.stock r
   ∧ DBProduct.tags r ∈ tags).
Proof.
  unfold candidateWhere. rewrite !andb_true_iff, negb_true_iff.
  rewrite !String.eqb_eq, Z.ltb_lt.
  assert (Hex : (existsb (Z.eqb (DBProduct.id r)) excludeIds = false)
                ↔ (DBProduct.id r ∉ excludeIds)).
  { rewrite <- not_true_iff_false, existsb_exists. split.
    - intros Hn Hin. apply Hn. exists (DBProduct.id r).
      split; [by apply list_elem_of_In | apply Z.eqb_refl].
    - intros Hn (y & Hy & Heq). apply Z.eqb_eq in Heq. subst.
      by apply Hn, list_elem_of_In. }
  assert (Htag : (existsb (String.eqb (DBProduct.tags r)) tags = true)
                 ↔ (DBProduct.tags r ∈ tags)) by apply includes_true.
  rewrite Hex, Htag. tauto.
Qed.

(** What a successful candidate query returns: rows of the table passing
    the WHERE clause, at most [limit] of them, in the ORDER BY order. *)
Lemma getCandidateProductsByTags_rows (st : Store) (shopId : string)
  (tags : list string) (excludeIds : list Z) (limit : nat)
  (rows : list DBProduct.t) :
  getCandidateProductsByTags st shopId tags excludeIds limit = Ok rows →
  rows = take limit (orderByCompositeDesc
           (List.filter (candidateWhere shopId excludeIds tags) (products st))).
Proof.
  unfold getCandidateProductsByTags, query.
  destruct (fault st SiteCandidates); congruence.
Qed.



(** *** Ranking engine: the oracle path and its failures *)





Lemma findNearestProductsWithLLM_fallback (o : Oracle)
  (sourceProducts candidates : list DBProduct.t)
  (recommendationType : list RecommendationType) (e : Error) :
  rankWithOracle o sourceProducts candidates = Throw e →
  findNearestProductsWithLLM o sourceProducts candidates recommendationType
  = Ok (fallbackRanking sourceProducts candidates).
Proof. intros H. unfold findNearestProductsWithLLM. by rewrite H. Qed.


(** *** Recommendation request: where its errors come from *)






(** C5.  Two runs of the fallback path on the same source products and the
    same candidate pool return the same lists, in the same order and with
    the same assignment to upsell and crosssell, whatever oracle failed,
    however it failed and whichever recommendation types were asked for. *)
Theorem fallback_is_deterministic (o1 o2 : Oracle)
  (sourceProducts candidates : list DBProduct.t)
  (type1 type2 : list RecommendationType) (e1 e2 : Error) :
  rankWithOracle o1 sourceProducts candidates = Throw e1 →
  rankWithOracle o2 sourceProducts candidates = Throw e2 →
  findNearestProductsWithLLM o1 sourceProducts candidates type1
  = findNearestProductsWithLLM o2 sourceProducts candidates type2.
Proof.
  intros H1 H2.
  rewrite (findNearestProductsWithLLM_fallback _ _ _ _ _ H1).
  by rewrite (findNearestProductsWithLLM_fallback _ _ _ _ _ H2).
Qed.

Lemma fallback_is_deterministic_witness :
  findNearestProductsWithLLM no_key_oracle [tee] [sneakers; jeans] [Upsell; Crosssell]
  = findNearestProductsWithLLM unavailable_oracle [tee] [sneakers; jeans] [Crosssell].
Proof.
  eapply (fallback_is_deterministic no_key_oracle unavailable_oracle);
    vm_compute; reflexivity.
Defined.

(** *** Ranking engine: the fallback *)

Section Fallback.
Context (sourceProducts : list DBProduct.t).

Lemma fallback_variants_fold
  (candidate : DBProduct.t) (variants : list ProductVariant.t)
  (upsell crosssell : list ScoredProduct) :
  fold_left
    (fun '(upsell, crosssell) variant =>
       let scored := fallbackEntry candidate variant in
       if isSameCategory sourceProducts candidate
          && isHigherPrice sourceProducts variant
       then (upsell ++ [scored], crosssell)
       else (upsell, crosssell ++ [scored]))
    variants (upsell, crosssell)
  = (upsell ++ (entryOf <$> List.filter (upsellTest sourceProducts)
                              ((fun v => (candidate, v)) <$> variants)),
     crosssell ++ (entryOf <$> List.filter (fun cv => negb (upsellTest sourceProducts cv))
                                 ((fun v => (candidate, v)) <$> variants))).
Proof.
  revert upsell crosssell.
  induction variants as [| v vs IH]; intros upsell crosssell.
  - simpl. by rewrite !app_nil_r.
  - rewrite !fmap_cons. cbn [fold_left List.filter].
    assert (Ht : upsellTest sourceProducts (candidate, v)
                 = isSameCategory sourceProducts candidate
                   && isHigherPrice sourceProducts v) by reflexivity.
    rewrite Ht.
    destruct (isSameCategory sourceProducts candidate
              && isHigherPrice sourceProducts v); cbn [negb];
      rewrite IH, ?fmap_cons, <- ?app_assoc; reflexivity.
Qed.

Lemma fallback_candidates_fold (pool : list DBProduct.t)
  (upsell crosssell : list ScoredProduct) :
  let pairs := flat_map (fun c => (fun v => (c, v)) <$> DBProduct.variants c) pool in
  fold_left
    (fun lists candidate =>
       fold_left
         (fun '(upsell, crosssell) variant =>
            let scored := fallbackEntry candidate variant in
            if isSameCategory sourceProducts candidate
               && isHigherPrice sourceProducts variant
            then (upsell ++ [scored], crosssell)
            else (upsell, crosssell ++ [scored]))
         (DBProduct.variants candidate) lists)
    pool (upsell, crosssell)
  = (upsell ++ (entryOf <$> List.filter (upsellTest sourceProducts) pairs),
     crosssell ++ (entryOf <$> List.filter (fun cv => negb (upsellTest sourceProducts cv)) pairs)).
Proof.
  revert upsell crosssell.
  induction pool as [| c pool IH]; intros upsell crosssell; simpl.
  - by rewrite !app_nil_r.
  - rewrite fallback_variants_fold, IH.
    rewrite !List.filter_app, !fmap_app, !app_assoc. reflexivity.
Qed.

(** The fallback lists are the entries of the expanded pairs that pass,
    respectively fail, the code's test, in the order of the pairs. *)
Lemma fallbackLoop_partition (candidates : list DBProduct.t) :
  fallbackLoop sourceProducts candidates
  = (entryOf <$> List.filter (upsellTest sourceProducts) (expandedPairs candidates),
     entryOf <$> List.filter (fun cv => negb (upsellTest sourceProducts cv))
                   (expandedPairs candidates)).
Proof.
  unfold fallbackLoop, expandedPairs.
  exact (fallback_candidates_fold (take 20 candidates) [] []).
Qed.

(** The shape of the fallback result: the first 20 candidates, every
    variant of each, split by the code's test, each list cut to
    [final_recommendations], which is 10. *)
Lemma fallbackRanking_shape (candidates : list DBProduct.t) :
  final_recommendations (limits config) = 10%nat
  ∧ upsell (fallbackRanking sourceProducts candidates)
    = take 10 (entryOf <$> List.filter (upsellTest sourceProducts)
                             (expandedPairs candidates))
  ∧ crosssell (fallbackRanking sourceProducts candidates)
    = take 10 (entryOf <$> List.filter (fun cv => negb (upsellTest sourceProducts cv))
                             (expandedPairs candidates)).
Proof.
  unfold fallbackRanking. rewrite fallbackLoop_partition. simpl. done.
Qed.

End Fallback.

(** With one source product the total is its price text behind a 0, which
    reads as the price. *)
Example avgPrice_one_source : avgPrice [tee] = Some 29.99%Q ∧ meanPrice [tee] = Some 29.99%Q.
Proof. split; vm_compute; reflexivity. Qed.

(** **** One source product: the total still reads as the price *)

Lemma decimalChar_plain (c : ascii) :
  isDecimalChar c = true →
  Js.isWhiteSpace c = false
  ∧ Ascii.eqb c "e" = false ∧ Ascii.eqb c "E" = false
  ∧ Ascii.eqb c "+" = false ∧ Ascii.eqb c "-" = false
  ∧ Ascii.eqb c "x" = false ∧ Ascii.eqb c "X" = false
  ∧ Ascii.eqb c "o" = false ∧ Ascii.eqb c "O" = false
  ∧ Ascii.eqb c "b" = false ∧ Ascii.eqb c "B" = false.
Proof.
  destruct c as [[] [] [] [] [] [] [] []]; vm_compute; intros H;
    first [discriminate H | repeat split].
Qed.

Lemma digit_decimalChar (c : ascii) (d : Z) : digitOf 10 c = Some d → isDecimalChar c = true.
Proof. unfold isDecimalChar. by intros ->. Qed.

Lemma allDigits_decimalChars (s : string) : allDigits s = true → allDecimalChars s = true.
Proof.
  induction s as [| c s IH]; simpl; [done |].
  destruct (digitOf 10 c) as [d |] eqn:Hd; [| discriminate].
  intros H. rewrite (digit_decimalChar _ _ Hd). simpl. by apply IH.
Qed.

Lemma splitAt_point_decimalChars (s ip : string) (rest : option string) :
  splitAt "." s = (ip, rest) →
  allDigits ip = true →
  (∀ fp, rest = Some fp → allDigits fp = true) →
  allDecimalChars s = true.
Proof.
  revert ip rest. induction s as [| c s IH]; intros ip rest; simpl; [done |].
  destruct (Ascii.eqb_spec c ".") as [-> | Hc].
  - intros [= <- <-] _ Hfp. simpl. apply allDigits_decimalChars. by apply Hfp.
  - destruct (splitAt "." s) as [a b] eqn:Hs. intros [= <- <-]. simpl.
    destruct (digitOf 10 c) as [d |] eqn:Hd; [| discriminate].
    intros Ha Hfp. rewrite (digit_decimalChar _ _ Hd). simpl. by apply (IH a b).
Qed.

Lemma plainDecimal_decimalChars (s : string) :
  plainDecimal s = true → allDecimalChars s = true ∧ s ≠ "".
Proof.
  unfold plainDecimal. destruct (splitAt "." s) as [ip [fp |]] eqn:Hs; intros H.
  - apply andb_true_iff in H as [H Hfp]. apply andb_true_iff in H as [H _].
    apply andb_true_iff in H as [Hne Hip]. split.
    + by apply (splitAt_point_decimalChars s ip (Some fp)); [| | intros ? [= <-]].
    + intros ->. simpl in Hs. injection Hs as <- . discriminate.
  - apply andb_true_iff in H as [Hne Hip]. split.
    + by apply (splitAt_point_decimalChars s ip None).
    + intros ->. simpl in Hs. injection Hs as <-. discriminate.
Qed.

Lemma trimStart_decimalChars (s : string) : allDecimalChars s = true → Js.trimStart s = s.
Proof.
  destruct s as [| c s]; simpl; [done |]. intros H. apply andb_true_iff in H as [Hc _].
  by rewrite (proj1 (decimalChar_plain c Hc)).
Qed.

Lemma trimEnd_decimalChars (s : string) : allDecimalChars s = true → Js.trimEnd s = s.
Proof.
  induction s as [| c s IH]; simpl; [done |]. intros H.
  apply andb_true_iff in H as [Hc Hs]. rewrite (IH Hs).
  destruct s; [by rewrite (proj1 (decimalChar_plain c Hc)) | done].
Qed.

Lemma splitAt_absent (c : ascii) (s : string) :
  (∀ x, isDecimalChar x = true → Ascii.eqb x c = false) →
  allDecimalChars s = true → splitAt c s = (s, None).
Proof.
  intros Hc. induction s as [| x s IH]; simpl; [done |]. intros H.
  apply andb_true_iff in H as [Hx Hs]. rewrite (Hc x Hx), (IH Hs). done.
Qed.

Lemma stringToNumber_decimalChars (s : string) :
  allDecimalChars s = true → s ≠ "" →
  stringToNumber s = (q ← mantissa s; Some (q * pow10 0)%Q).
Proof.
  intros Hs Hne. unfold stringToNumber, Js.trim.
  rewrite (trimStart_decimalChars s Hs), (trimEnd_decimalChars s Hs).
  destruct (String.eqb_spec s "") as [-> | _]; [done |].
  destruct s as [| c s]; [done |]. simpl in Hs.
  apply andb_true_iff in Hs as [Hc Hs].
  destruct (decimalChar_plain c Hc) as (_ & _ & _ & Hplus & Hminus & _).
  assert (Hpre : prefixedLiteral (String c s) = None).
  { unfold prefixedLiteral. destruct s as [| c' s]; [by destruct c as [[] [] [] [] [] [] [] []] |].
    simpl in Hs. apply andb_true_iff in Hs as [Hc' _].
    destruct (decimalChar_plain c' Hc') as (_ & _ & _ & _ & _ & Hx & HX & Ho & HO & Hb & HB).
    destruct c as [[] [] [] [] [] [] [] []]; try reflexivity.
    destruct c' as [[] [] [] [] [] [] [] []]; try reflexivity; discriminate. }
  rewrite Hpre. unfold decimalLiteral.
  assert (Hsign : stripSign (String c s) = (false, String c s)).
  { unfold stripSign. destruct c as [[] [] [] [] [] [] [] []]; try reflexivity; discriminate. }
  rewrite Hsign. unfold splitAtEither.
  assert (Hall : allDecimalChars (String c s) = true) by (simpl; by rewrite Hc, Hs).
  rewrite (splitAt_absent "e" (String c s)); [| intros x Hx; apply (decimalChar_plain x Hx) | done].
  rewrite (splitAt_absent "E" (String c s)); [| intros x Hx; apply (decimalChar_plain x Hx) | done].
  destruct (mantissa (String c s)); reflexivity.
Qed.

Lemma mantissa_leading_zero (s : string) :
  plainDecimal s = true → mantissa (String "0" s) = mantissa s.
Proof.
  unfold plainDecimal, mantissa. simpl.
  destruct (splitAt "." s) as [ip [fp |]] eqn:Hs; intros H.
  - apply andb_true_iff in H as [H _]. apply andb_true_iff in H as [H _].
    apply andb_true_iff in H as [Hne _]. apply negb_true_iff in Hne. rewrite Hne. simpl.
    reflexivity.
  - apply andb_true_iff in H as [Hne _]. apply negb_true_iff in Hne. rewrite Hne. simpl.
    reflexivity.
Qed.

Lemma stringToNumber_leading_zero (s : string) :
  plainDecimal s = true → stringToNumber (String "0" s) = stringToNumber s.
Proof.
  intros H. destruct (plainDecimal_decimalChars s H) as [Hs Hne].
  rewrite (stringToNumber_decimalChars s Hs Hne).
  rewrite (stringToNumber_decimalChars (String "0" s)); [| simpl; by rewrite Hs | done].
  by rewrite mantissa_leading_zero.
Qed.

(** With one source product whose price text is a plain decimal, the code's
    test is the specification's. *)
Lemma upsellTest_one_source (p : DBProduct.t) (cv : DBProduct.t * ProductVariant.t) :
  plainDecimal (DBProduct.price p) = true →
  upsellTest [p] cv = spec_upsellTest [p] cv.
Proof.
  intros H. unfold upsellTest, spec_upsellTest. f_equal.
  unfold isHigherPrice, avgPrice, meanPrice.
  change (priceTotal [p]) with (String "0" (DBProduct.price p)).
  rewrite (stringToNumber_leading_zero _ H). cbn [foldr].
  destruct (stringToNumber (DBProduct.price p)) as [q |]; simpl; [| done].
  apply eq_true_iff_eq. rewrite !Qle_bool_iff.
  assert (Heq : (q / 1 == (q + 0) / 1)%Q) by (field).
  by rewrite Heq.
Qed.

(** **** Two or more source products: the total is no number *)

Lemma string_app_assoc (a b c : string) : (a +:+ b) +:+ c = a +:+ (b +:+ c).
Proof.
  induction a as [| x a IH]; [done |].
  change (String x ((a +:+ b) +:+ c) = String x (a +:+ (b +:+ c))). by rewrite IH.
Qed.

Lemma string_app_nil_r (a : string) : a +:+ "" = a.
Proof.
  induction a as [| x a IH]; [done |].
  change (String x (a +:+ "") = String x a). by rewrite IH.
Qed.

Lemma allDecimalChars_app (a b : string) :
  allDecimalChars (a +:+ b) = allDecimalChars a && allDecimalChars b.
Proof.
  induction a as [| x a IH]; [done |].
  change (isDecimalChar x && allDecimalChars (a +:+ b)
          = isDecimalChar x && allDecimalChars a && allDecimalChars b).
  by rewrite IH, andb_assoc.
Qed.

Lemma priceTotal_join (sourceProducts : list DBProduct.t) (init : string) :
  fold_left (fun sum p => sum +:+ DBProduct.price p) sourceProducts init
  = init +:+ joinPrices sourceProducts.
Proof.
  revert init. induction sourceProducts as [| p l IH]; intros init.
  - simpl. by rewrite string_app_nil_r.
  - cbn [fold_left]. rewrite IH.
    change (joinPrices (p :: l)) with (DBProduct.price p +:+ joinPrices l).
    apply string_app_assoc.
Qed.

Lemma pointDecimal_plain (s : string) : pointDecimal s = true → plainDecimal s = true.
Proof.
  unfold pointDecimal, plainDecimal. by destruct (splitAt "." s) as [ip [fp |]].
Qed.

Lemma splitAt_app_found (c : ascii) (s r a b : string) :
  splitAt c s = (a, Some b) → splitAt c (s +:+ r) = (a, Some (b +:+ r)).
Proof.
  revert a b. induction s as [| x s IH]; intros a b; simpl; [done |].
  destruct (Ascii.eqb x c); [by intros [= <- <-] |].
  destruct (splitAt c s) as [a' [b' |]]; intros [= <- <-].
  by rewrite (IH a' b' eq_refl).
Qed.

Lemma splitAt_app_later (c : ascii) (s r a b : string) :
  splitAt c r = (a, Some b) → ∃ a' b', splitAt c (s +:+ r) = (a', Some b').
Proof.
  intros Hr. induction s as [| x s (a' & b' & IH)]; simpl; [by exists a, b |].
  destruct (Ascii.eqb x c); [by eexists _, _ |]. rewrite IH. by eexists _, _.
Qed.

(** A run of digits is not read through a point. *)
Lemma digitsValue_point (s a b : string) (acc : Z) :
  splitAt "." s = (a, Some b) → digitsValue 10 s acc = None.
Proof.
  revert a b acc. induction s as [| x s IH]; intros a b acc; simpl; [done |].
  destruct (Ascii.eqb_spec x ".") as [-> | Hx]; [done |].
  destruct (splitAt "." s) as [a' [b' |]] eqn:Hs; [| done]. intros _.
  destruct (digitOf 10 x) as [d |]; [| done]. by apply (IH a' b').
Qed.

Lemma joinPrices_decimalChars (sourceProducts : list DBProduct.t) :
  Forall (fun p => pointDecimal (DBProduct.price p) = true) sourceProducts →
  allDecimalChars (joinPrices sourceProducts) = true.
Proof.
  induction 1 as [| p l Hp _ IH]; simpl; [done |].
  rewrite allDecimalChars_app, IH, andb_true_r.
  by apply plainDecimal_decimalChars, pointDecimal_plain.
Qed.

(** From two source products on, each price having its point, the total
    has two points and is no number. *)
Lemma avgPrice_two_sources (p1 p2 : DBProduct.t) (rest : list DBProduct.t) :
  Forall (fun p => pointDecimal (DBProduct.price p) = true) (p1 :: p2 :: rest) →
  avgPrice (p1 :: p2 :: rest) = None.
Proof.
  intros Hall. unfold avgPrice.
  assert (Hnum : stringToNumber (priceTotal (p1 :: p2 :: rest)) = None); [| by rewrite Hnum].
  unfold priceTotal. rewrite priceTotal_join.
  change ("0" +:+ joinPrices (p1 :: p2 :: rest))
    with (String "0" (DBProduct.price p1 +:+ joinPrices (p2 :: rest))).
  rewrite stringToNumber_decimalChars; [| | done].
  2:{ change (allDecimalChars (joinPrices (p1 :: p2 :: rest)) = true).
      by apply joinPrices_decimalChars. }
  assert (Hm : mantissa (String "0" (DBProduct.price p1 +:+ joinPrices (p2 :: rest))) = None);
    [| by rewrite Hm].
  apply Forall_cons in Hall as [H1 Hall]. apply Forall_cons in Hall as [H2 _].
  unfold pointDecimal in H1, H2.
  destruct (splitAt "." (DBProduct.price p1)) as [ip1 [fp1 |]] eqn:Hs1; [| done].
  destruct (splitAt "." (DBProduct.price p2)) as [ip2 [fp2 |]] eqn:Hs2; [| done].
  unfold mantissa. cbn [splitAt]. change (Ascii.eqb "0" ".") with false. cbv iota.
  rewrite (splitAt_app_found _ _ (joinPrices (p2 :: rest)) _ _ Hs1).
  cbn [String.eqb andb].
  destruct (splitAt_app_later "." fp1 (joinPrices (p2 :: rest)) ip2
              (fp2 +:+ joinPrices rest)) as (a & b & Hlater).
  { simpl. by apply splitAt_app_found. }
  rewrite (digitsValue_point _ _ _ 0 Hlater).
  by destruct (digitsValue 10 (String "0" ip1) 0).
Qed.

(** So from two source products on, the fallback puts nothing in upsell. *)
Lemma fallback_no_upsell_from_two_sources (p1 p2 : DBProduct.t)
  (rest candidates : list DBProduct.t) :
  Forall (fun p => pointDecimal (DBProduct.price p) = true) (p1 :: p2 :: rest) →
  upsell (fallbackRanking (p1 :: p2 :: rest) candidates) = [].
Proof.
  intros Hall. destruct (fallbackRanking_shape (p1 :: p2 :: rest) candidates) as (_ & -> & _).
  rewrite (filter_ext _ (fun _ => false)), filter_false; [done |].
  intros cv. unfold upsellTest, isHigherPrice. rewrite (avgPrice_two_sources _ _ _ Hall).
  apply andb_false_r.
Qed.

(** C2, at two source products.  The tee and the polo cost 29.99 and 31.99,
    their mean is 30.99; the premium tee is in their category and its
    variant costs 39.99, so the specification's test makes it an upsell.
    The code adds the price texts with [+]: the total is the text
    ["029.9931.99"], which is no number, the comparison with it is false,
    and the entry lands in crosssell. *)
Theorem fallback_mean_lost_on_two_sources :
  priceTotal [tee; polo] = "029.9931.99"
  ∧ avgPrice [tee; polo] = None
  ∧ (∃ mean, meanPrice [tee; polo] = Some mean ∧ (mean == 30.99)%Q)
  ∧ spec_upsellTest [tee; polo] (premium_tee, ProductVariant.mk 10031 "Small" 39.99 70) = true
  ∧ upsellTest [tee; polo] (premium_tee, ProductVariant.mk 10031 "Small" 39.99 70) = false
  ∧ fallbackRanking [tee; polo] [premium_tee]
    = mkRecommendations []
        [fallbackEntry premium_tee (ProductVariant.mk 10031 "Small" 39.99 70)].
Proof.
  split; [reflexivity |]. split; [reflexivity |].
  split; [eexists; split; [vm_compute; reflexivity | reflexivity] |].
  repeat split; vm_compute; reflexivity.
Qed.

(** *** The two lists and the pairs in them *)

Lemma NoDup_fmap_eq {A B : Type} (f : A → B) (l : list A) (x y : A) :
  NoDup (f <$> l) → x ∈ l → y ∈ l → f x = f y → x = y.
Proof.
  induction l as [| a l IH]; simpl; intros Hnd Hx Hy Hf.
  - by apply elem_of_nil in Hx.
  - apply NoDup_cons in Hnd as [Ha Hnd].
    apply elem_of_cons in Hx as [-> | Hx]; apply elem_of_cons in Hy as [-> | Hy].
    + done.
    + exfalso. apply Ha. rewrite Hf. by apply list_elem_of_fmap_2.
    + exfalso. apply Ha. rewrite <- Hf. by apply list_elem_of_fmap_2.
    + by apply IH.
Qed.


Lemma elem_of_fmap_filter (test : DBProduct.t * ProductVariant.t → bool)
  (pairs : list (DBProduct.t * ProductVariant.t)) (x : ScoredProduct) (n : nat) :
  x ∈ take n (entryOf <$> List.filter test pairs) →
  ∃ cv, cv ∈ pairs ∧ test cv = true ∧ x = entryOf cv.
Proof.
  intros Hx. apply subseteq_take in Hx.
  apply list_elem_of_fmap in Hx as (cv & -> & Hcv).
  apply list_elem_of_In, filter_In in Hcv as [Hcv Ht].
  exists cv. by rewrite list_elem_of_In.
Qed.


Lemma rankWithOracle_ids (o : Oracle) (sourceProducts candidates : list DBProduct.t) :
  rankWithOracle o sourceProducts candidates
  = (ids ← oracleIds o;
     Ok (mkRecommendations
           (take 10 (entriesFor candidates ids.1 0.9 0.85 0.8))
           (take 10 (entriesFor candidates ids.2 0.85 0.8 0.75)))).
Proof.
  unfold rankWithOracle, oracleIds.
  destruct (invokeOracle o) as [v |]; simpl; [| done].
  destruct (parseLLMResponse o v) as [recs |]; simpl; [| done].
  destruct (idsOf recs "upsell") as [ups |]; simpl; [| done].
  destruct (idsOf recs "crosssell") as [crs |]; simpl; done.
Qed.

(** **** Pools that come from the table *)

Lemma insertDesc_Permutation (r : DBProduct.t) (l : list DBProduct.t) :
  insertDesc r l ≡ₚ r :: l.
Proof.
  induction l as [| x l IH]; simpl; [done |].
  destruct (Qle_bool (compositeScore x) (compositeScore r)); [done |].
  rewrite IH. apply Permutation_swap.
Qed.

Lemma orderByCompositeDesc_Permutation (l : list DBProduct.t) :
  orderByCompositeDesc l ≡ₚ l.
Proof.
  induction l as [| x l IH]; simpl; [done |].
  by rewrite insertDesc_Permutation, IH.
Qed.

Lemma NoDup_fmap_filter {A B : Type} (f : A → B) (test : A → bool) (l : list A) :
  NoDup (f <$> l) → NoDup (f <$> List.filter test l).
Proof.
  induction l as [| x l IH]; simpl; [done |].
  intros [Hx Hl]%NoDup_cons. destruct (test x); [| by apply IH].
  rewrite fmap_cons. apply NoDup_cons. split; [| by apply IH].
  intros Hin. apply Hx. apply list_elem_of_fmap in Hin as (y & -> & Hy).
  apply list_elem_of_fmap_2. apply list_elem_of_In, filter_In in Hy as [Hy _].
  by apply list_elem_of_In.
Qed.

(** The ids of a candidate pool are pairwise distinct when those of the
    table are, as its primary key makes them. *)
Lemma candidate_ids_NoDup (st : Store) (shopId : string) (tags : list string)
  (excludeIds : list Z) (limit : nat) (rows : list DBProduct.t) :
  NoDup (DBProduct.id <$> products st) →
  getCandidateProductsByTags st shopId tags excludeIds limit = Ok rows →
  NoDup (DBProduct.id <$> rows).
Proof.
  intros Hnd Hq. apply getCandidateProductsByTags_rows in Hq. subst rows.
  rewrite fmap_take. eapply sublist_NoDup; [| apply sublist_take].
  rewrite orderByCompositeDesc_Permutation. by apply NoDup_fmap_filter.
Qed.

(** Distinct candidate ids and, within each candidate, distinct variant ids
    make the pairs of the expanded pool distinct. *)
Lemma expandedPairs_NoDup (candidates : list DBProduct.t) :
  NoDup (DBProduct.id <$> candidates) →
  Forall (fun c => NoDup (ProductVariant.id <$> DBProduct.variants c)) candidates →
  NoDup (pairKey <$> expandedPairs candidates).
Proof.
  intros Hids Hvars. unfold expandedPairs.
  assert (Hids' : NoDup (DBProduct.id <$> take 20 candidates)).
  { rewrite fmap_take. eapply sublist_NoDup; [exact Hids | apply sublist_take]. }
  assert (Hvars' : Forall (fun c => NoDup (ProductVariant.id <$> DBProduct.variants c))
                     (take 20 candidates)) by (by apply Forall_take).
  clear Hids Hvars. induction (take 20 candidates) as [| c l IH]; simpl; [constructor |].
  apply NoDup_cons in Hids' as [Hc Hl]. apply Forall_cons in Hvars' as [Hv Hvl].
  rewrite fmap_app. apply NoDup_app. split; [| split; [| by apply IH]].
  - rewrite <- list_fmap_compose.
    assert (Heq : (pairKey ∘ (fun v => (c, v))) <$> DBProduct.variants c
                  = (fun k => (DBProduct.id c, k)) <$> (ProductVariant.id <$> DBProduct.variants c)).
    { rewrite <- list_fmap_compose. apply list_fmap_ext. by intros. }
    rewrite Heq. apply NoDup_fmap_2; [| done]. by intros x y [= ->].
  - intros k Hk1 Hk2. apply Hc.
    apply list_elem_of_fmap in Hk1 as ([c1 v1] & -> & Hcv1).
    apply list_elem_of_fmap in Hcv1 as (v & [= -> ->] & _).
    apply list_elem_of_fmap in Hk2 as ([c2 v2] & Hkey & Hcv2).
    apply list_elem_of_In, in_flat_map in Hcv2 as (c' & Hc' & Hcv2).
    apply list_elem_of_In, list_elem_of_fmap in Hcv2 as (v' & [= -> ->] & _).
    injection Hkey as -> _. apply list_elem_of_fmap_2. by apply list_elem_of_In.
Qed.




(** *** Storage errors on the request path *)

Lemma relatedTagsLoop_fault (st : Store) (tags : list string) (set : list string)
  (tag : string) (e : Error) :
  tag ∈ tags → fault st (SiteTagLookup tag) = Some e →
  ∃ e', relatedTagsLoop st tags set = Throw e'.
Proof.
  revert set. induction tags as [| t tags IH]; intros set Hin Hf.
  - by apply elem_of_nil in Hin.
  - simpl. unfold query.
    destruct (fault st (SiteTagLookup t)) as [e0 |] eqn:Ht; simpl; [by exists e0 |].
    apply elem_of_cons in Hin as [-> | Hin]; [congruence |].
    by apply IH.
Qed.

Lemma no_candidates_without_tags (st : Store) (shopId : string)
  (excludeIds : list Z) (limit : nat) :
  fault st SiteCandidates = None →
  getCandidateProductsByTags st shopId [] excludeIds limit = Ok [].
Proof.
  intros Hf. unfold getCandidateProductsByTags, query. rewrite Hf.
  assert (Hnil : List.filter (candidateWhere shopId excludeIds []) (products st) = []).
  { induction (products st) as [| r l IH]; simpl; [done |].
    unfold candidateWhere at 1. simpl. by rewrite andb_false_r. }
  rewrite Hnil. simpl. by rewrite take_nil.
Qed.

Lemma length_eqb_0 {A : Type} (l : list A) : l ≠ [] → (length l =? 0)%nat = false.
Proof. destruct l; [done | reflexivity]. Qed.

(** C9, as the code has it.  A storage error raised when the request
    acquires its connection, by the source-product query, when the tag
    lookup acquires its connection, or by the candidate query is the
    exception of [getRecommendations].  A storage error raised by a
    tag-graph query is caught inside [getRelatedTags], which returns the
    empty list; the request then goes on and, the candidate query finding
    nothing for no tags, ends with empty recommendations. *)
Theorem storage_errors_on_request_path (st : Store) (o : Oracle) (shopId : string)
  (productIds : list Z) (recommendationType : list RecommendationType) :
  let call := getRecommendations st o shopId productIds recommendationType in
  (∀ e, fault st SiteConnect = Some e → call = Throw e)
  ∧ (∀ e, fault st SiteConnect = None → fault st SiteProductsByIds = Some e →
       call = Throw e)
  ∧ (∀ e src, fault st SiteConnect = None →
       getProductsByIds st productIds = Ok src → src ≠ [] →
       fault st SiteTagConnect = Some e →
       call = Throw e)
  ∧ (∀ e src related, fault st SiteConnect = None →
       getProductsByIds st productIds = Ok src → src ≠ [] →
       getRelatedTags st (sourceTagsOf src) Crosssell 50 = Ok related →
       fault st SiteCandidates = Some e →
       call = Throw e)
  ∧ (∀ tags type maxTags tag e, fault st SiteTagConnect = None →
       tag ∈ tags → fault st (SiteTagLookup tag) = Some e →
       getRelatedTags st tags type maxTags = Ok [])
  ∧ (∀ src tag e, fault st SiteConnect = None →
       getProductsByIds st productIds = Ok src → src ≠ [] →
       fault st SiteTagConnect = None →
       tag ∈ sourceTagsOf src → fault st (SiteTagLookup tag) = Some e →
       fault st SiteCandidates = None →
       call = Ok (mkRecommendations [] [])).
Proof.
  assert (Hrel : ∀ tags type maxTags tag e, fault st SiteTagConnect = None →
            tag ∈ tags → fault st (SiteTagLookup tag) = Some e →
            getRelatedTags st tags type maxTags = Ok []).
  { intros tags type maxTags tag e Hc Hin Hf. unfold getRelatedTags, query.
    rewrite Hc. simpl.
    destruct (relatedTagsLoop_fault st tags [] tag e Hin Hf) as [e' ->]. done. }
  cbv zeta. unfold getRecommendations. repeat split.
  - intros e Hc. unfold query. by rewrite Hc.
  - intros e Hc Hp. unfold getProductsByIds, query. by rewrite Hc, Hp.
  - intros e src Hc Hp Hne Ht. unfold query at 1. rewrite Hc. simpl.
    rewrite Hp. simpl. rewrite (length_eqb_0 _ Hne).
    unfold getRelatedTags, query. by rewrite Ht.
  - intros e src related Hc Hp Hne Hr Hq. unfold query at 1. rewrite Hc. simpl.
    rewrite Hp. simpl. rewrite (length_eqb_0 _ Hne), Hr. simpl.
    unfold getCandidateProductsByTags, query. by rewrite Hq.
  - exact Hrel.
  - intros src tag e Hc Hp Hne Ht Hin Hf Hq. unfold query at 1. rewrite Hc. simpl.
    rewrite Hp. simpl. rewrite (length_eqb_0 _ Hne).
    rewrite (Hrel _ Crosssell 50%nat tag e Ht Hin Hf). simpl.
    by rewrite (no_candidates_without_tags _ _ _ _ Hq).
Qed.

Lemma storage_errors_on_request_path_witness :
  getRelatedTags tag_fault_store ["t-shirt"] Crosssell 50 = Ok []
  ∧ getRecommendations tag_fault_store no_key_oracle "s" [1001] [Upsell; Crosssell]
    = Ok (mkRecommendations [] []).
Proof.
  pose proof (storage_errors_on_request_path tag_fault_store no_key_oracle "s"
                [1001] [Upsell; Crosssell]) as (_ & _ & _ & _ & Hrel & Hcall).
  split.
  - apply (Hrel ["t-shirt"] Crosssell 50%nat "t-shirt"
             (mkError "Connection terminated unexpectedly"));
      [reflexivity | left | reflexivity].
  - apply (Hcall [tee] "t-shirt" (mkError "Connection terminated unexpectedly"));
      [reflexivity | reflexivity | discriminate | reflexivity | | reflexivity | reflexivity].
    vm_compute. left.
Defined.

(** C9, as the specification words it, fails: with the tag-graph query
    raising a storage error, the lookup returns normally and the request is
    answered 200 with empty lists. *)
Lemma tag_lookup_error_becomes_normal_result :
  fault tag_fault_store (SiteTagLookup "t-shirt")
  = Some (mkError "Connection terminated unexpectedly")
  ∧ getRelatedTags tag_fault_store ["t-shirt"] Crosssell 50 = Ok []
  ∧ postRecommendations tag_fault_store no_key_oracle tee_request
    = Response.mk 200 (RecommendationsBody "s" [1001] (mkRecommendations [] [])).
Proof. repeat split; vm_compute; reflexivity. Qed.

(** *** Source products are looked up by id alone *)




(** A request of shop ["s"] for the id of the other shop's tee is answered
    with products of shop ["s"] related to that tee's tag. *)
Example recommendations_from_foreign_product :
  ∃ r, getRecommendations sample_store no_key_oracle "s" [4001] [Upsell; Crosssell] = Ok r
       ∧ sp_id <$> crosssell r = [3001; 3001; 2001].
Proof. eexists. split; vm_compute; reflexivity. Qed.

(** *** Precomputation: the tracker row of a run *)

(** The table after the INSERT, and the statements on the row it made. *)
Lemma insertTracker_ok (env : PrecomputeEnv) (shopId : string) (s : TrackerStore) :
  pfault env PSiteInsertTracker = None →
  insertTracker env shopId s
  = (mkTrackerStore
       (<[tracker_seq s :=
            ProcessTracker.mk shopId running 0 (clock env PSiteInsertTracker) None
              (clock env PSiteInsertTracker)]> (tracker s))
       (tracker_seq s + 1)
       (history s ++ [(tracker_seq s, running)]),
     Ok (tracker_seq s)).
Proof. intros H. unfold insertTracker. by rewrite H. Qed.

Lemma writeStatus_row (id : Z) (status : TrackerStatus)
  (f : ProcessTracker.t → ProcessTracker.t) (m : gmap Z ProcessTracker.t)
  (seq : Z) (h : list (Z * TrackerStatus)) (rec : ProcessTracker.t) :
  writeStatus id status f (mkTrackerStore (<[id := rec]> m) seq h)
  = mkTrackerStore (<[id := ProcessTracker.with_status status (f rec)]> m) seq
      (h ++ [(id, status)]).
Proof.
  unfold writeStatus. simpl. by rewrite alter_insert_eq, lookup_insert_eq.
Qed.

(** Case on the statement at [site]: when it raises, the block throws with
    the row as it is, [rec]; otherwise the proof goes on. *)
Ltac raises_or_goes_on env site rec :=
  let e := fresh "e" in
  destruct (pfault env site) as [e |];
  [exists rec; split; [done |]; right; by exists e |].

(** The [try] block on the fresh row: it ends normally with the row
    completed and its [completed_at] set, or it throws with the row still
    running and [completed_at] unset. *)
Lemma precomputeSteps_row (env : PrecomputeEnv) (shopId : string) (id : Z)
  (m : gmap Z ProcessTracker.t) (seq : Z) (h : list (Z * TrackerStatus))
  (rec : ProcessTracker.t) :
  ProcessTracker.status rec = running →
  ProcessTracker.completed_at rec = None →
  ∃ rec',
    ProcessTracker.shop_id rec' = ProcessTracker.shop_id rec
    ∧ ((precomputeSteps env shopId id (mkTrackerStore (<[id := rec]> m) seq h)
        = (mkTrackerStore (<[id := rec']> m) seq (h ++ [(id, completed)]), Ok ())
        ∧ ProcessTracker.status rec' = completed
        ∧ ProcessTracker.completed_at rec' = Some (clock env PSiteMarkCompleted))
       ∨ (∃ e, precomputeSteps env shopId id (mkTrackerStore (<[id := rec]> m) seq h)
               = (mkTrackerStore (<[id := rec']> m) seq h, Throw e)
          ∧ ProcessTracker.status rec' = running
          ∧ ProcessTracker.completed_at rec' = None)).
Proof.
  intros Hst Hca.
  unfold precomputeSteps, mbind, Stmt_bind, step, updateProductCount, markCompleted.
  raises_or_goes_on env PSiteLoadCatalog rec.
  raises_or_goes_on env PSiteUpdateCount rec.
  cbn [tracker tracker_seq history]. rewrite alter_insert_eq.
  set (rec1 := ProcessTracker.with_product_count _ rec).
  assert (H1 : ProcessTracker.status rec1 = running) by done.
  assert (H2 : ProcessTracker.completed_at rec1 = None) by done.
  assert (H3 : ProcessTracker.shop_id rec1 = ProcessTracker.shop_id rec) by done.
  raises_or_goes_on env PSiteEmbeddings rec1.
  raises_or_goes_on env PSiteSaveProducts rec1.
  raises_or_goes_on env PSiteComputeScores rec1.
  raises_or_goes_on env PSiteDistinctTags rec1.
  raises_or_goes_on env PSiteSaveTagGraph rec1.
  raises_or_goes_on env PSiteMarkCompleted rec1.
  rewrite writeStatus_row. eexists. split; [| left; split; [reflexivity |]]; done.
Qed.

(** C7, as the code has it.  A run creates at most one tracker row: none
    when the connection or the first INSERT fails (the error is thrown on
    and no row is touched), otherwise exactly one, created as running and
    the only row the run writes.  The status of that row moves at most
    once: to completed when every step succeeds, to failed when a step
    throws and the marking UPDATE succeeds; it stays running when the
    marking UPDATE fails as well.  No status is written after completed or
    failed, and [completed_at] is set exactly on the rows that end
    completed. *)
Theorem tracker_row_lifecycle (env : PrecomputeEnv) (shopId : string)
  (forceRebuild : bool) (s : TrackerStore) :
  1 ≤ tracker_seq s →
  tracker s !! tracker_seq s = None →
  let s' := (runPrecomputation env shopId forceRebuild s).1 in
  let r := (runPrecomputation env shopId forceRebuild s).2 in
  let id := tracker_seq s in
  (s' = s
   ∧ ∃ e, r = Throw e
          ∧ (pfault env PSiteConnect = Some e
             ∨ (pfault env PSiteConnect = None ∧ pfault env PSiteInsertTracker = Some e)))
  ∨ (pfault env PSiteConnect = None ∧ pfault env PSiteInsertTracker = None
     ∧ ∃ rec,
         tracker s' = <[id := rec]> (tracker s)
         ∧ ProcessTracker.shop_id rec = shopId
         ∧ ((history s' = history s ++ [(id, running); (id, completed)]
             ∧ ProcessTracker.status rec = completed
             ∧ is_Some (ProcessTracker.completed_at rec)
             ∧ r = Ok ())
            ∨ (history s' = history s ++ [(id, running); (id, failed)]
               ∧ ProcessTracker.status rec = failed
               ∧ ProcessTracker.completed_at rec = None
               ∧ ∃ e, r = Throw e)
            ∨ (history s' = history s ++ [(id, running)]
               ∧ ProcessTracker.status rec = running
               ∧ ProcessTracker.completed_at rec = None
               ∧ ∃ e, r = Throw e ∧ pfault env PSiteMarkFailed = Some e))).
Proof.
  intros Hseq Hfresh. cbv zeta. unfold runPrecomputation.
  destruct (pfault env PSiteConnect) as [e |] eqn:Hc.
  { left. split; [done |]. exists e. split; [done | by left]. }
  destruct (pfault env PSiteInsertTracker) as [e |] eqn:Hi.
  { left. unfold insertTracker. rewrite Hi. simpl. split; [done |].
    exists e. split; [done | by right]. }
  right. split; [done |]. split; [done |].
  rewrite (insertTracker_ok _ _ _ Hi).
  set (rec0 := ProcessTracker.mk shopId running 0 _ None _).
  destruct (precomputeSteps_row env shopId (tracker_seq s) (tracker s)
              (tracker_seq s + 1) (history s ++ [(tracker_seq s, running)]) rec0
              eq_refl eq_refl)
    as (rec' & Hshop & [(Hrun & Hst & Hca) | (e & Hrun & Hst & Hca)]);
    rewrite Hrun.
  - exists rec'. simpl. split; [done |]. split; [done |]. left.
    rewrite <- app_assoc. split; [done |]. split; [done |].
    split; [by rewrite Hca | done].
  - unfold precomputeCatch.
    destruct (Z.eqb_spec (tracker_seq s) 0) as [H0 | _]; [lia |].
    unfold markFailed.
    destruct (pfault env PSiteMarkFailed) as [e' |] eqn:Hm.
    + exists rec'. simpl. split; [done |]. split; [done |].
      right. right. split; [done |]. split; [done |]. split; [done |].
      by exists e'.
    + rewrite writeStatus_row. eexists. simpl. split; [reflexivity |].
      split; [done |]. right. left. rewrite <- app_assoc.
      split; [done |]. split; [done |]. split; [done | by exists e].
Qed.

Lemma tracker_row_lifecycle_witness :
  let s' := (runPrecomputation save_fault_env "s" true empty_tracker).1 in
  ∃ rec, tracker s' = <[1 := rec]> ∅
         ∧ history s' = [(1, running); (1, failed)]
         ∧ ProcessTracker.status rec = failed
         ∧ ProcessTracker.completed_at rec = None.
Proof.
  destruct (tracker_row_lifecycle save_fault_env "s" true empty_tracker)
    as [[Hsame _] | (_ & _ & rec & Ht & _ & [(Hh & _) | [(Hh & Hs & Hc & _) | (Hh & _)]])].
  - simpl. lia.
  - reflexivity.
  - exfalso. revert Hsame. vm_compute. discriminate.
  - exfalso. revert Hh. vm_compute. discriminate.
  - exists rec. repeat split; assumption.
  - exfalso. revert Hh. vm_compute. discriminate.
Defined.

(** C7, as the specification words it, fails when the INSERT of the tracker
    row raises: the run creates no row at all, and the error is thrown
    on. *)
Lemma no_tracker_row_when_insert_fails :
  let run := runPrecomputation insert_fault_env "s" true empty_tracker in
  ¬ creates_one_record empty_tracker run.1
  ∧ tracker run.1 = ∅
  ∧ run.2 = Throw (mkError "Connection terminated unexpectedly").
Proof.
  cbv zeta. split; [| split; reflexivity].
  intros (id & rec & _ & Heq).
  assert (Hlook : tracker (runPrecomputation insert_fault_env "s" true empty_tracker).1
                  !! id = Some rec).
  { rewrite Heq. apply lookup_insert_eq. }
  revert Hlook. vm_compute. discriminate.
Qed.

Example healthy_run_completes :
  let run := runPrecomputation healthy_env "s" true empty_tracker in
  run.2 = Ok ()
  ∧ history run.1 = [(1, running); (1, completed)]
  ∧ tracker run.1 !! 1
    = Some (ProcessTracker.mk "s" completed 1 1764410400 (Some 1764410400) 1764410400).
Proof. repeat split; vm_compute; reflexivity. Qed.

(** ** Part III: further properties of the code

    Properties read off the code itself, beyond those the specification
    states: of the request path ([getRecommendations] and the functions it
    calls, the handler), of the steps of a precomputation run
    ([loadProductCatalog], the embedding step of [embedding-service.ts],
    [saveProductsWithData], [computeProductScores],
    [buildTagGraphWithLLM], [saveTagGraphToDatabase]), and of how the steps
    fit together. *)

(** *** Candidate selector: which rows the LIMIT keeps *)




(** *** Tag graph lookup: what the related tags are *)

Lemma elem_of_fold_children (children : list string) (init : list string) (t : string) :
  t ∈ fold_left (fun s child => Js.set_add child s) children init
  ↔ t ∈ init ∨ t ∈ children.
Proof.
  pose proof (elem_of_fold_set_add (fun _ : string => true) id children init t) as H.
  unfold id in H. rewrite H. apply or_iff_compat_l. split.
  - by intros (w & Hw & _ & ->).
  - intros Ht. by exists t.
Qed.

Lemma NoDup_fold_children (children : list string) (init : list string) :
  NoDup init → NoDup (fold_left (fun s child => Js.set_add child s) children init).
Proof.
  apply (NoDup_fold_set_add (fun _ : string => true) id children init).
Qed.

(** The set read by the loop: without repetition, made of the start set and
    of children of the given tags' rows; when no query fails, of all of
    them. *)
Lemma relatedTagsLoop_set (st : Store) (tags : list string) (init set : list string) :
  relatedTagsLoop st tags init = Ok set →
  (NoDup init → NoDup set)
  ∧ (∀ t, t ∈ set ↔
          t ∈ init ∨ ∃ tag children, tag ∈ tags ∧ tag_graph st !! tag = Some children
                                     ∧ t ∈ children).
Proof.
  revert init. induction tags as [| tag tags IH]; intros init; simpl.
  - intros [= <-]. split; [done |]. intros t. split; [by left |].
    intros [H | (tag & ch & Hin & _)]; [done | by apply elem_of_nil in Hin].
  - unfold query. destruct (fault st (SiteTagLookup tag)); [discriminate |]. simpl.
    intros Hloop. apply IH in Hloop as [Hnd Hmem]. split.
    + intros Hinit. apply Hnd. destruct (tag_graph st !! tag); [| done].
      by apply NoDup_fold_children.
    + intros t. rewrite Hmem. destruct (tag_graph st !! tag) as [children |] eqn:Hg.
      * rewrite elem_of_fold_children. split.
        -- intros [[H | H] | (tag' & ch & Hin & Hl & Ht)].
           ++ by left.
           ++ right. exists tag, children. split; [left | done].
           ++ right. exists tag', ch. split; [by right | done].
        -- intros [H | (tag' & ch & Hin & Hl & Ht)]; [left; by left |].
           apply elem_of_cons in Hin as [-> | Hin].
           ++ left. right. congruence.
           ++ right. by exists tag', ch.
      * split.
        -- intros [H | (tag' & ch & Hin & Hl & Ht)]; [by left |].
           right. exists tag', ch. split; [by right | done].
        -- intros [H | (tag' & ch & Hin & Hl & Ht)]; [by left |].
           apply elem_of_cons in Hin as [-> | Hin]; [congruence |].
           right. by exists tag', ch.
Qed.

Lemma getRelatedTags_Ok (st : Store) (tags : list string)
  (recommendationType : RecommendationType) (maxTags : nat) (out : list string) :
  getRelatedTags st tags recommendationType maxTags = Ok out →
  out = [] ∨ ∃ set, relatedTagsLoop st tags [] = Ok set ∧ out = take maxTags set.
Proof.
  unfold getRelatedTags, query. destruct (fault st SiteTagConnect); [discriminate |].
  simpl. destruct (relatedTagsLoop st tags []) as [set |]; intros [= <-]; eauto.
Qed.

(** Whatever [getRelatedTags] returns has no repetition and at most [maxTags]
    tags, each of them a child stored in the tag graph under one of the
    given tags. *)
Theorem related_tags_come_from_graph (st : Store) (tags : list string)
  (recommendationType : RecommendationType) (maxTags : nat) (out : list string) :
  getRelatedTags st tags recommendationType maxTags = Ok out →
  NoDup out
  ∧ (length out ≤ maxTags)%nat
  ∧ ∀ t, t ∈ out →
         ∃ tag children, tag ∈ tags ∧ tag_graph st !! tag = Some children ∧ t ∈ children.
Proof.
  intros H. apply getRelatedTags_Ok in H as [-> | (set & Hloop & ->)].
  - split; [constructor |]. split; [simpl; lia |]. intros t Ht. by apply elem_of_nil in Ht.
  - apply relatedTagsLoop_set in Hloop as [Hnd Hmem]. split; [| split].
    + eapply sublist_NoDup; [apply Hnd; constructor | apply sublist_take].
    + rewrite length_take. lia.
    + intros t Ht. apply subseteq_take in Ht. apply Hmem in Ht as [Ht | Ht]; [| done].
      by apply elem_of_nil in Ht.
Qed.

Lemma related_tags_come_from_graph_witness :
  NoDup ["jeans"; "sneakers"]
  ∧ (length ["jeans"; "sneakers"] ≤ 50)%nat
  ∧ ∀ t, t ∈ ["jeans"; "sneakers"] →
         ∃ tag children, tag ∈ ["t-shirt"; "hat"]
                         ∧ tag_graph sample_store !! tag = Some children ∧ t ∈ children.
Proof.
  apply (related_tags_come_from_graph sample_store ["t-shirt"; "hat"] Crosssell 50).
  vm_compute. reflexivity.
Defined.

(** When no storage call of the lookup fails, a child stored under one of
    the given tags is returned unless the result is already [maxTags] long;
    a tag with no row in the graph adds nothing and is no error. *)
Theorem related_tags_complete_up_to_bound (st : Store) (tags : list string)
  (recommendationType : RecommendationType) (maxTags : nat)
  (tag child : string) (children : list string) :
  fault st SiteTagConnect = None →
  (∀ t, t ∈ tags → fault st (SiteTagLookup t) = None) →
  tag ∈ tags → tag_graph st !! tag = Some children → child ∈ children →
  ∃ out, getRelatedTags st tags recommendationType maxTags = Ok out
         ∧ (child ∈ out ∨ length out = maxTags).
Proof.
  intros Hc Hq Htag Hg Hchild.
  assert (Hloop : ∀ init, ∃ set, relatedTagsLoop st tags init = Ok set).
  { clear Htag. induction tags as [| t tags IH]; intros init; simpl; [by eexists |].
    unfold query. rewrite (Hq t) by left. simpl. apply IH.
    intros t' Ht'. apply Hq. by right. }
  destruct (Hloop []) as [set Hset].
  exists (take maxTags set). split.
  - unfold getRelatedTags, query. rewrite Hc. simpl. by rewrite Hset.
  - destruct (decide (length set ≤ maxTags)%nat) as [Hle | Hgt].
    + left. rewrite take_ge by done.
      apply relatedTagsLoop_set in Hset as [_ Hmem]. apply Hmem. right. by exists tag, children.
    + right. rewrite length_take. lia.
Qed.

Lemma related_tags_complete_up_to_bound_witness :
  ∃ out, getRelatedTags sample_store ["hat"; "t-shirt"] Crosssell 1 = Ok out
         ∧ ("sneakers" ∈ out ∨ length out = 1%nat).
Proof.
  apply (related_tags_complete_up_to_bound sample_store ["hat"; "t-shirt"] Crosssell 1
           "t-shirt" "sneakers" ["jeans"; "sneakers"]).
  - reflexivity.
  - reflexivity.
  - right. left.
  - vm_compute. reflexivity.
  - right. left.
Defined.

(** *** The request as a whole *)

Lemma elem_of_getProductsByIds (st : Store) (productIds : list Z)
  (sourceProducts : list DBProduct.t) (p : DBProduct.t) :
  getProductsByIds st productIds = Ok sourceProducts →
  p ∈ sourceProducts ↔ p ∈ products st ∧ DBProduct.id p ∈ productIds.
Proof.
  unfold getProductsByIds, query. destruct (fault st SiteProductsByIds); [discriminate |].
  intros [= <-]. rewrite list_elem_of_In, filter_In, <- list_elem_of_In.
  apply and_iff_compat_l. rewrite existsb_exists. split.
  - intros (i & Hi & Heq). apply Z.eqb_eq in Heq. subst i. by apply list_elem_of_In.
  - intros Hin. exists (DBProduct.id p). split; [by apply list_elem_of_In | apply Z.eqb_refl].
Qed.

Lemma sourceTagsOf_inv (sourceProducts : list DBProduct.t) (t : string) :
  t ∈ sourceTagsOf sourceProducts → ∃ p, p ∈ sourceProducts ∧ DBProduct.tags p = t.
Proof.
  unfold sourceTagsOf. intros H.
  apply (elem_of_fold_set_add (fun p => Js.truthy (Some (DBProduct.tags p))) DBProduct.tags)
    in H as [H | (p & Hp & _ & ->)]; [by apply elem_of_nil in H | by exists p].
Qed.

Lemma findCandidate_Some (candidates : list DBProduct.t) (productId : jsval)
  (candidate : DBProduct.t) :
  findCandidate candidates productId = Some candidate → candidate ∈ candidates.
Proof.
  unfold findCandidate. intros H. apply find_some in H as [H _]. by apply list_elem_of_In.
Qed.

(** An entry made for a variant of a row: the row's id, title, category and
    vendor, the variant's id, title and price. *)
Lemma entriesFor_variant (candidates : list DBProduct.t) (ids : list jsval)
  (s e p : Q) (x : ScoredProduct) :
  x ∈ entriesFor candidates ids s e p →
  ∃ c v, c ∈ candidates ∧ v ∈ DBProduct.variants c
         ∧ sp_id x = DBProduct.id c ∧ variant_id x = ProductVariant.id v
         ∧ sp_price x = ProductVariant.price v.
Proof.
  unfold entriesFor. intros H. apply list_elem_of_In, in_flat_map in H as (pid & _ & H).
  destruct (findCandidate candidates pid) as [c |] eqn:Hc; [| destruct H].
  apply list_elem_of_In in H. unfold expandVariants in H.
  apply list_elem_of_fmap in H as (v & -> & Hv).
  exists c, v. split; [by eapply findCandidate_Some | done].
Qed.

Lemma expandedPairs_variant (candidates : list DBProduct.t)
  (cv : DBProduct.t * ProductVariant.t) :
  cv ∈ expandedPairs candidates → cv.1 ∈ candidates ∧ cv.2 ∈ DBProduct.variants cv.1.
Proof.
  unfold expandedPairs. intros H. apply list_elem_of_In, in_flat_map in H as (c & Hc & H).
  apply list_elem_of_In in H, Hc. apply list_elem_of_fmap in H as (v & -> & Hv).
  split; [by apply subseteq_take in Hc | done].
Qed.

(** Whichever way the ranking goes, by the oracle's answer or by the
    fallback: each list has at most 10 entries, each made for a variant of
    a row of the pool. *)
Lemma ranking_entries (o : Oracle) (sourceProducts candidates : list DBProduct.t)
  (recommendationType : list RecommendationType) (r : Recommendations) :
  findNearestProductsWithLLM o sourceProducts candidates recommendationType = Ok r →
  (length (upsell r) ≤ 10)%nat ∧ (length (crosssell r) ≤ 10)%nat
  ∧ ∀ x, x ∈ upsell r ++ crosssell r →
         ∃ c v, c ∈ candidates ∧ v ∈ DBProduct.variants c
                ∧ sp_id x = DBProduct.id c ∧ variant_id x = ProductVariant.id v
                ∧ sp_price x = ProductVariant.price v.
Proof.
  unfold findNearestProductsWithLLM.
  destruct (rankWithOracle o sourceProducts candidates) as [ranked | e] eqn:Hrank.
  - intros [= <-]. rewrite rankWithOracle_ids in Hrank.
    destruct (oracleIds o) as [ids | e]; [| discriminate]. simpl in Hrank.
    injection Hrank as <-. simpl. rewrite !length_take. split; [lia |]. split; [lia |].
    intros x Hx. apply elem_of_app in Hx as [Hx | Hx];
      apply subseteq_take in Hx; by eapply entriesFor_variant.
  - intros [= <-].
    destruct (fallbackRanking_shape sourceProducts candidates) as (_ & -> & ->).
    rewrite !length_take. split; [lia |]. split; [lia |].
    intros x Hx. apply elem_of_app in Hx as [Hx | Hx];
      apply elem_of_fmap_filter in Hx as (cv & Hcv & _ & ->);
      apply expandedPairs_variant in Hcv as [Hc Hv]; by exists cv.1, cv.2.
Qed.

(** Every recommendation returned for a request, by the oracle's ranking or
    by the fallback, whatever the oracle answers: each list has at most 10
    entries; an entry is a variant of a stored product of the requested
    shop that is active, in stock and not among the requested products; and
    the tag of that product is stored in the tag graph as a child of the
    tag of one of the requested products. *)
Theorem recommendations_are_eligible (st : Store) (o : Oracle) (shopId : string)
  (productIds : list Z) (recommendationType : list RecommendationType)
  (r : Recommendations) :
  getRecommendations st o shopId productIds recommendationType = Ok r →
  (length (upsell r) ≤ 10)%nat ∧ (length (crosssell r) ≤ 10)%nat
  ∧ ∀ x, x ∈ upsell r ++ crosssell r →
      ∃ c v, c ∈ products st ∧ v ∈ DBProduct.variants c
        ∧ sp_id x = DBProduct.id c ∧ variant_id x = ProductVariant.id v
        ∧ sp_price x = ProductVariant.price v
        ∧ DBProduct.shop_id c = shopId ∧ DBProduct.status c = "active"
        ∧ 0 < DBProduct.stock c ∧ (DBProduct.id c ∉ productIds)
        ∧ ∃ p children, p ∈ products st ∧ DBProduct.id p ∈ productIds
            ∧ tag_graph st !! DBProduct.tags p = Some children
            ∧ DBProduct.tags c ∈ children.
Proof.
  unfold getRecommendations, query at 1. destruct (fault st SiteConnect); [discriminate |].
  simpl. destruct (getProductsByIds st productIds) as [src | e] eqn:Hsrc; [| discriminate].
  simpl. destruct (length src =? 0)%nat; [discriminate |].
  destruct (getRelatedTags st (sourceTagsOf src) Crosssell 50) as [related | e] eqn:Hrel;
    [| discriminate].
  simpl.
  destruct (getCandidateProductsByTags st shopId related productIds 100)
    as [cands | e] eqn:Hcand; [| discriminate].
  simpl. destruct (length cands =? 0)%nat.
  { intros [= <-]. simpl. split; [lia |]. split; [lia |].
    intros x Hx. by apply elem_of_nil in Hx. }
  intros Hr. apply ranking_entries in Hr as (Hu & Hc & Hentries).
  split; [done |]. split; [done |]. intros x Hx.
  destruct (Hentries x Hx) as (c & v & Hin & Hv & Hid & Hvid & Hprice).
  exists c, v.
  apply getCandidateProductsByTags_rows in Hcand. subst cands.
  apply subseteq_take, elem_of_orderByCompositeDesc, list_elem_of_In, filter_In in Hin
    as [Hin Hwhere].
  apply list_elem_of_In in Hin.
  apply candidateWhere_true in Hwhere as (Hshop & Hex & Hact & Hstock & Htag).
  repeat (split; [done |]).
  apply getRelatedTags_Ok in Hrel as [-> | (set & Hloop & ->)];
    [by apply elem_of_nil in Htag |].
  apply subseteq_take in Htag.
  apply relatedTagsLoop_set in Hloop as [_ Hmem].
  apply Hmem in Htag as [Htag | (tag & children & Htagin & Hg & Hchild)];
    [by apply elem_of_nil in Htag |].
  apply sourceTagsOf_inv in Htagin as (p & Hp & <-).
  apply (elem_of_getProductsByIds _ _ _ _ Hsrc) in Hp as [Hp Hpid].
  by exists p, children.
Qed.

Lemma recommendations_are_eligible_witness :
  ∃ r, getRecommendations sample_store unavailable_oracle "s" [1001] [Upsell; Crosssell]
       = Ok r
    ∧ crosssell r ≠ []
    ∧ ∀ x, x ∈ upsell r ++ crosssell r →
      ∃ c v, c ∈ products sample_store ∧ v ∈ DBProduct.variants c
        ∧ sp_id x = DBProduct.id c ∧ variant_id x = ProductVariant.id v
        ∧ sp_price x = ProductVariant.price v
        ∧ DBProduct.shop_id c = "s" ∧ DBProduct.status c = "active"
        ∧ 0 < DBProduct.stock c ∧ (DBProduct.id c ∉ [1001])
        ∧ ∃ p children, p ∈ products sample_store ∧ DBProduct.id p ∈ [1001]
            ∧ tag_graph sample_store !! DBProduct.tags p = Some children
            ∧ DBProduct.tags c ∈ children.
Proof.
  eexists. split; [vm_compute; reflexivity |]. split; [discriminate |].
  apply (recommendations_are_eligible sample_store unavailable_oracle "s" [1001]
           [Upsell; Crosssell]).
  vm_compute. reflexivity.
Defined.

(** *** The [/api/recommendations] handler, case by case *)





(** *** Scoring engine: what the two UPDATEs change and what they leave *)

Lemma computeProductScores_lookup (random : nat → Q) (shopId : string)
  (rows : list DBProduct.t) (i : nat) :
  computeProductScores random shopId rows !! i
  = (fun r0 =>
       if String.eqb (DBProduct.shop_id r0) shopId
       then DBProduct.with_purchase_score (random i * 0.5 + 0.5)%Q
              (DBProduct.with_merchant_score (merchantScoreCase (DBProduct.stock r0)) r0)
       else r0) <$> rows !! i.
Proof.
  unfold computeProductScores, updatePurchaseScores, updateMerchantScores.
  rewrite list_lookup_imap, list_lookup_fmap.
  destruct (rows !! i) as [r0 |]; [| done]. simpl.
  by destruct (String.eqb (DBProduct.shop_id r0) shopId) eqn:E; simpl; rewrite ?E.
Qed.

(** Scoring a shop keeps the table's rows in number and place; a row of
    another shop is left as it is, and in a row of the shop nothing but the
    two scores changes. *)
Theorem scoring_changes_scores_only (random : nat → Q) (shopId : string)
  (rows : list DBProduct.t) :
  length (computeProductScores random shopId rows) = length rows
  ∧ ∀ i r0, rows !! i = Some r0 →
      ∃ r, computeProductScores random shopId rows !! i = Some r
           ∧ (DBProduct.shop_id r0 ≠ shopId → r = r0)
           ∧ DBProduct.with_purchase_score (DBProduct.purchase_score r0)
               (DBProduct.with_merchant_score (DBProduct.merchant_score r0) r) = r0.
Proof.
  split.
  - unfold computeProductScores, updatePurchaseScores, updateMerchantScores.
    by rewrite length_imap, length_fmap.
  - intros i r0 Hi. rewrite computeProductScores_lookup, Hi. simpl.
    eexists. split; [done |].
    destruct (String.eqb (DBProduct.shop_id r0) shopId) eqn:E.
    + apply String.eqb_eq in E. split; [done |]. by destruct r0.
    + split; [done |]. by destruct r0.
Qed.

(** After scoring with draws of [0, 1), a row of the shop has the merchant
    score of its stock, a purchase score in [0.5, 1) and a composite score
    in [0.26, 1), at least 0.44 when it is in stock; neither score being 0,
    the fallback's [|| 0.5] defaults are not taken: its entries carry the
    row's own scores. *)
Theorem scored_rows_have_scores_in_range (random : nat → Q) (shopId : string)
  (rows : list DBProduct.t) (r : DBProduct.t) :
  (∀ i, 0 <= random i ∧ random i < 1)%Q →
  r ∈ computeProductScores random shopId rows →
  DBProduct.shop_id r = shopId →
  DBProduct.merchant_score r = merchantScoreCase (DBProduct.stock r)
  ∧ (0.5 <= DBProduct.purchase_score r ∧ DBProduct.purchase_score r < 1)%Q
  ∧ (0.26 <= compositeScore r ∧ compositeScore r < 1)%Q
  ∧ (0 < DBProduct.stock r → (0.44 <= compositeScore r)%Q)
  ∧ ∀ v, score (fallbackEntry r v) = DBProduct.merchant_score r
         ∧ sp_purchase_score (fallbackEntry r v) = DBProduct.purchase_score r.
Proof.
  intros Hrand Hin Hshop. apply list_elem_of_lookup in Hin as [i Hi].
  rewrite computeProductScores_lookup in Hi.
  destruct (rows !! i) as [r0 |] eqn:Hr0; [| discriminate]. simpl in Hi.
  injection Hi as Hi.
  destruct (String.eqb (DBProduct.shop_id r0) shopId) eqn:E.
  2: { subst r0. apply String.eqb_neq in E. done. }
  subst r. clear Hshop E Hr0. specialize (Hrand i).
  unfold compositeScore, fallbackEntry, orDefault. simpl.
  set (m := merchantScoreCase (DBProduct.stock r0)).
  set (p := (random i * 0.5 + 0.5)%Q).
  assert (Hm : (m == 1.0 ∨ m == 0.7 ∨ m == 0.4 ∨ m == 0.1)%Q
               ∧ (0 < DBProduct.stock r0 → (0.4 <= m)%Q)).
  { subst m. unfold merchantScoreCase.
    destruct (50 <? DBProduct.stock r0) eqn:E1; [split; [by left | intros _; lra] |].
    destruct (20 <? DBProduct.stock r0) eqn:E2; [split; [right; by left | intros _; lra] |].
    destruct (0 <? DBProduct.stock r0) eqn:E3.
    - split; [right; right; by left | intros _; lra].
    - split; [by repeat right | lia]. }
  destruct Hm as [Hm Hpos].
  assert (Hp : (0.5 <= p ∧ p < 1)%Q) by (subst p; split; lra).
  split; [done |]. split; [done |].
  split; [destruct Hm as [Hm | [Hm | [Hm | Hm]]]; split; lra |].
  split; [intros Hs; specialize (Hpos Hs); lra |].
  intros v.
  destruct (Qeq_bool m 0) eqn:Em.
  { apply Qeq_bool_eq in Em. destruct Hm as [Hm | [Hm | [Hm | Hm]]]; lra. }
  destruct (Qeq_bool p 0) eqn:Ep; [apply Qeq_bool_eq in Ep; lra | done].
Qed.

Lemma scored_rows_have_scores_in_range_witness :
  let r := DBProduct.with_purchase_score (0.25 * 0.5 + 0.5)%Q
             (DBProduct.with_merchant_score 0.7%Q jeans) in
  DBProduct.merchant_score r = merchantScoreCase (DBProduct.stock r)
  ∧ (0.5 <= DBProduct.purchase_score r ∧ DBProduct.purchase_score r < 1)%Q
  ∧ (0.26 <= compositeScore r ∧ compositeScore r < 1)%Q
  ∧ (0 < DBProduct.stock r → (0.44 <= compositeScore r)%Q)
  ∧ ∀ v, score (fallbackEntry r v) = DBProduct.merchant_score r
         ∧ sp_purchase_score (fallbackEntry r v) = DBProduct.purchase_score r.
Proof.
  apply (scored_rows_have_scores_in_range (fun _ => 0.25%Q) "s" [tee; jeans; foreign_tee]).
  - intros _. split; lra.
  - right. left.
  - reflexivity.
Defined.

(** *** Precomputation orchestrator: the run's outcome and its footprint *)

Lemma precomputeCatch_throws (env : PrecomputeEnv) (trackerId : option Z)
  (error : Error) (s : TrackerStore) :
  ∃ e, (precomputeCatch env trackerId error s).2 = Throw e.
Proof.
  unfold precomputeCatch, markFailed. destruct trackerId as [id |]; [| by eexists].
  destruct (id =? 0); [by eexists |].
  destruct (pfault env PSiteMarkFailed); by eexists.
Qed.

(** A run returns normally exactly when none of its statements raises, the
    marking of a failure apart (it is not reached); the run's row is then
    completed, stamped with the time of the completing UPDATE, and counts
    the products of the catalogue. *)
Theorem run_succeeds_iff_no_statement_raises (env : PrecomputeEnv) (shopId : string)
  (forceRebuild : bool) (s : TrackerStore) :
  let run := runPrecomputation env shopId forceRebuild s in
  (run.2 = Ok () ↔
   Forall (fun site => pfault env site = None)
     [PSiteConnect; PSiteInsertTracker; PSiteLoadCatalog; PSiteUpdateCount;
      PSiteEmbeddings; PSiteSaveProducts; PSiteComputeScores; PSiteDistinctTags;
      PSiteSaveTagGraph; PSiteMarkCompleted])
  ∧ (run.2 = Ok () →
     tracker run.1 !! tracker_seq s
     = Some (ProcessTracker.mk shopId completed (Z.of_nat (length (catalog env)))
               (clock env PSiteInsertTracker) (Some (clock env PSiteMarkCompleted))
               (clock env PSiteInsertTracker))).
Proof.
  cbv zeta. rewrite !Forall_cons. unfold runPrecomputation.
  destruct (pfault env PSiteConnect) as [e |] eqn:H0.
  { split; [split; [discriminate | by intros [[=] _]] | discriminate]. }
  destruct (pfault env PSiteInsertTracker) as [e |] eqn:H1.
  { unfold insertTracker. rewrite H1. simpl.
    split; [split; [discriminate | by intros (_ & [=] & _)] | discriminate]. }
  rewrite (insertTracker_ok _ _ _ H1).
  set (s1 := mkTrackerStore _ _ _).
  assert (Hthrow : ∀ e s2,
            (precomputeCatch env (Some (tracker_seq s)) e s2).2 ≠ Ok ()).
  { intros e s2. destruct (precomputeCatch_throws env (Some (tracker_seq s)) e s2)
      as [e' ->]. discriminate. }
  unfold precomputeSteps, mbind, Stmt_bind, step, updateProductCount, markCompleted.
  destruct (pfault env PSiteLoadCatalog) as [e |] eqn:H2.
  { split; [split; [by intros ?%Hthrow | by intros (_ & _ & [=] & _)]
           | by intros ?%Hthrow]. }
  destruct (pfault env PSiteUpdateCount) as [e |] eqn:H3.
  { split; [split; [by intros ?%Hthrow | by intros (_ & _ & _ & [=] & _)]
           | by intros ?%Hthrow]. }
  destruct (pfault env PSiteEmbeddings) as [e |] eqn:H4.
  { split; [split; [by intros ?%Hthrow | by intros (_ & _ & _ & _ & [=] & _)]
           | by intros ?%Hthrow]. }
  destruct (pfault env PSiteSaveProducts) as [e |] eqn:H5.
  { split; [split; [by intros ?%Hthrow | by intros (_ & _ & _ & _ & _ & [=] & _)]
           | by intros ?%Hthrow]. }
  destruct (pfault env PSiteComputeScores) as [e |] eqn:H6.
  { split; [split; [by intros ?%Hthrow | by intros (_ & _ & _ & _ & _ & _ & [=] & _)]
           | by intros ?%Hthrow]. }
  destruct (pfault env PSiteDistinctTags) as [e |] eqn:H7.
  { split; [split; [by intros ?%Hthrow
                   | by intros (_ & _ & _ & _ & _ & _ & _ & [=] & _)]
           | by intros ?%Hthrow]. }
  destruct (pfault env PSiteSaveTagGraph) as [e |] eqn:H8.
  { split; [split; [by intros ?%Hthrow
                   | by intros (_ & _ & _ & _ & _ & _ & _ & _ & [=] & _)]
           | by intros ?%Hthrow]. }
  destruct (pfault env PSiteMarkCompleted) as [e |] eqn:H9.
  { split; [split; [by intros ?%Hthrow
                   | by intros (_ & _ & _ & _ & _ & _ & _ & _ & _ & [=] & _)]
           | by intros ?%Hthrow]. }
  split; [split; [intros _; by repeat split | done] |].
  intros _. subst s1. cbn [tracker tracker_seq history fst snd].
  rewrite alter_insert_eq. unfold writeStatus. cbn [tracker tracker_seq history fst].
  by rewrite alter_insert_eq, lookup_insert_eq.
Qed.

Lemma run_succeeds_iff_no_statement_raises_witness :
  tracker (runPrecomputation healthy_env "s" true empty_tracker).1 !! 1
  = Some (ProcessTracker.mk "s" completed (Z.of_nat (length (catalog healthy_env)))
            (clock healthy_env PSiteInsertTracker)
            (Some (clock healthy_env PSiteMarkCompleted))
            (clock healthy_env PSiteInsertTracker)).
Proof.
  apply (proj2 (run_succeeds_iff_no_statement_raises healthy_env "s" true empty_tracker)).
  reflexivity.
Defined.

(** A run writes no row of the tracker table but the one it creates: every
    row under another id is after the run what it was before, whether the
    run completes or fails; the sequence moves on by one at most, no status
    already written is taken back, and the ids of the rows stay below the
    sequence when they were. *)
Theorem run_leaves_other_rows (env : PrecomputeEnv) (shopId : string)
  (forceRebuild : bool) (s : TrackerStore) :
  let s' := (runPrecomputation env shopId forceRebuild s).1 in
  (∀ id, id ≠ tracker_seq s → tracker s' !! id = tracker s !! id)
  ∧ (tracker_seq s' = tracker_seq s ∨ tracker_seq s' = tracker_seq s + 1)
  ∧ history s `prefix_of` history s'
  ∧ ((∀ id, is_Some (tracker s !! id) → id < tracker_seq s) →
     ∀ id, is_Some (tracker s' !! id) → id < tracker_seq s').
Proof.
  cbv zeta. unfold runPrecomputation.
  destruct (pfault env PSiteConnect) as [e |].
  { simpl. split; [done |]. split; [by left |]. split; done. }
  destruct (pfault env PSiteInsertTracker) as [e |] eqn:Hi.
  { unfold insertTracker. rewrite Hi. simpl. split; [done |]. split; [by left |].
    split; done. }
  rewrite (insertTracker_ok _ _ _ Hi).
  set (rec0 := ProcessTracker.mk shopId running 0 _ None _).
  assert (Hgoal : ∀ rec' h',
    let s' := mkTrackerStore (<[tracker_seq s := rec']> (tracker s)) (tracker_seq s + 1)
                ((history s ++ [(tracker_seq s, running)]) ++ h') in
    (∀ id, id ≠ tracker_seq s → tracker s' !! id = tracker s !! id)
    ∧ (tracker_seq s' = tracker_seq s ∨ tracker_seq s' = tracker_seq s + 1)
    ∧ history s `prefix_of` history s'
    ∧ ((∀ id, is_Some (tracker s !! id) → id < tracker_seq s) →
       ∀ id, is_Some (tracker s' !! id) → id < tracker_seq s')).
  { intros rec' h'. simpl. split; [| split; [by right | split]].
    - intros id Hid. by rewrite lookup_insert_ne.
    - rewrite <- app_assoc. by eexists.
    - intros Hinv id Hsome. destruct (decide (id = tracker_seq s)) as [-> | Hne]; [lia |].
      rewrite lookup_insert_ne in Hsome by done. apply Hinv in Hsome. lia. }
  destruct (precomputeSteps_row env shopId (tracker_seq s) (tracker s)
              (tracker_seq s + 1) (history s ++ [(tracker_seq s, running)]) rec0
              eq_refl eq_refl)
    as (rec' & _ & [(Hrun & _) | (e & Hrun & _)]); rewrite Hrun.
  - apply (Hgoal rec' [(tracker_seq s, completed)]).
  - unfold precomputeCatch. destruct (tracker_seq s =? 0).
    { rewrite <- (app_nil_r (history s ++ _)). apply Hgoal. }
    unfold markFailed. destruct (pfault env PSiteMarkFailed).
    + rewrite <- (app_nil_r (history s ++ _)). apply Hgoal.
    + rewrite writeStatus_row. apply Hgoal.
Qed.

(** *** Finding the candidate an oracle id names *)




Lemma digitsValue_digits (s : string) (acc : Z) :
  allDigits s = true → ∃ n, digitsValue 10 s acc = Some n.
Proof.
  revert acc. induction s as [| c s IH]; intros acc; simpl; [by eexists |].
  destruct (digitOf 10 c) as [d |]; [| discriminate]. apply IH.
Qed.





(** *** Saving the tag graph and reading it back *)

Lemma isValidChild_Some (c : jsval) (s : string) :
  isValidChild c = Some s → c = JStr s ∧ Js.trim s ≠ "".
Proof.
  destruct c as [| | b | q | s' | items | fields]; try discriminate. simpl.
  destruct (negb (String.eqb s' "")); [| discriminate]. simpl.
  destruct (Js.trim s') eqn:Ht; simpl; [discriminate |].
  intros [= <-]. by rewrite Ht.
Qed.

(** A save changes the row of a name only by an entry that prepares to the
    name and has valid children. *)
Lemma saveTagGraph_frame (d : Driver) (graphFault : string → option Error)
  (tagGraph : list (jsval * jsval)) (graph : gmap string (list string)) (name : string) :
  (∀ k items, (k, JArr items) ∈ tagGraph → prepareValue d k = Some name →
              omap isValidChild items = []) →
  (saveTagGraphToDatabase d graphFault tagGraph graph).1 !! name = graph !! name.
Proof.
  revert graph. induction tagGraph as [| [k c] rest IH]; intros graph Hno; [done |].
  assert (Hrest : ∀ k' items, (k', JArr items) ∈ rest → prepareValue d k' = Some name →
                              omap isValidChild items = [])
    by (intros k' items Hin; apply Hno; by right).
  cbn [saveTagGraphToDatabase].
  destruct c as [| | b | q | s | items | fields]; try done. cbn [validChildrenOf].
  destruct (omap isValidChild items) as [| v vs] eqn:Hvalid; [by apply IH |].
  destruct (prepareValue d k) as [name' |] eqn:Hk; [| done].
  destruct (graphFault name'); [done |].
  rewrite IH by done.
  destruct (decide (name' = name)) as [-> | Hne]; [| by rewrite lookup_insert_ne].
  specialize (Hno k items ltac:(left) Hk). congruence.
Qed.

(** A tag for which the graph to save holds no valid children keeps the
    row it has, whether the save ends normally or throws: the children an
    earlier run stored stay in place. *)
Theorem tag_without_valid_children_keeps_row (d : Driver)
  (graphFault : string → option Error) (tagGraph : list (jsval * jsval))
  (graph : gmap string (list string)) (name : string) :
  (∀ k items, (k, JArr items) ∈ tagGraph → prepareValue d k = Some name →
              Forall (fun c => isValidChild c = None) items) →
  (saveTagGraphToDatabase d graphFault tagGraph graph).1 !! name = graph !! name.
Proof.
  intros Hno. apply saveTagGraph_frame. intros k items Hin Hk.
  specialize (Hno k items Hin Hk). clear Hin.
  induction Hno as [| c items Hc _ IH]; [done |]. cbn [omap list_omap]. by rewrite Hc.
Qed.

Lemma tag_without_valid_children_keeps_row_witness :
  (saveTagGraphToDatabase sample_driver (fun _ => None) sample_tag_graph
     {[ "hoodie" := ["joggers"] ]}).1 !! "hoodie"
  = Some ["joggers"].
Proof.
  rewrite (tag_without_valid_children_keeps_row sample_driver (fun _ => None)
             sample_tag_graph {[ "hoodie" := ["joggers"] ]} "hoodie"); [reflexivity |].
  intros k items Hin Hk. apply list_elem_of_In in Hin.
  destruct Hin as [[= <- <-] | [[= <- <-] | []]]; [constructor | discriminate Hk].
Defined.

Lemma saveTagGraph_app (d : Driver) (graphFault : string → option Error)
  (before after : list (jsval * jsval)) (graph graph' : gmap string (list string)) :
  saveTagGraphToDatabase d graphFault (before ++ after) graph = (graph', Ok ()) →
  ∃ mid, saveTagGraphToDatabase d graphFault before graph = (mid, Ok ())
         ∧ saveTagGraphToDatabase d graphFault after mid = (graph', Ok ()).
Proof.
  revert graph. induction before as [| [k c] rest IH]; intros graph; [by eexists |].
  cbn [app saveTagGraphToDatabase].
  destruct (validChildrenOf c) as [[| v vs] | e]; [apply IH | | discriminate].
  destruct (prepareValue d k) as [name |]; [| discriminate].
  destruct (graphFault name); [discriminate |]. apply IH.
Qed.

Lemma isValidChild_JStr (s : string) : Js.trim s ≠ "" → isValidChild (JStr s) = Some s.
Proof.
  intros Ht. simpl. destruct (String.eqb_spec s "") as [-> | _]; [done |]. simpl.
  by destruct (Js.trim s).
Qed.

(** What a save stores is what the lookup of the request path returns.
    After a save that ends normally, the row of a tag given with children
    of which some are valid (and with no later entry under the same name)
    holds exactly the children that are non-blank strings, in their order;
    and [getRelatedTags] for that tag returns them, each once, up to
    [maxTags]. *)
Theorem saved_children_are_looked_up (d : Driver) (graphFault : string → option Error)
  (before after : list (jsval * jsval)) (name : string) (items : list jsval)
  (graph graph' : gmap string (list string)) (rows : list DBProduct.t)
  (recommendationType : RecommendationType) (maxTags : nat) :
  saveTagGraphToDatabase d graphFault (before ++ (JStr name, JArr items) :: after) graph
  = (graph', Ok ()) →
  omap isValidChild items ≠ [] →
  (∀ k c, (k, c) ∈ after → prepareValue d k ≠ Some name) →
  graph' !! name = Some (omap isValidChild items)
  ∧ (∀ c, c ∈ omap isValidChild items ↔ JStr c ∈ items ∧ Js.trim c ≠ "")
  ∧ getRelatedTags (mkStore rows graph' (fun _ => None)) [name] recommendationType maxTags
    = Ok (take maxTags
            (fold_left (fun s c => Js.set_add c s) (omap isValidChild items) [])).
Proof.
  intros Hsave Hvalid Hafter.
  assert (Hrow : graph' !! name = Some (omap isValidChild items)).
  { apply saveTagGraph_app in Hsave as (mid & _ & Hsave).
    cbn [saveTagGraphToDatabase validChildrenOf prepareValue] in Hsave.
    destruct (omap isValidChild items) as [| v vs] eqn:Hv; [done |].
    destruct (graphFault name); [discriminate |].
    pose proof (saveTagGraph_frame d graphFault after (<[name := v :: vs]> mid) name) as Hf.
    rewrite Hsave, lookup_insert_eq in Hf. apply Hf.
    intros k items' Hin Hk. by destruct (Hafter k (JArr items') Hin). }
  split; [done |]. split.
  - intros c. rewrite list_elem_of_omap. split.
    + intros (x & Hx & Hc). apply isValidChild_Some in Hc as [-> Ht]. done.
    + intros [Hin Ht]. exists (JStr c). split; [done | by apply isValidChild_JStr].
  - unfold getRelatedTags, query. simpl. by rewrite Hrow.
Qed.

Lemma saved_children_are_looked_up_witness :
  ∃ graph',
    saveTagGraphToDatabase sample_driver (fun _ => None) sample_tag_graph ∅ = (graph', Ok ())
    ∧ graph' !! "t-shirt" = Some ["jeans"; "sneakers"; "jeans"]
    ∧ getRelatedTags (mkStore [] graph' (fun _ => None)) ["t-shirt"] Crosssell 50
      = Ok ["jeans"; "sneakers"].
Proof.
  eexists. split; [reflexivity |].
  destruct (saved_children_are_looked_up sample_driver (fun _ => None)
              [(JStr "hoodie", JArr [])] [] "t-shirt" tee_children ∅ _ []
              Crosssell 50 eq_refl) as (Hrow & _ & Hlook).
  - discriminate.
  - intros k c Hin. by apply elem_of_nil in Hin.
  - split; [exact Hrow | exact Hlook].
Defined.

(** When the oracle call for the tag graph fails (no key in the
    environment, the request rejected, a status that is not 2xx, a body
    that is no JSON) the graph built is empty, saving it writes nothing and
    ends normally: the run goes on with the tag graph of the run before. *)
Theorem oracle_outage_keeps_tag_graph (o : Oracle) (allTags : list string)
  (d : Driver) (graphFault : string → option Error)
  (graph : gmap string (list string)) :
  (default "" (GRID_AI_API_KEY (env o)) = ""
   ∨ (∃ e, fetch o GRID_AI_URL (default "" (GRID_AI_API_KEY (env o))) = FetchRejects e)
   ∨ (∃ status errorBody,
        fetch o GRID_AI_URL (default "" (GRID_AI_API_KEY (env o)))
        = FetchResponds false status errorBody)
   ∨ (∃ status bodyText,
        fetch o GRID_AI_URL (default "" (GRID_AI_API_KEY (env o)))
        = FetchResponds true status bodyText
        ∧ JSON_parse o bodyText = None)) →
  buildTagGraphWithLLM o allTags = []
  ∧ saveTagGraphToDatabase d graphFault (buildTagGraphWithLLM o allTags) graph
    = (graph, Ok ()).
Proof.
  intros Hfail.
  assert (Hbuild : buildTagGraphWithLLM o allTags = []).
  { unfold buildTagGraphWithLLM, gridAIContent, getGridAIKey.
    destruct Hfail as [Hkey | [(e & Hf) | [(st & eb & Hf) | (st & bt & Hf & Hp)]]].
    - by rewrite Hkey.
    - destruct (negb (Js.truthy (Some (default "" (GRID_AI_API_KEY (env o)))))); [done |].
      simpl. by rewrite Hf.
    - destruct (negb (Js.truthy (Some (default "" (GRID_AI_API_KEY (env o)))))); [done |].
      simpl. by rewrite Hf.
    - destruct (negb (Js.truthy (Some (default "" (GRID_AI_API_KEY (env o)))))); [done |].
      simpl. rewrite Hf. simpl. unfold parseJSON. by rewrite Hp. }
  by rewrite Hbuild.
Qed.

Lemma oracle_outage_keeps_tag_graph_witness :
  buildTagGraphWithLLM unavailable_oracle ["t-shirt"; "jeans"] = []
  ∧ saveTagGraphToDatabase sample_driver (fun _ => None)
      (buildTagGraphWithLLM unavailable_oracle ["t-shirt"; "jeans"])
      (tag_graph sample_store)
    = (tag_graph sample_store, Ok ()).
Proof.
  apply (oracle_outage_keeps_tag_graph unavailable_oracle ["t-shirt"; "jeans"]
           sample_driver (fun _ => None) (tag_graph sample_store)).
  right. right. left. by exists 503, "Service Unavailable".
Defined.

(** *** Saving the product rows *)

Lemma upsertProduct_ids (row : DBProduct.t) (rows : list DBProduct.t) :
  DBProduct.id <$> upsertProduct row rows
  = if existsb (fun r => DBProduct.id r =? DBProduct.id row) rows
    then DBProduct.id <$> rows
    else (DBProduct.id <$> rows) ++ [DBProduct.id row].
Proof.
  unfold upsertProduct. destruct (existsb _ rows); [| by rewrite fmap_app].
  rewrite <- list_fmap_compose. apply list_fmap_ext. intros _ r _. simpl.
  destruct (Z.eqb_spec (DBProduct.id r) (DBProduct.id row)); [done | done].
Qed.

Lemma existsb_id (i : Z) (rows : list DBProduct.t) :
  existsb (fun r => DBProduct.id r =? i) rows = true ↔ i ∈ DBProduct.id <$> rows.
Proof.
  rewrite existsb_exists, list_elem_of_fmap. split.
  - intros (r & Hr & Heq). apply Z.eqb_eq in Heq. exists r.
    split; [done | by apply list_elem_of_In].
  - intros (r & -> & Hr). exists r. split; [by apply list_elem_of_In | apply Z.eqb_refl].
Qed.

Lemma upsertProduct_NoDup (row : DBProduct.t) (rows : list DBProduct.t) :
  NoDup (DBProduct.id <$> rows) → NoDup (DBProduct.id <$> upsertProduct row rows).
Proof.
  intros Hnd. rewrite upsertProduct_ids.
  destruct (existsb _ rows) eqn:E; [done |].
  apply NoDup_app. split; [done |]. split; [| apply NoDup_singleton].
  intros i Hi Hrow. apply list_elem_of_singleton in Hrow. subst i.
  apply existsb_id in Hi. congruence.
Qed.

Lemma upsertProduct_other (row r : DBProduct.t) (rows : list DBProduct.t) :
  DBProduct.id r ≠ DBProduct.id row → r ∈ upsertProduct row rows ↔ r ∈ rows.
Proof.
  intros Hne. unfold upsertProduct. destruct (existsb _ rows).
  - rewrite list_elem_of_fmap. split.
    + intros (r0 & -> & Hr0).
      destruct (Z.eqb_spec (DBProduct.id r0) (DBProduct.id row)); [by destruct Hne | done].
    + intros Hr. exists r. split; [| done].
      destruct (Z.eqb_spec (DBProduct.id r) (DBProduct.id row)); done.
  - rewrite elem_of_app, list_elem_of_singleton. split; [| by left].
    intros [Hr | ->]; done.
Qed.

(** After an upsert the table has a row with the new row's columns; its
    scores are those of the row that had the id, when there was one. *)
Lemma upsertProduct_row (row : DBProduct.t) (rows : list DBProduct.t) :
  ∃ r, r ∈ upsertProduct row rows
       ∧ DBProduct.with_purchase_score (DBProduct.purchase_score r)
           (DBProduct.with_merchant_score (DBProduct.merchant_score r) row) = r
       ∧ (∀ r0, r0 ∈ rows → DBProduct.id r0 = DBProduct.id row →
                NoDup (DBProduct.id <$> rows) →
                DBProduct.merchant_score r = DBProduct.merchant_score r0
                ∧ DBProduct.purchase_score r = DBProduct.purchase_score r0)
       ∧ ((∀ r0, r0 ∈ rows → DBProduct.id r0 ≠ DBProduct.id row) → r = row).
Proof.
  unfold upsertProduct. destruct (existsb _ rows) eqn:E.
  - apply existsb_exists in E as (r1 & Hr1 & Heq). apply list_elem_of_In in Hr1.
    exists (DBProduct.with_purchase_score (DBProduct.purchase_score r1)
              (DBProduct.with_merchant_score (DBProduct.merchant_score r1) row)).
    split; [| split; [done | split]].
    + apply list_elem_of_fmap. exists r1. by rewrite Heq.
    + intros r0 Hr0 Hid Hnd. apply Z.eqb_eq in Heq.
      assert (r1 = r0) as ->; [| done].
      apply (NoDup_fmap_eq DBProduct.id rows r1 r0 Hnd Hr1 Hr0). congruence.
    + intros Hnone. apply Z.eqb_eq in Heq. by destruct (Hnone r1 Hr1).
  - exists row. split; [apply elem_of_app; right; left |]. split; [by destruct row |].
    split; [| done].
    intros r0 Hr0 Hid _. exfalso.
    assert (Hex : existsb (fun r => DBProduct.id r =? DBProduct.id row) rows = true);
      [| congruence].
    apply existsb_exists. exists r0. split; [by apply list_elem_of_In | by apply Z.eqb_eq].
Qed.

(** A save touches the rows of the products it is given, no other. *)
Lemma saveProducts_other (d : Driver) (saveFault : Z → option Error) (shopId : string)
  (products : list CatalogProduct.t) (productData : gmap Z jsval)
  (rows : list DBProduct.t) (r : DBProduct.t) :
  (∀ p, p ∈ products → CatalogProduct.id p ≠ DBProduct.id r) →
  r ∈ (saveProductsWithData d saveFault shopId products productData rows).1 ↔ r ∈ rows.
Proof.
  revert rows. induction products as [| p rest IH]; intros rows Hno; [done |].
  assert (Hrest : ∀ p', p' ∈ rest → CatalogProduct.id p' ≠ DBProduct.id r)
    by (intros p' Hp'; apply Hno; by right).
  cbn [saveProductsWithData].
  destruct (productData !! CatalogProduct.id p) as [tags |]; [| by apply IH].
  destruct (index0 tags) as [first | e]; [| done].
  destruct (saveFault (CatalogProduct.id p)); [done |].
  rewrite IH by done. apply upsertProduct_other. simpl.
  intros Heq. by apply (Hno p ltac:(left)).
Qed.

Lemma saveProducts_NoDup (d : Driver) (saveFault : Z → option Error) (shopId : string)
  (products : list CatalogProduct.t) (productData : gmap Z jsval)
  (rows : list DBProduct.t) :
  NoDup (DBProduct.id <$> rows) →
  NoDup (DBProduct.id <$>
           (saveProductsWithData d saveFault shopId products productData rows).1).
Proof.
  revert rows. induction products as [| p rest IH]; intros rows Hnd; [done |].
  cbn [saveProductsWithData].
  destruct (productData !! CatalogProduct.id p) as [tags |]; [| by apply IH].
  destruct (index0 tags) as [first | e]; [| exact Hnd].
  destruct (saveFault (CatalogProduct.id p)); [exact Hnd |].
  apply IH. by apply upsertProduct_NoDup.
Qed.

Lemma saveProducts_shop (d : Driver) (saveFault : Z → option Error) (shopId : string)
  (products : list CatalogProduct.t) (productData : gmap Z jsval)
  (rows : list DBProduct.t) (r : DBProduct.t) :
  r ∈ (saveProductsWithData d saveFault shopId products productData rows).1 →
  r ∈ rows ∨ DBProduct.shop_id r = shopId.
Proof.
  revert rows. induction products as [| p rest IH]; intros rows; [by left |].
  cbn [saveProductsWithData].
  destruct (productData !! CatalogProduct.id p) as [tags |]; [| by apply IH].
  destruct (index0 tags) as [first | e]; [| by left].
  destruct (saveFault (CatalogProduct.id p)); [by left |].
  intros Hr. apply IH in Hr as [Hr | Hr]; [| by right].
  unfold upsertProduct in Hr. destruct (existsb _ rows).
  - apply list_elem_of_fmap in Hr as (r0 & -> & Hr0).
    destruct (DBProduct.id r0 =? _); [by right | by left].
  - apply elem_of_app in Hr as [Hr | Hr]; [by left |].
    apply list_elem_of_singleton in Hr. subst r. by right.
Qed.

(** Whether the save ends normally or throws midway, the rows written
    before an error staying written: the ids of the table stay pairwise
    distinct; a row whose id is that of no product of the catalogue is
    neither changed nor removed, and no such row appears; and every row the
    save wrote belongs to the shop the run is for, whichever shop had the
    id before. *)
Theorem save_keeps_table_consistent (d : Driver) (saveFault : Z → option Error)
  (shopId : string) (products : list CatalogProduct.t) (productData : gmap Z jsval)
  (rows : list DBProduct.t) :
  let rows' := (saveProductsWithData d saveFault shopId products productData rows).1 in
  (NoDup (DBProduct.id <$> rows) → NoDup (DBProduct.id <$> rows'))
  ∧ (∀ r, (∀ p, p ∈ products → CatalogProduct.id p ≠ DBProduct.id r) →
          r ∈ rows' ↔ r ∈ rows)
  ∧ (∀ r, r ∈ rows' → r ∈ rows ∨ DBProduct.shop_id r = shopId).
Proof.
  cbv zeta. split; [apply saveProducts_NoDup |].
  split; [intros r; apply saveProducts_other | intros r; apply saveProducts_shop].
Qed.

Lemma save_keeps_table_consistent_witness :
  let rows' := (saveProductsWithData sample_driver (fun _ => None) "s"
                  [spaced_category_product] {[ 7 := JArr [JStr "tee"] ]}
                  [foreign_tee]).1 in
  NoDup (DBProduct.id <$> rows')
  ∧ (foreign_tee ∈ rows' ↔ foreign_tee ∈ [foreign_tee]).
Proof.
  destruct (save_keeps_table_consistent sample_driver (fun _ => None) "s"
              [spaced_category_product] {[ 7 := JArr [JStr "tee"] ]} [foreign_tee])
    as (Hnd & Hother & _).
  split.
  - apply Hnd. apply NoDup_singleton.
  - apply Hother. intros p Hp. apply list_elem_of_singleton in Hp. subst p. discriminate.
Defined.

(** The row a save leaves for a product that has data. *)
Lemma saveProducts_stored (d : Driver) (saveFault : Z → option Error)
  (shopId : string) (products : list CatalogProduct.t) (productData : gmap Z jsval)
  (rows rows' : list DBProduct.t) (p : CatalogProduct.t) (tags : jsval) :
  NoDup (DBProduct.id <$> rows) →
  NoDup (CatalogProduct.id <$> products) →
  saveProductsWithData d saveFault shopId products productData rows = (rows', Ok ()) →
  p ∈ products → productData !! CatalogProduct.id p = Some tags →
  ∃ first r,
    index0 tags = Ok first
    ∧ r ∈ rows'
    ∧ DBProduct.with_purchase_score (DBProduct.purchase_score r)
        (DBProduct.with_merchant_score (DBProduct.merchant_score r)
           (productRow d shopId p (if truthyValue first then first else JStr "product")))
      = r
    ∧ (∀ r0, r0 ∈ rows → DBProduct.id r0 = CatalogProduct.id p →
         DBProduct.merchant_score r = DBProduct.merchant_score r0
         ∧ DBProduct.purchase_score r = DBProduct.purchase_score r0)
    ∧ ((∀ r0, r0 ∈ rows → DBProduct.id r0 ≠ CatalogProduct.id p) →
         DBProduct.merchant_score r = scoreOrZero (CatalogProduct.merchant_score p)
         ∧ DBProduct.purchase_score r = scoreOrZero (CatalogProduct.purchase_score p)).
Proof.
  intros Hnd Hids Hsave Hp Hdata. revert rows Hnd Hsave.
  induction products as [| q rest IH]; intros rows Hnd Hsave;
    [by apply elem_of_nil in Hp |].
  rewrite fmap_cons in Hids. apply NoDup_cons in Hids as [Hq Hrest].
  cbn [saveProductsWithData] in Hsave.
  apply elem_of_cons in Hp as [-> | Hp].
  - rewrite Hdata in Hsave.
    destruct (index0 tags) as [first | e] eqn:Hfirst; [| discriminate].
    destruct (saveFault (CatalogProduct.id q)); [discriminate |].
    set (row := productRow d shopId q _) in Hsave.
    destruct (upsertProduct_row row rows) as (r & Hr & Heq & Hold & Hnew).
    exists first, r. split; [done |].
    assert (Hid : DBProduct.id r = CatalogProduct.id q) by (by rewrite <- Heq).
    split.
    { pose proof (saveProducts_other d saveFault shopId rest productData
                    (upsertProduct row rows) r) as Hother.
      rewrite Hsave in Hother. apply Hother; [| done].
      intros p' Hp' Heq'. apply Hq. rewrite <- Hid, <- Heq'.
      apply list_elem_of_fmap. by exists p'. }
    split; [done |].
    split; [intros r0 Hr0 Hid0; by apply Hold |].
    intros Hnone. by rewrite (Hnew Hnone).
  - assert (Hne : CatalogProduct.id q ≠ CatalogProduct.id p).
    { intros Heq. apply Hq. rewrite Heq. apply list_elem_of_fmap. by exists p. }
    destruct (productData !! CatalogProduct.id q) as [qtags |]; [| by apply IH].
    destruct (index0 qtags) as [qfirst | e]; [| discriminate].
    destruct (saveFault (CatalogProduct.id q)); [discriminate |].
    set (row := productRow d shopId q _) in Hsave.
    destruct (IH Hrest Hp (upsertProduct row rows) (upsertProduct_NoDup row rows Hnd) Hsave)
      as (first & r & Hfirst & Hr & Heq & Hold & Hnew).
    exists first, r. repeat (split; [done |]). split.
    + intros r0 Hr0 Hid0. apply Hold; [| done].
      apply upsertProduct_other; [| done]. simpl. congruence.
    + intros Hnone. apply Hnew. intros r0 Hr0 Hid0.
      apply upsertProduct_other in Hr0; [by apply (Hnone r0) |]. simpl. congruence.
Qed.

(** After a save that ends normally, of a catalogue whose ids are pairwise
    distinct, every product that has data is a row of the table: the row
    has the product's columns, the shop of the run, and as its tag the
    first of the product's tags ([product] when there is no first tag, or
    an empty one).  Its two scores are those of the row that had the id
    before the save; a new row gets the product's scores, 0 when absent. *)
Theorem saved_product_is_stored (d : Driver) (saveFault : Z → option Error)
  (shopId : string) (products : list CatalogProduct.t) (productData : gmap Z jsval)
  (rows rows' : list DBProduct.t) (p : CatalogProduct.t) (tags : jsval) :
  NoDup (DBProduct.id <$> rows) →
  NoDup (CatalogProduct.id <$> products) →
  saveProductsWithData d saveFault shopId products productData rows = (rows', Ok ()) →
  p ∈ products → productData !! CatalogProduct.id p = Some tags →
  ∃ first r,
    index0 tags = Ok first
    ∧ r ∈ rows'
    ∧ DBProduct.with_purchase_score (DBProduct.purchase_score r)
        (DBProduct.with_merchant_score (DBProduct.merchant_score r)
           (productRow d shopId p (if truthyValue first then first else JStr "product")))
      = r
    ∧ (truthyValue first = false → DBProduct.tags r = "product")
    ∧ (∀ s, first = JStr s → s ≠ "" → DBProduct.tags r = s)
    ∧ (∀ r0, r0 ∈ rows → DBProduct.id r0 = CatalogProduct.id p →
         DBProduct.merchant_score r = DBProduct.merchant_score r0
         ∧ DBProduct.purchase_score r = DBProduct.purchase_score r0)
    ∧ ((∀ r0, r0 ∈ rows → DBProduct.id r0 ≠ CatalogProduct.id p) →
         DBProduct.merchant_score r = scoreOrZero (CatalogProduct.merchant_score p)
         ∧ DBProduct.purchase_score r = scoreOrZero (CatalogProduct.purchase_score p)).
Proof.
  intros Hnd Hids Hsave Hp Hdata.
  destruct (saveProducts_stored d saveFault shopId products productData rows rows' p tags
              Hnd Hids Hsave Hp Hdata) as (first & r & Hfirst & Hr & Heq & Hold & Hnew).
  exists first, r. repeat (split; [done |]).
  assert (Htag : DBProduct.tags r
                 = default "" (prepareValue d (if truthyValue first then first
                                               else JStr "product")))
    by (by rewrite <- Heq).
  split; [intros Hf; by rewrite Htag, Hf |].
  split; [| done].
  intros s -> Hs. rewrite Htag. simpl.
  by destruct (String.eqb_spec s "") as [-> | _].
Qed.

Lemma saved_product_is_stored_witness :
  ∃ rows' r,
    saveProductsWithData sample_driver (fun _ => None) "s" [spaced_category_product]
      {[ 7 := JArr [JStr "tee"] ]} [foreign_tee] = (rows', Ok ())
    ∧ r ∈ rows'
    ∧ DBProduct.id r = 7 ∧ DBProduct.shop_id r = "s" ∧ DBProduct.tags r = "tee"
    ∧ DBProduct.price r = "10.00".
Proof.
  set (run := saveProductsWithData sample_driver (fun _ => None) "s"
                [spaced_category_product] {[ 7 := JArr [JStr "tee"] ]} [foreign_tee]).
  assert (Hrun : run = (run.1, Ok ())) by reflexivity.
  exists run.1.
  destruct (saved_product_is_stored sample_driver (fun _ => None) "s"
              [spaced_category_product] {[ 7 := JArr [JStr "tee"] ]} [foreign_tee] run.1
              spaced_category_product (JArr [JStr "tee"])
              (NoDup_singleton _) (NoDup_singleton _) Hrun
              ltac:(left) eq_refl)
    as (first & r & Hfirst & Hr & Heq & _).
  injection Hfirst as <-. exists r. split; [exact Hrun |]. split; [exact Hr |].
  rewrite <- Heq. repeat split.
Defined.

(** *** The tags of a product without the oracle *)






(** *** The tags the embedding step gives *)

Lemma fallbackTagsValue_truthy (product : CatalogProduct.t) :
  truthyValue (fallbackTagsValue product) = true.
Proof. done. Qed.

(** The loop over the products of a batch adds, in order, one entry per
    product it gets to, each with tags that are truthy; it gets to all of
    them unless it throws. *)
Lemma processEach_entries (parsedData : jsval) (products : list CatalogProduct.t)
  (results : list (Z * jsval)) :
  ∃ added,
    (processEach parsedData products results).1 = results ++ added
    ∧ added.*1 `prefix_of` (CatalogProduct.id <$> products)
    ∧ ((processEach parsedData products results).2 = Ok () →
       added.*1 = CatalogProduct.id <$> products)
    ∧ Forall (fun r => truthyValue r.2 = true) added.
Proof.
  revert results. induction products as [| p rest IH]; intros results.
  { exists []. simpl. by rewrite app_nil_r. }
  cbn [processEach].
  destruct (findProductData parsedData (CatalogProduct.id p)) as [llmData | e].
  2: { exists []. simpl. rewrite app_nil_r. split; [done |].
       split; [apply prefix_nil | split; [discriminate | constructor]]. }
  set (tags := match llmData with Some d => _ | None => _ end).
  assert (Htags : truthyValue tags = true).
  { subst tags. destruct llmData as [d |]; [| done].
    by destruct (truthyValue (member d "tags")) eqn:E. }
  destruct (IH (results ++ [(CatalogProduct.id p, tags)])) as (added & Heq & Hpre & Hok & Hall).
  exists ((CatalogProduct.id p, tags) :: added).
  split; [by rewrite Heq, <- app_assoc |].
  split; [by apply prefix_cons |].
  split; [intros H; rewrite !fmap_cons; f_equal; by apply Hok | by constructor].
Qed.

Lemma batchProcess_entries (o : Oracle) (products : list CatalogProduct.t) :
  (∀ i, i ∈ (batchProcessProductsWithLLM o products).*1
        ↔ i ∈ CatalogProduct.id <$> products)
  ∧ Forall (fun r => truthyValue r.2 = true) (batchProcessProductsWithLLM o products).
Proof.
  assert (Hfb : (fallbackResults products).*1 = CatalogProduct.id <$> products).
  { unfold fallbackResults. rewrite <- list_fmap_compose. by apply list_fmap_ext. }
  assert (Hfbt : Forall (fun r => truthyValue r.2 = true) (fallbackResults products)).
  { unfold fallbackResults. apply Forall_fmap, Forall_forall. by intros p _. }
  unfold batchProcessProductsWithLLM.
  destruct (gridAIContent o) as [llmResponse | e]; [| by rewrite Hfb].
  destruct (processEach_entries (default (JArr []) (parseArrayAnswer o llmResponse))
              products []) as (added & Heq & Hpre & Hok & Hall).
  destruct (processEach _ products []) as [results [[] | e]]; simpl in Heq; subst results.
  - rewrite (Hok eq_refl). done.
  - split; [| by apply Forall_app].
    intros i. rewrite fmap_app, elem_of_app, Hfb. split; [| by right].
    intros [Hi | Hi]; [| done]. destruct Hpre as [rest Hrest]. rewrite Hrest.
    apply elem_of_app. by left.
Qed.

Lemma setResults_is_Some (rs : list (Z * jsval)) (m : gmap Z jsval) (k : Z) :
  is_Some (fold_left (fun m r => <[r.1 := r.2]> m) rs m !! k)
  ↔ k ∈ rs.*1 ∨ is_Some (m !! k).
Proof.
  revert m. induction rs as [| [i v] rs IH]; intros m; simpl.
  - split; [by right | intros [H | H]; [by apply elem_of_nil in H | done]].
  - rewrite IH, elem_of_cons. destruct (decide (k = i)) as [-> | Hne].
    + rewrite lookup_insert_eq. split; [intros _; by left; left | intros _; by right].
    + rewrite lookup_insert_ne by done. tauto.
Qed.

Lemma setResults_notin (rs : list (Z * jsval)) (m : gmap Z jsval) (k : Z) :
  k ∉ rs.*1 → fold_left (fun m r => <[r.1 := r.2]> m) rs m !! k = m !! k.
Proof.
  revert m. induction rs as [| [i v] rs IH]; intros m Hk; [done |]. simpl.
  rewrite fmap_cons in Hk. apply not_elem_of_cons in Hk as [Hne Hk].
  rewrite IH by done. by rewrite lookup_insert_ne.
Qed.

Lemma setResults_truthy (rs : list (Z * jsval)) (m : gmap Z jsval) :
  (∀ k v, m !! k = Some v → truthyValue v = true) →
  Forall (fun r => truthyValue r.2 = true) rs →
  ∀ k v, fold_left (fun m r => <[r.1 := r.2]> m) rs m !! k = Some v →
         truthyValue v = true.
Proof.
  revert m. induction rs as [| [i t] rs IH]; intros m Hm Hrs; [done |].
  apply Forall_cons in Hrs as [Ht Hrs]. simpl. apply IH; [| done].
  intros k v. destruct (decide (k = i)) as [-> | Hne].
  - rewrite lookup_insert_eq. by intros [= <-].
  - rewrite lookup_insert_ne by done. apply Hm.
Qed.

Lemma setResults_fallback (batch : list CatalogProduct.t) (m : gmap Z jsval)
  (p : CatalogProduct.t) :
  NoDup (CatalogProduct.id <$> batch) → p ∈ batch →
  fold_left (fun m r => <[r.1 := r.2]> m) (fallbackResults batch) m
    !! CatalogProduct.id p
  = Some (fallbackTagsValue p).
Proof.
  revert m. induction batch as [| q rest IH]; intros m Hnd Hp;
    [by apply elem_of_nil in Hp |].
  rewrite fmap_cons in Hnd. apply NoDup_cons in Hnd as [Hq Hrest].
  unfold fallbackResults. rewrite fmap_cons. cbn [fold_left fst snd].
  apply elem_of_cons in Hp as [-> | Hp]; [| by apply IH].
  rewrite setResults_notin.
  - by rewrite lookup_insert_eq.
  - rewrite <- list_fmap_compose. exact Hq.
Qed.

(** The rounds of the loop from [i] on give an entry to every product from
    position [i] on, and to no other id. *)
Lemma batchLoop_is_Some (fuel : nat) (oracles : nat → Oracle)
  (products : list CatalogProduct.t) (i : nat) (results : gmap Z jsval) (k : Z) :
  (length products - i ≤ fuel)%nat →
  is_Some (batchLoop fuel oracles products i results !! k)
  ↔ is_Some (results !! k) ∨ k ∈ CatalogProduct.id <$> drop i products.
Proof.
  revert i results. induction fuel as [| fuel IH]; intros i results Hfuel.
  - simpl. rewrite drop_ge by lia. split; [by left |].
    intros [H | H]; [done | by apply elem_of_nil in H].
  - cbn [batchLoop]. destruct (Nat.ltb_spec i (length products)) as [Hlt | Hge].
    + rewrite IH by lia. rewrite setResults_is_Some.
      rewrite (proj1 (batchProcess_entries _ _)).
      pose proof (take_drop 50 (drop i products)) as Hsplit.
      rewrite drop_drop in Hsplit.
      assert (Hk : k ∈ CatalogProduct.id <$> drop i products
                   ↔ k ∈ CatalogProduct.id <$> take 50 (drop i products)
                     ∨ k ∈ CatalogProduct.id <$> drop (i + 50) products)
        by (rewrite <- Hsplit at 1; by rewrite fmap_app, elem_of_app).
      rewrite Hk. tauto.
    + rewrite drop_ge by lia. split; [by left |].
      intros [H | H]; [done | by apply elem_of_nil in H].
Qed.

Lemma batchLoop_truthy (fuel : nat) (oracles : nat → Oracle)
  (products : list CatalogProduct.t) (i : nat) (results : gmap Z jsval) :
  (∀ k v, results !! k = Some v → truthyValue v = true) →
  ∀ k v, batchLoop fuel oracles products i results !! k = Some v →
         truthyValue v = true.
Proof.
  revert i results. induction fuel as [| fuel IH]; intros i results Hres; [done |].
  cbn [batchLoop]. destruct (i <? length products)%nat; [| done].
  apply IH. apply setResults_truthy; [done |]. apply batchProcess_entries.
Qed.

Lemma batchLoop_notin (fuel : nat) (oracles : nat → Oracle)
  (products : list CatalogProduct.t) (i : nat) (results : gmap Z jsval) (k : Z) :
  k ∉ CatalogProduct.id <$> drop i products →
  batchLoop fuel oracles products i results !! k = results !! k.
Proof.
  revert i results. induction fuel as [| fuel IH]; intros i results Hk; [done |].
  cbn [batchLoop]. destruct (i <? length products)%nat; [| done].
  pose proof (take_drop 50 (drop i products)) as Hsplit.
  rewrite drop_drop in Hsplit.
  rewrite <- Hsplit, fmap_app in Hk.
  apply not_elem_of_app in Hk as [Hbatch Hrest].
  rewrite IH by done. apply setResults_notin.
  by rewrite (proj1 (batchProcess_entries _ _)).
Qed.

(** Tags that are truthy have a first element to read: with such data the
    save throws only what storage raises. *)
Lemma saveProducts_no_storage_fault (d : Driver) (saveFault : Z → option Error)
  (shopId : string) (products : list CatalogProduct.t) (productData : gmap Z jsval)
  (rows : list DBProduct.t) :
  (∀ k v, productData !! k = Some v → truthyValue v = true) →
  (∀ p, p ∈ products → saveFault (CatalogProduct.id p) = None) →
  (saveProductsWithData d saveFault shopId products productData rows).2 = Ok ().
Proof.
  intros Hdata. revert rows. induction products as [| p rest IH]; intros rows Hf; [done |].
  assert (Hrest : ∀ p', p' ∈ rest → saveFault (CatalogProduct.id p') = None)
    by (intros p' Hp'; apply Hf; by right).
  cbn [saveProductsWithData].
  destruct (productData !! CatalogProduct.id p) as [tags |] eqn:Htags; [| by apply IH].
  apply Hdata in Htags.
  destruct tags as [| | b | q | s | items | fields]; try discriminate; simpl;
    rewrite (Hf p) by left; by apply IH.
Qed.

(** Whatever the oracle answers for each batch, the embedding step gives
    every product of the catalogue an entry and no other id one, and the
    tags of every entry are truthy; so the save that follows reads a first
    tag from each and throws nothing but what storage raises. *)
Theorem embedding_step_covers_catalogue (oracles : nat → Oracle)
  (products : list CatalogProduct.t) :
  let productData := batchGenerateEmbeddings oracles products in
  (∀ i, is_Some (productData !! i) ↔ i ∈ CatalogProduct.id <$> products)
  ∧ (∀ i tags, productData !! i = Some tags → truthyValue tags = true)
  ∧ (∀ d saveFault shopId rows,
       (∀ p, p ∈ products → saveFault (CatalogProduct.id p) = None) →
       (saveProductsWithData d saveFault shopId products productData rows).2 = Ok ()).
Proof.
  cbv zeta. unfold batchGenerateEmbeddings.
  assert (Htruthy : ∀ k v, batchLoop (length products) oracles products 0 ∅ !! k = Some v →
                           truthyValue v = true)
    by (apply batchLoop_truthy; intros k v; by rewrite lookup_empty).
  split; [| split; [done |]].
  - intros i. rewrite batchLoop_is_Some by lia. rewrite lookup_empty, drop_0.
    split; [intros [[? [=]] | H]; done | by right].
  - intros d saveFault shopId rows Hf. by apply saveProducts_no_storage_fault.
Qed.

(** A batch whose oracle call fails gets the tags of the fallback, and
    only that batch: in a catalogue whose ids are pairwise distinct, the
    product at position [j] belongs to batch [j / 50], and when the call
    for that batch throws, its entry holds its fallback tag. *)
Theorem failed_batch_gets_fallback_tags (oracles : nat → Oracle)
  (products : list CatalogProduct.t) (j : nat) (p : CatalogProduct.t) (e : Error) :
  NoDup (CatalogProduct.id <$> products) →
  products !! j = Some p →
  gridAIContent (oracles (j / 50)%nat) = Throw e →
  batchGenerateEmbeddings oracles products !! CatalogProduct.id p
  = Some (fallbackTagsValue p).
Proof.
  intros Hnd Hj Hfail. unfold batchGenerateEmbeddings.
  assert (Hlen : (j < length products)%nat) by (by eapply lookup_lt_Some).
  assert (Hloop : ∀ fuel n results,
            (length products - 50 * n ≤ fuel)%nat → (50 * n ≤ j)%nat →
            batchLoop fuel oracles products (50 * n) results !! CatalogProduct.id p
            = Some (fallbackTagsValue p)).
  { induction fuel as [| fuel IH]; intros n results Hfuel Hn; [lia |].
    cbn [batchLoop]. destruct (Nat.ltb_spec (50 * n) (length products)); [| lia].
    destruct (decide (j < 50 * n + 50)%nat) as [Hin | Hout].
    - assert (Hdiv : (j / 50 = n)%nat).
      { symmetry. apply (Nat.div_unique j 50 n (j - 50 * n)); lia. }
      assert (Hdiv' : (50 * n / 50 = n)%nat).
      { symmetry. apply (Nat.div_unique (50 * n) 50 n 0); lia. }
      rewrite Hdiv'. rewrite Hdiv in Hfail.
      unfold batchProcessProductsWithLLM at 1. rewrite Hfail.
      rewrite batchLoop_notin.
      + apply setResults_fallback.
        * rewrite fmap_take, fmap_drop.
          eapply sublist_NoDup; [exact Hnd |].
          etrans; [apply sublist_take | apply sublist_drop].
        * apply list_elem_of_lookup. exists (j - 50 * n)%nat.
          rewrite lookup_take_lt by lia. rewrite lookup_drop.
          replace (50 * n + (j - 50 * n))%nat with j by lia. exact Hj.
      + intros Hlater. rewrite fmap_drop in Hlater.
        apply list_elem_of_lookup in Hlater as [j' Hj'].
        rewrite lookup_drop in Hj'.
        assert (Hjid : (CatalogProduct.id <$> products) !! j = Some (CatalogProduct.id p))
          by (by rewrite list_lookup_fmap, Hj).
        pose proof (NoDup_lookup _ _ _ _ Hnd Hjid Hj'). lia.
    - replace (50 * n + 50)%nat with (50 * S n)%nat by lia. apply IH; lia. }
  apply (Hloop (length products) 0%nat ∅); lia.
Qed.

Lemma failed_batch_gets_fallback_tags_witness :
  batchGenerateEmbeddings (fun _ => unavailable_oracle) [spaced_category_product] !! 7
  = Some (JArr [JStr "tops "]).
Proof.
  apply (failed_batch_gets_fallback_tags (fun _ => unavailable_oracle)
           [spaced_category_product] 0 spaced_category_product
           (mkError "Grid AI error: 503 - Service Unavailable")).
  - apply NoDup_singleton.
  - reflexivity.
  - reflexivity.
Defined.

(** *** From the catalogue file to the candidate rows *)

Lemma calculateStock_fold (variants : list ProductVariant.t) (init : Z) :
  fold_left
    (fun sum v =>
       sum + (if ProductVariant.inventory_quantity v =? 0 then 0
              else ProductVariant.inventory_quantity v))
    variants init
  = init + foldr Z.add 0 (ProductVariant.inventory_quantity <$> variants).
Proof.
  revert init. induction variants as [| v vs IH]; intros init; [simpl; lia |].
  rewrite fmap_cons. cbn [fold_left foldr]. rewrite IH.
  destruct (Z.eqb_spec (ProductVariant.inventory_quantity v) 0); lia.
Qed.

(** The stock of a product is the total of the inventory of its variants;
    so it adds up over variants put together, and with no negative
    inventory the product is in stock exactly when one of its variants
    is. *)
Theorem stock_is_inventory_total (variants more : list ProductVariant.t) :
  calculateStock variants
  = foldr Z.add 0 (ProductVariant.inventory_quantity <$> variants)
  ∧ calculateStock (variants ++ more) = calculateStock variants + calculateStock more
  ∧ (Forall (fun v => 0 ≤ ProductVariant.inventory_quantity v) variants →
     0 < calculateStock variants
     ↔ Exists (fun v => 0 < ProductVariant.inventory_quantity v) variants).
Proof.
  unfold calculateStock. rewrite !calculateStock_fold, !Z.add_0_l.
  split; [done |]. split.
  - rewrite fmap_app, foldr_app.
    induction variants as [| v vs IH]; [simpl; lia |].
    rewrite fmap_cons. cbn [foldr]. rewrite IH. lia.
  - intros Hnn. induction Hnn as [| v vs Hv Hnn IH].
    + simpl. split; [lia | by intros ?%Exists_nil].
    + rewrite fmap_cons, Exists_cons. cbn [foldr].
      assert (0 ≤ foldr Z.add 0 (ProductVariant.inventory_quantity <$> vs)).
      { clear IH. induction Hnn as [| w ws Hw _ IHw]; [simpl; lia |].
        rewrite fmap_cons. cbn [foldr]. lia. }
      split.
      * intros Hpos. destruct (decide (0 < ProductVariant.inventory_quantity v));
          [by left | right; apply IH; lia].
      * intros [Hpos | Hex]; [lia | apply IH in Hex; lia].
Qed.

Lemma stock_is_inventory_total_witness :
  0 < calculateStock (DBProduct.variants sneakers)
  ↔ Exists (fun v => 0 < ProductVariant.inventory_quantity v) (DBProduct.variants sneakers).
Proof.
  apply (stock_is_inventory_total (DBProduct.variants sneakers) []).
  repeat constructor; simpl; lia.
Defined.

Lemma loadProductCatalog_ids (file : list CatalogProduct.t) (shopId : string) :
  CatalogProduct.id <$> loadProductCatalog file shopId = CatalogProduct.id <$> file.
Proof.
  unfold loadProductCatalog. rewrite <- list_fmap_compose. by apply list_fmap_ext.
Qed.

(** The steps of a run from the catalogue file to the scored table, put
    together: for a file whose ids are pairwise distinct and a table whose
    ids are, with storage raising nothing during the save and whatever the
    oracle answers, every product of the file ends as a row of the shop of
    the run; the row's stock is the total inventory of the product's
    variants, its merchant score the step of that stock, its status the
    file's, [active] when the file gives none; and the candidate query of
    the request path accepts it exactly when it is active, in stock, not
    excluded, and its tag is asked for. *)
Theorem catalogue_ends_as_scored_rows (file : list CatalogProduct.t)
  (oracles : nat → Oracle) (d : Driver) (saveFault : Z → option Error)
  (random : nat → Q) (shopId : string) (rows : list DBProduct.t)
  (p : CatalogProduct.t) :
  NoDup (CatalogProduct.id <$> file) →
  NoDup (DBProduct.id <$> rows) →
  (∀ q, q ∈ file → saveFault (CatalogProduct.id q) = None) →
  p ∈ file →
  let products := loadProductCatalog file shopId in
  let productData := batchGenerateEmbeddings oracles products in
  let saved := saveProductsWithData d saveFault shopId products productData rows in
  let table := computeProductScores random shopId saved.1 in
  saved.2 = Ok ()
  ∧ ∃ r, r ∈ table
      ∧ DBProduct.id r = CatalogProduct.id p
      ∧ DBProduct.shop_id r = shopId
      ∧ DBProduct.variants r = CatalogProduct.variants p
      ∧ DBProduct.stock r
        = foldr Z.add 0 (ProductVariant.inventory_quantity <$> CatalogProduct.variants p)
      ∧ DBProduct.merchant_score r = merchantScoreCase (DBProduct.stock r)
      ∧ DBProduct.status r
        = (if String.eqb (CatalogProduct.status p) "" then "active"
           else CatalogProduct.status p)
      ∧ ∀ excludeIds tags,
          candidateWhere shopId excludeIds tags r = true
          ↔ (CatalogProduct.id p ∉ excludeIds) ∧ DBProduct.status r = "active"
            ∧ 0 < DBProduct.stock r ∧ DBProduct.tags r ∈ tags.
Proof.
  intros Hfile Hrows Hfault Hp products productData saved table.
  assert (Hids : NoDup (CatalogProduct.id <$> products))
    by (subst products; by rewrite loadProductCatalog_ids).
  assert (Htruthy : ∀ k v, productData !! k = Some v → truthyValue v = true).
  { subst productData. unfold batchGenerateEmbeddings. apply batchLoop_truthy.
    intros k v. by rewrite lookup_empty. }
  assert (Hok : saved.2 = Ok ()).
  { subst saved. apply saveProducts_no_storage_fault; [done |].
    intros q Hq. subst products. unfold loadProductCatalog in Hq.
    apply list_elem_of_fmap in Hq as (q0 & -> & Hq0). exact (Hfault q0 Hq0). }
  split; [done |].
  assert (Hlp : loadedProduct p ∈ products)
    by (subst products; unfold loadProductCatalog; apply list_elem_of_fmap; by exists p).
  assert (Hdata : is_Some (productData !! CatalogProduct.id (loadedProduct p))).
  { subst productData. unfold batchGenerateEmbeddings.
    apply batchLoop_is_Some; [lia |]. right. rewrite drop_0.
    apply list_elem_of_fmap. by exists (loadedProduct p). }
  destruct Hdata as [tags Hdata].
  assert (Hsaved : saved = (saved.1, Ok ()))
    by (rewrite (surjective_pairing saved) at 1; by rewrite Hok).
  destruct (saveProducts_stored d saveFault shopId products productData rows saved.1
              (loadedProduct p) tags Hrows Hids Hsaved Hlp Hdata)
    as (first & r1 & _ & Hr1 & Heq & _).
  assert (Hshop : DBProduct.shop_id r1 = shopId) by (by rewrite <- Heq).
  apply list_elem_of_lookup in Hr1 as [i Hi].
  pose proof (computeProductScores_lookup random shopId saved.1 i) as Hscored.
  rewrite Hi in Hscored. simpl in Hscored.
  rewrite Hshop, String.eqb_refl in Hscored.
  eexists. split; [apply list_elem_of_lookup; exists i; exact Hscored |].
  rewrite <- Heq. cbn.
  split; [done |]. split; [done |]. split; [done |].
  split; [unfold calculateStock; by rewrite calculateStock_fold |].
  split; [done |]. split.
  { destruct (String.eqb_spec (CatalogProduct.status p) "") as [-> | Hne]; [done |].
    by destruct (CatalogProduct.status p). }
  intros excludeIds tags0. rewrite candidateWhere_true. cbn.
  split; [intros (_ & H); exact H | intros H; split; [reflexivity | exact H]].
Qed.

Lemma catalogue_ends_as_scored_rows_witness :
  let products := loadProductCatalog [file_tee] "s" in
  let productData := batchGenerateEmbeddings (fun _ => unavailable_oracle) products in
  let saved := saveProductsWithData sample_driver (fun _ => None) "s" products productData
                 [foreign_tee] in
  ∃ r, r ∈ computeProductScores (fun _ => 0.25%Q) "s" saved.1
       ∧ DBProduct.id r = 1001 ∧ DBProduct.stock r = 60
       ∧ DBProduct.merchant_score r = 1.0%Q ∧ DBProduct.status r = "active".
Proof.
  intros products productData saved.
  destruct (catalogue_ends_as_scored_rows [file_tee] (fun _ => unavailable_oracle)
              sample_driver (fun _ => None) (fun _ => 0.25%Q) "s" [foreign_tee] file_tee
              (NoDup_singleton _) (NoDup_singleton _) (fun _ _ => eq_refl) ltac:(left))
    as (_ & r & Hr & Hid & _ & _ & Hstock & Hm & Hst & _).
  exists r. split; [exact Hr |]. split; [exact Hid |]. split; [exact Hstock |].
  split; [| exact Hst]. rewrite Hm, Hstock. reflexivity.
Defined.

(** *** Requests that end with no recommendation *)

Lemma relatedTagsLoop_no_rows (st : Store) (tags : list string) (set : list string) :
  (∀ t, t ∈ tags → fault st (SiteTagLookup t) = None) →
  (∀ t, t ∈ tags → tag_graph st !! t = None) →
  relatedTagsLoop st tags set = Ok set.
Proof.
  revert set. induction tags as [| t tags IH]; intros set Hf Hg; [done |].
  cbn [relatedTagsLoop]. unfold query. rewrite (Hf t) by left. simpl.
  rewrite (Hg t) by left. apply IH; intros t' Ht'; [apply Hf | apply Hg]; by right.
Qed.

Lemma filter_no_tags (shopId : string) (excludeIds : list Z) (rows : list DBProduct.t) :
  List.filter (candidateWhere shopId excludeIds []) rows = [].
Proof.
  induction rows as [| r l IH]; [done |]. cbn [List.filter].
  unfold candidateWhere at 1. cbn [existsb]. by rewrite andb_false_r.
Qed.

(** When no tag of the requested products has a row in the tag graph, the
    request ends normally with two empty lists, for every oracle: the
    related tags are none, so are the candidates, and the ranking is not
    reached. *)
Theorem no_graph_row_no_recommendations (st : Store) (o : Oracle) (shopId : string)
  (productIds : list Z) (recommendationType : list RecommendationType)
  (p : DBProduct.t) :
  (∀ site, fault st site = None) →
  p ∈ products st → DBProduct.id p ∈ productIds →
  (∀ q, q ∈ products st → DBProduct.id q ∈ productIds →
        tag_graph st !! DBProduct.tags q = None) →
  getRecommendations st o shopId productIds recommendationType
  = Ok (mkRecommendations [] []).
Proof.
  intros Hf Hp Hpid Hnone.
  unfold getRecommendations, getCandidateProductsByTags, query. rewrite !Hf. simpl.
  destruct (getProductsByIds st productIds) as [src | e] eqn:Hsrc.
  2: { unfold getProductsByIds, query in Hsrc. by rewrite Hf in Hsrc. }
  simpl.
  assert (Hin : p ∈ src) by (by apply (elem_of_getProductsByIds _ _ _ _ Hsrc)).
  assert (Hne : src ≠ []) by (intros ->; by apply elem_of_nil in Hin).
  rewrite (length_eqb_0 src Hne).
  assert (Hrel : getRelatedTags st (sourceTagsOf src) Crosssell 50 = Ok []).
  { unfold getRelatedTags, query. rewrite Hf. simpl.
    rewrite relatedTagsLoop_no_rows; [done | by intros |].
    intros t Ht. apply sourceTagsOf_inv in Ht as (q & Hq & <-).
    apply (elem_of_getProductsByIds _ _ _ _ Hsrc) in Hq as [Hq Hqid]. by apply Hnone. }
  rewrite Hrel. simpl.
  assert (Hfilter : List.filter (candidateWhere shopId productIds []) (products st) = []).
    by apply filter_no_tags.
  by rewrite Hfilter.
Qed.

Lemma no_graph_row_no_recommendations_witness :
  getRecommendations sample_store both_lists_oracle "s" [2001] [Upsell; Crosssell]
  = Ok (mkRecommendations [] []).
Proof.
  apply (no_graph_row_no_recommendations sample_store both_lists_oracle "s" [2001]
           [Upsell; Crosssell] jeans).
  - reflexivity.
  - right. left.
  - left.
  - intros q Hq Hid. apply list_elem_of_singleton in Hid.
    apply list_elem_of_In in Hq. simpl in Hq.
    destruct Hq as [<- | [<- | [<- | [<- | []]]]]; try discriminate Hid. reflexivity.
Defined.

(** *** Answers in a markdown fence *)

Lemma string_length_app (a b : string) :
  String.length (a +:+ b) = (String.length a + String.length b)%nat.
Proof.
  induction a as [| c a IH]; [done |].
  change (String c a +:+ b) with (String c (a +:+ b)). simpl. by rewrite IH.
Qed.

Lemma substring_whole (s : string) : String.substring 0 (String.length s) s = s.
Proof. induction s as [| c s IH]; simpl; [done | by rewrite IH]. Qed.

Lemma substring_app_l (a b : string) :
  String.substring 0 (String.length a) (a +:+ b) = a.
Proof.
  induction a as [| c a IH]; [by destruct b |].
  change (String c a +:+ b) with (String c (a +:+ b)). simpl. by rewrite IH.
Qed.

Lemma substring_app_r (a b : string) :
  String.substring (String.length a) (String.length b) (a +:+ b) = b.
Proof.
  induction a as [| c a IH]; [apply substring_whole |].
  change (String c a +:+ b) with (String c (a +:+ b)). simpl. exact IH.
Qed.

Lemma dropEnd_app (a b : string) : dropEnd (String.length b) (a +:+ b) = a.
Proof.
  unfold dropEnd. rewrite string_length_app.
  replace (String.length a + String.length b - String.length b)%nat
    with (String.length a) by lia.
  apply substring_app_l.
Qed.

Lemma dropStart_app (a b : string) : dropStart (String.length a) (a +:+ b) = b.
Proof.
  unfold dropStart. rewrite string_length_app.
  replace (String.length a + String.length b - String.length a)%nat
    with (String.length b) by lia.
  apply substring_app_r.
Qed.

Lemma endsWith_app (a b : string) : endsWith b (a +:+ b) = true.
Proof.
  unfold endsWith. rewrite string_length_app.
  replace (String.length a + String.length b - String.length b)%nat
    with (String.length a) by lia.
  pose proof (dropStart_app a b) as H. rewrite H.
  rewrite String.eqb_refl, andb_true_r. apply Nat.leb_le. lia.
Qed.

Lemma startsWith_app (a b : string) : startsWith a (a +:+ b) = true.
Proof.
  unfold startsWith. apply String.prefix_correct. apply substring_app_l.
Qed.

Lemma trimEnd_app_char (a : string) (c : ascii) :
  Js.isWhiteSpace c = false →
  Js.trimEnd (a +:+ String c "") = a +:+ String c "".
Proof.
  intros Hc. induction a as [| x a IH].
  - change ("" +:+ String c "") with (String c ""). simpl. by rewrite Hc.
  - change (String x a +:+ String c "") with (String x (a +:+ String c "")).
    cbn [Js.trimEnd]. rewrite IH.
    destruct a; reflexivity.
Qed.

Lemma throughLast_app_char (a : string) (c : ascii) :
  throughLast c (a +:+ String c "") = Some (a +:+ String c "").
Proof.
  induction a as [| x a IH].
  - change ("" +:+ String c "") with (String c ""). simpl. by rewrite Ascii.eqb_refl.
  - change (String x a +:+ String c "") with (String x (a +:+ String c "")).
    cbn [throughLast]. by rewrite IH.
Qed.

Lemma trimStart_newline (o : ascii) (x : string) :
  Js.isWhiteSpace o = false →
  Js.trimStart (newline +:+ String o x) = String o x.
Proof.
  intros Ho. change (newline +:+ String o x) with (String (ascii_of_nat 10) (String o x)).
  simpl. by rewrite Ho.
Qed.

(** The two [replace] calls take a fence, with or without the word [json],
    off a text that stands between two line feeds within it; what is left
    is the text, when it starts and ends with characters that are no white
    space. *)
Lemma strip_fences (tag : string) (o c : ascii) (mid : string) :
  tag = "json" ∨ tag = "" →
  Js.isWhiteSpace o = false → Js.isWhiteSpace c = false →
  let body := String o (mid +:+ String c "") in
  let fenced := fence +:+ tag +:+ newline +:+ body +:+ newline +:+ fence in
  Js.trim fenced = fenced
  ∧ startsWith fence fenced = true
  ∧ stripFenceEnd (stripFenceStart fenced) = body
  ∧ Js.trim body = body.
Proof.
  intros Htag Ho Hc body fenced.
  assert (Hbody : body = String o mid +:+ String c "") by done.
  assert (Hend : Js.trimEnd body = body) by (rewrite Hbody; by apply trimEnd_app_char).
  assert (Htrim : Js.trim body = body).
  { unfold Js.trim. replace (Js.trimStart body) with body; [done |].
    subst body. simpl. by rewrite Ho. }
  assert (Hfenced : fenced = (fence +:+ tag +:+ newline +:+ body +:+ newline +:+ "``")
                             +:+ String "`" "").
  { subst fenced. by rewrite !string_app_assoc. }
  assert (Hfend : Js.trimEnd fenced = fenced)
    by (rewrite Hfenced; by apply trimEnd_app_char).
  assert (Hstart : stripFenceStart fenced = body +:+ newline +:+ fence).
  { unfold stripFenceStart. subst fenced. rewrite startsWith_app.
    pose proof (dropStart_app fence (tag +:+ newline +:+ body +:+ newline +:+ fence)) as Hd.
    change (String.length fence) with 3%nat in Hd. rewrite Hd.
    destruct Htag as [-> | ->].
    - rewrite startsWith_app.
      pose proof (dropStart_app "json" (newline +:+ body +:+ newline +:+ fence)) as Hd4.
      change (String.length "json") with 4%nat in Hd4. rewrite Hd4.
      by apply trimStart_newline.
    - change ("" +:+ newline +:+ body +:+ newline +:+ fence)
        with (newline +:+ body +:+ newline +:+ fence).
      replace (startsWith "json" (newline +:+ body +:+ newline +:+ fence)) with false
        by done.
      by apply trimStart_newline. }
  split; [| split; [apply startsWith_app | split; [| done]]].
  - unfold Js.trim. replace (Js.trimStart fenced) with fenced; [done |].
    by subst fenced.
  - rewrite Hstart.
    assert (Ht : Js.trimEnd (body +:+ newline +:+ fence) = body +:+ newline +:+ fence).
    { assert (Hs : body +:+ newline +:+ fence
                   = (body +:+ newline +:+ "``") +:+ String "`" "")
        by (by rewrite !string_app_assoc).
      rewrite Hs. by apply trimEnd_app_char. }
    unfold stripFenceEnd. cbv zeta. rewrite !Ht.
    rewrite <- !string_app_assoc. rewrite endsWith_app.
    pose proof (dropEnd_app (body +:+ newline) fence) as Hd.
    change (String.length fence) with 3%nat in Hd. rewrite !Hd.
    rewrite endsWith_app.
    pose proof (dropEnd_app body newline) as Hd1.
    change (String.length newline) with 1%nat in Hd1. by rewrite Hd1.
Qed.

Lemma app_char_inj (x y : string) (c1 c2 : ascii) :
  x +:+ String c1 "" = y +:+ String c2 "" → x = y ∧ c1 = c2.
Proof.
  revert y. induction x as [| a x IH]; intros [| b y].
  - by intros [= ->].
  - change ("" +:+ String c1 "" = String b (y +:+ String c2 "") → "" = String b y ∧ c1 = c2).
    intros [= _ H]. by destruct y.
  - change (String a (x +:+ String c1 "") = String c2 "" → String a x = "" ∧ c1 = c2).
    intros [= _ H]. by destruct x.
  - change (String a (x +:+ String c1 "") = String b (y +:+ String c2 "")
            → String a x = String b y ∧ c1 = c2).
    intros [= -> H]. apply IH in H as [-> ->]. done.
Qed.

Lemma dropStart_suffix (n : nat) (s : string) : ∃ pre, s = pre +:+ dropStart n s.
Proof.
  unfold dropStart. revert n. induction s as [| x s IH]; intros n.
  - exists "". by destruct n.
  - destruct n as [| n].
    + exists "". simpl. by rewrite substring_whole.
    + destruct (IH n) as [pre Hpre]. exists (String x pre).
      change (String x pre +:+ ?r) with (String x (pre +:+ r)). simpl. by rewrite <- Hpre.
Qed.

(** A text whose last character is no backquote does not end with the
    fence. *)
Lemma endsWith_fence_false (a : string) (c : ascii) :
  c ≠ "`"%char → endsWith fence (a +:+ String c "") = false.
Proof.
  intros Hc. unfold endsWith.
  destruct (_ <=? _)%nat; [| done]. simpl.
  destruct (String.eqb_spec (dropStart (String.length (a +:+ String c "") - 3)
                               (a +:+ String c "")) fence) as [Heq | _]; [| done].
  destruct (dropStart_suffix (String.length (a +:+ String c "") - 3) (a +:+ String c ""))
    as [pre Hpre].
  rewrite Heq in Hpre.
  change fence with ("``" +:+ String "`" "") in Hpre.
  rewrite <- string_app_assoc in Hpre. apply app_char_inj in Hpre as [_ ->]. done.
Qed.

(** An answer that is one JSON text wrapped in a markdown fence, with or
    without the word [json] after the opening fence, is read as the bare
    text is: the ranking engine parses the object text between the fences,
    the precomputation steps the array text. *)
Theorem fenced_answer_reads_as_bare (o : Oracle) (tag mid : string) :
  tag = "json" ∨ tag = "" →
  (let body := String "{" (mid +:+ "}") in
   parseLLMResponse o (JStr (fence +:+ tag +:+ newline +:+ body +:+ newline +:+ fence))
   = parseJSON o body
   ∧ parseLLMResponse o (JStr body) = parseJSON o body)
  ∧ (let body := String "[" (mid +:+ "]") in
     parseArrayAnswer o (JStr (fence +:+ tag +:+ newline +:+ body +:+ newline +:+ fence))
     = JSON_parse o body
     ∧ parseArrayAnswer o (JStr body) = JSON_parse o body).
Proof.
  intros Htag. split.
  - intros body.
    destruct (strip_fences tag "{" "}" mid Htag eq_refl eq_refl)
      as (_ & _ & Hstrip & Htrim).
    fold body in Hstrip, Htrim.
    assert (Hmatch : matchBraces body = Some body).
    { unfold matchBraces. subst body. cbn [splitAt]. simpl Ascii.eqb. cbv iota.
      exact (throughLast_app_char (String "{" mid) "}"). }
    unfold parseLLMResponse, responseText, cleanText. cbn [mbind result_bind].
    rewrite Hstrip, Htrim, Hmatch. split; [done |].
    replace (stripFenceStart body) with body by done.
    unfold stripFenceEnd.
    assert (Hend : Js.trimEnd body = body)
      by exact (trimEnd_app_char (String "{" mid) "}" eq_refl).
    rewrite Hend.
    pose proof (endsWith_fence_false (String "{" mid) "}" ltac:(done)) as Hef.
    change (String "{" mid +:+ "}") with body in Hef. rewrite Hef.
    by rewrite Htrim, Hmatch.
  - intros body.
    destruct (strip_fences tag "[" "]" mid Htag eq_refl eq_refl)
      as (Hft & Hfs & Hstrip & Htrim).
    fold body in Hft, Hfs, Hstrip, Htrim.
    assert (Hmatch : matchBrackets body = Some body).
    { unfold matchBrackets. subst body. cbn [splitAt]. simpl Ascii.eqb. cbv iota.
      exact (throughLast_app_char (String "[" mid) "]"). }
    unfold parseArrayAnswer. cbv zeta.
    rewrite Hft, Hfs, Hstrip, Hmatch. split; [done |].
    rewrite Htrim. replace (startsWith fence body) with false by done.
    by rewrite Hmatch.
Qed.

Lemma fenced_answer_reads_as_bare_witness :
  let mid := quote +:+ "upsell" +:+ quote +:+ ":[2001],"
             +:+ quote +:+ "crosssell" +:+ quote +:+ ":[2001]" in
  parseLLMResponse both_lists_oracle
    (JStr (fence +:+ "json" +:+ newline +:+ String "{" (mid +:+ "}") +:+ newline +:+ fence))
  = Ok both_lists_value.
Proof.
  intros mid.
  rewrite (proj1 (proj1 (fenced_answer_reads_as_bare both_lists_oracle "json" mid
                           (or_introl eq_refl)))).
  reflexivity.
Defined.

(** *** The JSON text taken from an answer *)

Lemma occursIn_cons (c x : ascii) (s : string) :
  occursIn c (String x s) ↔ x = c ∨ occursIn c s.
Proof.
  split.
  - intros ([| y a] & b & H).
    + change ("" +:+ String c b) with (String c b) in H. injection H as -> _. by left.
    + change (String y a +:+ String c b) with (String y (a +:+ String c b)) in H.
      injection H as _ ->. right. by exists a, b.
  - intros [-> | (a & b & ->)]; [by exists "", s | by exists (String x a), b].
Qed.

Lemma occursIn_nil (c : ascii) : ¬ occursIn c "".
Proof. intros ([| y a] & b & H); discriminate H. Qed.

Lemma splitAt_spec (c : ascii) (s : string) :
  match splitAt c s with
  | (a, Some b) => s = a +:+ String c b ∧ ¬ occursIn c a
  | (a, None) => a = s ∧ ¬ occursIn c s
  end.
Proof.
  induction s as [| x s IH]; simpl; [split; [done | apply occursIn_nil] |].
  destruct (Ascii.eqb_spec x c) as [-> | Hne]; [split; [done | apply occursIn_nil] |].
  destruct (splitAt c s) as [a [b |]].
  - destruct IH as [-> Ha]. split; [done |]. rewrite occursIn_cons. tauto.
  - destruct IH as [-> Hs]. split; [done |]. rewrite occursIn_cons. tauto.
Qed.

Lemma splitAt_first (c : ascii) (a b : string) :
  ¬ occursIn c a → splitAt c (a +:+ String c b) = (a, Some b).
Proof.
  induction a as [| x a IH]; intros Ha.
  - change ("" +:+ String c b) with (String c b). simpl. by rewrite Ascii.eqb_refl.
  - change (String x a +:+ String c b) with (String x (a +:+ String c b)).
    rewrite occursIn_cons in Ha. cbn [splitAt].
    destruct (Ascii.eqb_spec x c) as [-> | _]; [tauto |].
    rewrite IH by tauto. done.
Qed.

Lemma throughLast_spec (c : ascii) (s : string) :
  match throughLast c s with
  | Some m => ∃ a post, m = a +:+ String c "" ∧ s = m +:+ post ∧ ¬ occursIn c post
  | None => ¬ occursIn c s
  end.
Proof.
  induction s as [| x s IH]; cbn [throughLast]; [apply occursIn_nil |].
  destruct (throughLast c s) as [r |].
  - destruct IH as (a & post & -> & Hs & Hpost).
    exists (String x a), post. split; [done |]. split; [by rewrite Hs at 1 | done].
  - destruct (Ascii.eqb_spec x c) as [-> | Hne].
    + by exists "", s.
    + rewrite occursIn_cons. tauto.
Qed.

Lemma throughLast_last (c : ascii) (a post : string) :
  ¬ occursIn c post →
  throughLast c (a +:+ String c post) = Some (a +:+ String c "").
Proof.
  intros Hpost. induction a as [| x a IH].
  - change ("" +:+ String c post) with (String c post).
    change ("" +:+ String c "") with (String c ""). cbn [throughLast].
    pose proof (throughLast_spec c post) as Hspec.
    destruct (throughLast c post) as [m |].
    + destruct Hspec as (a & post' & -> & Hs & _). destruct Hpost.
      exists a, post'. by rewrite Hs, string_app_assoc.
    + by rewrite Ascii.eqb_refl.
  - change (String x a +:+ ?r) with (String x (a +:+ r)). cbn [throughLast].
    by rewrite IH.
Qed.

(** The text between the first [o] and the last [c] after it, both
    included. *)
Lemma match_between (o c : ascii) (s m : string) :
  o ≠ c →
  match splitAt o s with
  | (_, Some rest) => throughLast c (String o rest)
  | (_, None) => None
  end = Some m
  ↔ ∃ pre mid post,
      s = pre +:+ m +:+ post ∧ m = String o mid +:+ String c ""
      ∧ ¬ occursIn o pre ∧ ¬ occursIn c post.
Proof.
  intros Hoc. split.
  - pose proof (splitAt_spec o s) as Hsplit.
    destruct (splitAt o s) as [pre [rest |]]; [| discriminate].
    destruct Hsplit as [-> Hpre]. intros Hm.
    pose proof (throughLast_spec c (String o rest)) as Hspec. rewrite Hm in Hspec.
    destruct Hspec as (a & post & -> & Hs & Hpost).
    destruct a as [| x a].
    + change (("" +:+ String c "") +:+ post) with (String c post) in Hs.
      injection Hs as Heq _. done.
    + change ((String x a +:+ String c "") +:+ post)
        with (String x ((a +:+ String c "") +:+ post)) in Hs.
      injection Hs as -> ->. by exists pre, a, post.
  - intros (pre & mid & post & -> & -> & Hpre & Hpost).
    rewrite string_app_assoc.
    change (pre +:+ String o mid +:+ String c "" +:+ post)
      with (pre +:+ String o (mid +:+ String c post)).
    rewrite splitAt_first by done.
    exact (throughLast_last c (String o mid) post Hpost).
Qed.

(** What is given to [JSON.parse]: of the answer's text, the part from the
    first opening brace to the last closing brace after it (the ranking
    engine), from the first opening bracket to the last closing bracket
    after it (the precomputation steps).  Text before and after that part
    is dropped, and there is no such part exactly when no closing
    character follows an opening one. *)
Theorem json_text_is_first_to_last (s m : string) :
  (matchBraces s = Some m
   ↔ ∃ pre mid post,
       s = pre +:+ m +:+ post ∧ m = String "{" mid +:+ "}"
       ∧ ¬ occursIn "{" pre ∧ ¬ occursIn "}" post)
  ∧ (matchBrackets s = Some m
     ↔ ∃ pre mid post,
         s = pre +:+ m +:+ post ∧ m = String "[" mid +:+ "]"
         ∧ ¬ occursIn "[" pre ∧ ¬ occursIn "]" post).
Proof.
  split; [apply (match_between "{" "}") | apply (match_between "[" "]")]; done.
Qed.

(** *** Step 6 as a whole: from the oracle's answer to the stored graph *)

Lemma sameValueZero_JStr (k : jsval) (t : string) :
  sameValueZero k (JStr t) = true ↔ k = JStr t.
Proof.
  destruct k as [| | b | q | s | items | fields]; simpl; try (split; [done | discriminate]).
  rewrite String.eqb_eq. split; [by intros -> | by intros [= ->]].
Qed.

Lemma mapGet_mapSet (k t : string) (v : jsval) (m : list (jsval * jsval)) :
  mapGet (JStr t) (mapSet (JStr k) v m)
  = if String.eqb k t then Some v else mapGet (JStr t) m.
Proof.
  unfold mapGet. induction m as [| [k' v'] m IH]; cbn [mapSet List.find fst].
  - simpl. by destruct (String.eqb k t).
  - destruct (sameValueZero k' (JStr k)) eqn:Hk.
    + apply sameValueZero_JStr in Hk. subst k'. cbn [List.find fst sameValueZero].
      by destruct (String.eqb k t).
    + cbn [List.find fst]. destruct (sameValueZero k' (JStr t)) eqn:Ht; [| exact IH].
      apply sameValueZero_JStr in Ht. subst k'. simpl in Hk. simpl.
      destruct (String.eqb_spec k t) as [-> | _]; [| done].
      by rewrite String.eqb_refl in Hk.
Qed.

Lemma mapSet_fst (k : string) (v : jsval) (m : list (jsval * jsval)) (ks : list string) :
  m.*1 = JStr <$> ks →
  (mapSet (JStr k) v m).*1 = JStr <$> (if decide (k ∈ ks) then ks else ks ++ [k]).
Proof.
  revert ks. induction m as [| [k' v'] m IH]; intros ks Hks.
  - destruct ks as [| s ks]; [| discriminate]. simpl.
    destruct (decide (k ∈ [])) as [Hin | _]; [by apply elem_of_nil in Hin | done].
  - destruct ks as [| s ks]; [discriminate |]. rewrite !fmap_cons in Hks.
    injection Hks as Hk' Hks. simpl in Hk'. subst k'. cbn [mapSet sameValueZero].
    destruct (String.eqb_spec s k) as [-> | Hne].
    + destruct (decide (k ∈ k :: ks)) as [_ | Hn]; [| destruct Hn; left].
      by rewrite !fmap_cons, Hks.
    + rewrite fmap_cons, (IH ks Hks). cbn [fst].
      destruct (decide (k ∈ ks)) as [Hin | Hnin].
      * destruct (decide (k ∈ s :: ks)) as [_ | Hn]; [done | destruct Hn; by right].
      * destruct (decide (k ∈ s :: ks)) as [Hin | _]; [| done].
        apply elem_of_cons in Hin as [-> | Hin]; done.
Qed.

Lemma mapSet_keys (k : string) (v : jsval) (m : list (jsval * jsval)) (ks : list string) :
  m.*1 = JStr <$> ks → NoDup ks →
  ∃ ks', (mapSet (JStr k) v m).*1 = JStr <$> ks' ∧ NoDup ks'.
Proof.
  intros Hks Hnd. eexists. split; [by apply mapSet_fst |].
  destruct (decide (k ∈ ks)) as [Hin | Hnin]; [done |].
  apply NoDup_app. split; [done |]. split; [| apply NoDup_singleton].
  intros x Hx Hk. apply list_elem_of_singleton in Hk. by subst x.
Qed.

Lemma member_tag_strict (item : jsval) (t : string) :
  member item "tag" = JStr t → strictMember item "tag" = Ok (JStr t).
Proof. destruct item; try discriminate. simpl. by intros ->. Qed.

(** The graph the loop builds from items that all have a text as their
    tag: its keys are texts, each once; the value of a tag is the [related]
    of the last item with that tag. *)
Lemma setEach_graph (items : list jsval) (m : list (jsval * jsval)) (ks : list string) :
  Forall (fun item => ∃ t, member item "tag" = JStr t) items →
  m.*1 = JStr <$> ks → NoDup ks →
  (∃ ks', (setEach items m).*1 = JStr <$> ks' ∧ NoDup ks')
  ∧ ∀ t, mapGet (JStr t) (setEach items m)
         = match lastRelated t items with
           | Some related => Some related
           | None => mapGet (JStr t) m
           end.
Proof.
  intros Hitems. revert m ks. induction Hitems as [| item rest [k Hk] _ IH];
    intros m ks Hks Hnd; [by eauto |].
  cbn [setEach lastRelated]. rewrite (member_tag_strict item k Hk), Hk.
  destruct (mapSet_keys k (member item "related") m ks Hks Hnd) as (ks1 & Hks1 & Hnd1).
  destruct (IH _ ks1 Hks1 Hnd1) as [Hkeys Hget]. split; [done |].
  intros t. rewrite Hget, mapGet_mapSet. cbn [sameValueZero].
  destruct (lastRelated t rest); [done |]. by destruct (String.eqb k t).
Qed.

Lemma setEach_stops_at_null (good rest : list jsval) (m : list (jsval * jsval)) :
  Forall (fun item => ∃ t, member item "tag" = JStr t) good →
  setEach (good ++ JNull :: rest) m = setEach good m.
Proof.
  intros Hgood. revert m. induction Hgood as [| item l [k Hk] _ IH]; intros m; [done |].
  cbn [app setEach]. rewrite (member_tag_strict item k Hk). apply IH.
Qed.

(** The rows a save leaves, for a graph whose keys are texts, each once. *)
Lemma saveTagGraph_get (d : Driver) (graphFault : string → option Error)
  (m : list (jsval * jsval)) (ks : list string) (graph graph' : gmap string (list string))
  (t : string) :
  m.*1 = JStr <$> ks → NoDup ks →
  saveTagGraphToDatabase d graphFault m graph = (graph', Ok ()) →
  graph' !! t
  = match mapGet (JStr t) m with
    | Some (JArr children) =>
        if decide (omap isValidChild children = []) then graph !! t
        else Some (omap isValidChild children)
    | _ => graph !! t
    end.
Proof.
  revert ks graph. induction m as [| [k c] m IH]; intros ks graph Hks Hnd Hsave.
  { injection Hsave as <-. done. }
  destruct ks as [| s ks]; [discriminate |]. rewrite !fmap_cons in Hks.
  injection Hks as Hk Hks. simpl in Hk. subst k.
  apply NoDup_cons in Hnd as [Hs Hnd].
  assert (Hlater : s ≠ t → mapGet (JStr t) ((JStr s, c) :: m) = mapGet (JStr t) m).
  { intros Hne. unfold mapGet. cbn [List.find fst sameValueZero].
    by destruct (String.eqb_spec s t). }
  assert (Hnone : mapGet (JStr s) m = None).
  { unfold mapGet. destruct (List.find _ m) as [[k v] |] eqn:Hfind; [| done].
    apply find_some in Hfind as [Hin Heq]. apply sameValueZero_JStr in Heq.
    simpl in Heq. subst k. destruct Hs.
    apply list_elem_of_In in Hin. apply (list_elem_of_fmap_2 fst) in Hin.
    rewrite Hks in Hin. simpl in Hin.
    apply list_elem_of_fmap in Hin as (x & [= <-] & Hx). done. }
  cbn [saveTagGraphToDatabase] in Hsave.
  destruct c as [| | b | q | s' | children | fields]; try discriminate Hsave.
  cbn [validChildrenOf prepareValue] in Hsave.
  destruct (decide (s = t)) as [-> | Hne].
  - unfold mapGet at 1. cbn [List.find fst sameValueZero]. rewrite String.eqb_refl.
    cbn [fmap option_fmap option_map snd].
    destruct (omap isValidChild children) as [| v vs] eqn:Hv.
    + rewrite (IH ks graph Hks Hnd Hsave), Hnone. by destruct (decide _).
    + destruct (graphFault t); [discriminate |].
      rewrite (IH ks _ Hks Hnd Hsave), Hnone, lookup_insert_eq.
      by destruct (decide _).
  - rewrite (Hlater Hne).
    destruct (omap isValidChild children) as [| v vs] eqn:Hv.
    + by apply (IH ks).
    + destruct (graphFault s); [discriminate |].
      rewrite (IH ks _ Hks Hnd Hsave). by rewrite lookup_insert_ne.
Qed.

(** Step 6 on an answer the code can read.  When the oracle's answer
    parses to an array whose items, up to its end or to the first [null],
    all have a text as their tag, and the save of the graph built ends
    normally, the row of every tag is fixed by the last of those items
    with that tag: the row holds the non-blank strings of its [related]
    array when there are some, and is left as it was when there are none
    or when no item has the tag.  Items after a [null] are not read. *)
Theorem tag_graph_step_stores_answer (o : Oracle) (allTags : list string) (d : Driver)
  (graphFault : string → option Error) (graph graph' : gmap string (list string))
  (llmResponse : jsval) (good tail : list jsval) :
  gridAIContent o = Ok llmResponse →
  parseArrayAnswer o llmResponse = Some (JArr (good ++ tail)) →
  tail = [] ∨ (∃ rest, tail = JNull :: rest) →
  Forall (fun item => ∃ t, member item "tag" = JStr t) good →
  saveTagGraphToDatabase d graphFault (buildTagGraphWithLLM o allTags) graph
  = (graph', Ok ()) →
  ∀ t, graph' !! t
       = match lastRelated t good with
         | Some (JArr children) =>
             if decide (omap isValidChild children = []) then graph !! t
             else Some (omap isValidChild children)
         | _ => graph !! t
         end.
Proof.
  intros Hcontent Hparse Htail Hgood Hsave t.
  assert (Hbuild : buildTagGraphWithLLM o allTags = setEach good []).
  { unfold buildTagGraphWithLLM. rewrite Hcontent, Hparse. cbn [iterate].
    destruct Htail as [-> | [rest ->]]; [by rewrite app_nil_r |].
    by apply setEach_stops_at_null. }
  rewrite Hbuild in Hsave.
  destruct (setEach_graph good [] [] Hgood eq_refl (NoDup_nil_2))
    as [(ks & Hks & Hnd) Hget].
  rewrite (saveTagGraph_get d graphFault _ ks graph graph' t Hks Hnd Hsave), Hget.
  by destruct (lastRelated t good).
Qed.

Lemma tag_graph_step_stores_answer_witness :
  ∃ graph',
    saveTagGraphToDatabase sample_driver (fun _ => None)
      (buildTagGraphWithLLM graph_oracle ["t-shirt"; "jeans"])
      {[ "t-shirt" := ["socks"]; "jeans" := ["belt"] ]}
    = (graph', Ok ())
    ∧ graph' !! "t-shirt" = Some ["jeans"; "sneakers"]
    ∧ graph' !! "jeans" = Some ["belt"].
Proof.
  set (run := saveTagGraphToDatabase sample_driver (fun _ => None)
                (buildTagGraphWithLLM graph_oracle ["t-shirt"; "jeans"])
                {[ "t-shirt" := ["socks"]; "jeans" := ["belt"] ]}).
  assert (Hrun : run = (run.1, Ok ())) by reflexivity.
  exists run.1. split; [exact Hrun |].
  assert (Hgood : Forall (fun item => ∃ t, member item "tag" = JStr t) graph_answer_items)
    by (repeat constructor; by eexists).
  pose proof (tag_graph_step_stores_answer graph_oracle ["t-shirt"; "jeans"] sample_driver
                (fun _ => None) {[ "t-shirt" := ["socks"]; "jeans" := ["belt"] ]} run.1
                (JStr graph_answer_text) graph_answer_items [JNull]
                eq_refl eq_refl (or_intror (ex_intro _ [] eq_refl)) Hgood Hrun) as Hrows.
  split; [exact (Hrows "t-shirt") | exact (Hrows "jeans")].
Defined.
